(** * BlackRoad agents: task queue, self-healer and coordinator

    A shallow embedding of the three Durable Objects of [src/agents]
    ([task-queue.ts], [self-healer.ts], [coordinator.ts]) and the properties
    their specification states about them.

    Conventions of the embedding.
    - A timestamp is the number of milliseconds since the epoch, a [Z]; the
      ISO strings the code stores ([toISOString], [new Date(s).getTime()])
      are that number in another notation.
    - A handler receives the clock readings it makes as arguments.  Readings
      separated by no call to a collaborator are one argument.
    - [crypto.randomUUID()] is an argument of the handler that calls it.
    - A call to a collaborator that the code wraps in [try]/[catch] is an
      argument of type [Outcome]: what the call returned or what it threw.
      The object's own storage ([state.storage]) is taken to return
      normally; [persistTaskToD1] catches its own errors.
    - A JavaScript [Map] is an association list in insertion order, a [Set]
      a duplicate-free list in insertion order.
    - A handler whose promise is rejected gives no response: [fetch] returns
      the promise of a handler without awaiting it, so its [catch] sees what
      [request.json()] throws and nothing a handler throws.
    - Counters the agents keep are integers, and so are the retry count and
      the priority of a task: a task is created with retry count 0, the
      scheduler only adds 1 to it, and an update request that writes either
      field is taken to write a whole number.  The retry limit of a task is
      the number a request gave, a rational: the code compares the retry
      count with it, and a limit that is not whole changes what that
      comparison allows. *)

From Stdlib Require Import ZArith QArith Qround List String Bool Lia Lqa.
Import ListNotations.
Local Open Scope Z_scope.

(** ** JavaScript values and built-ins used by the agents *)
Module Js.

Definition Timestamp := Z.

(** What a [catch (error)] clause can receive. *)
Inductive Thrown : Type :=
  | ErrorObject (message : string)
  | NonError.

(** [error instanceof Error ? error.message : fallback] *)
Definition errorMessage (fallback : string) (e : Thrown) : string :=
    match e with
    | ErrorObject m => m
    | NonError => fallback
    end.

Inductive Outcome (A : Type) : Type :=
  | Returned (a : A)
  | Threw (e : Thrown).
Arguments Returned {A} a.
Arguments Threw {A} e.

(** [x || d] for a number that may be absent: [undefined] and [0] are
      falsy. *)
Definition orZ (x : option Z) (d : Z) : Z :=
    match x with
    | Some v => if v =? 0 then d else v
    | None => d
    end.

(** [x || d] for a number of a request body: [undefined] and [0] are
      falsy. *)
Definition orQ (x : option Q) (d : Q) : Q :=
    match x with
    | Some v => if Qeq_bool v 0 then d else v
    | None => d
    end.

(** [a < b] on numbers. *)
Definition ltQ (a b : Q) : bool := negb (Qle_bool b a).

(** [x || d] for a value that is truthy whenever it is present. *)
Definition orDefault {A : Type} (x : option A) (d : A) : A :=
    match x with
    | Some v => v
    | None => d
    end.

(** [x || d] for a string: the empty string is falsy. *)
Definition orString (x : option string) (d : string) : string :=
    match x with
    | Some EmptyString => d
    | Some v => v
    | None => d
    end.

(** [s.includes(sub)] *)
Fixpoint includes (s sub : string) : bool :=
    if String.prefix sub s then true
    else match s with
         | EmptyString => false
         | String _ s' => includes s' sub
         end.

(** [s.replace(pat, rep)] for a string pattern: the first occurrence. *)
Fixpoint replace (s pat rep : string) : string :=
    if String.prefix pat s
    then (rep ++ String.substring (String.length pat) (String.length s) s)%string
    else match s with
         | EmptyString => EmptyString
         | String c s' => String c (replace s' pat rep)
         end.

(** [Array.prototype.sort(cmp)]: a stable sort; [cmp a b <= 0] keeps [a]
      before [b]. *)
Section Sort.
Context {A : Type} (cmp : A -> A -> Z).

Fixpoint insert (x : A) (l : list A) : list A :=
      match l with
      | [] => [x]
      | y :: l' => if cmp x y <=? 0 then x :: y :: l' else y :: insert x l'
      end.

Fixpoint sort (l : list A) : list A :=
      match l with
      | [] => []
      | x :: l' => insert x (sort l')
      end.
End Sort.

(** [Array.prototype.slice(0, n)] *)
Definition slice0 {A : Type} (n : nat) (l : list A) : list A := firstn n l.

(** [Map<string, V>], in insertion order. *)
Definition Map (V : Type) : Type := list (string * V).

Fixpoint get {V : Type} (m : Map V) (k : string) : option V :=
    match m with
    | [] => None
    | (k', v) :: m' => if String.eqb k' k then Some v else get m' k
    end.

(** [m.set(k, v)]: an existing key keeps its place. *)
Fixpoint set {V : Type} (m : Map V) (k : string) (v : V) : Map V :=
    match m with
    | [] => [(k, v)]
    | (k', v') :: m' =>
        if String.eqb k' k then (k', v) :: m' else (k', v') :: set m' k v
    end.

Definition keys {V : Type} (m : Map V) : list string := map fst m.
Definition values {V : Type} (m : Map V) : list V := map snd m.
Definition size {V : Type} (m : Map V) : nat := List.length m.

(** [Set<string>], in insertion order. *)
Definition StringSet : Type := list string.

Definition has (s : StringSet) (x : string) : bool :=
    existsb (String.eqb x) s.

Definition add (s : StringSet) (x : string) : StringSet :=
    if has s x then s else s ++ [x].

Definition delete (s : StringSet) (x : string) : StringSet :=
    filter (fun y => negb (String.eqb x y)) s.

End Js.

(** ** [types/env.ts]: configuration *)
Module Env.

(** The variables the three agents read.  [MAX_RETRY_ATTEMPTS] is the
      value of [parseInt(env.MAX_RETRY_ATTEMPTS)], [None] when that is
      [NaN]; [RETRY_BACKOFF_MS] is read without a guard and is the parsed
      number. *)
Record Env : Type := {
    SELF_HEAL_ENABLED : string;
    MAX_RETRY_ATTEMPTS : option Z;
    RETRY_BACKOFF_MS : Z
  }.

End Env.

(** ** [agents/task-queue.ts] *)
Module TaskQueue.
Import Js.

Inductive AgentTaskType : Type :=
  | repo_scrape | sync_check | health_check | self_heal
  | update_deploy | media_process | youtube_publish | cleanup.

Definition typeName (t : AgentTaskType) : string :=
    match t with
    | repo_scrape => "repo_scrape"
    | sync_check => "sync_check"
    | health_check => "health_check"
    | self_heal => "self_heal"
    | update_deploy => "update_deploy"
    | media_process => "media_process"
    | youtube_publish => "youtube_publish"
    | cleanup => "cleanup"
    end.

Inductive TaskStatus : Type :=
  | pending | queued | running | completed | failed | retrying | cancelled.

Definition status_eqb (a b : TaskStatus) : bool :=
    match a, b with
    | pending, pending | queued, queued | running, running
    | completed, completed | failed, failed | retrying, retrying
    | cancelled, cancelled => true
    | _, _ => false
    end.

(** [Record<string, unknown>]: opaque to the scheduler. *)
Definition Payload : Type := list (string * string).

Record AgentTask : Type := {
    id : string;
    type : AgentTaskType;
    status : TaskStatus;
    priority : Z;
    payload : Payload;
    retryCount : Z;
    maxRetries : Q;
    createdAt : Timestamp;
    updatedAt : Timestamp;
    completedAt : option Timestamp;
    error : option string;
    result : option Payload
  }.

(** [Partial<AgentTask>]: a field is present or not. *)
Module Partial.
Record t : Type := {
      id : option string;
      type : option AgentTaskType;
      status : option TaskStatus;
      priority : option Z;
      payload : option Payload;
      retryCount : option Z;
      maxRetries : option Q;
      createdAt : option Timestamp;
      updatedAt : option Timestamp;
      completedAt : option Timestamp;
      error : option string;
      result : option Payload
    }.

Definition empty : t :=
      {| id := None; type := None; status := None; priority := None;
         payload := None; retryCount := None; maxRetries := None;
         createdAt := None; updatedAt := None; completedAt := None;
         error := None; result := None |}.
End Partial.

(** Assignments to one field of a task object. *)
Definition with_status (v : TaskStatus) (x : AgentTask) : AgentTask :=
    {| id := id x; type := type x; status := v; priority := priority x;
       payload := payload x; retryCount := retryCount x;
       maxRetries := maxRetries x; createdAt := createdAt x;
       updatedAt := updatedAt x; completedAt := completedAt x;
       error := error x; result := result x |}.

Definition with_retryCount (v : Z) (x : AgentTask) : AgentTask :=
    {| id := id x; type := type x; status := status x; priority := priority x;
       payload := payload x; retryCount := v;
       maxRetries := maxRetries x; createdAt := createdAt x;
       updatedAt := updatedAt x; completedAt := completedAt x;
       error := error x; result := result x |}.

Definition with_updatedAt (v : Timestamp) (x : AgentTask) : AgentTask :=
    {| id := id x; type := type x; status := status x; priority := priority x;
       payload := payload x; retryCount := retryCount x;
       maxRetries := maxRetries x; createdAt := createdAt x;
       updatedAt := v; completedAt := completedAt x;
       error := error x; result := result x |}.

Definition with_completedAt (v : Timestamp) (x : AgentTask) : AgentTask :=
    {| id := id x; type := type x; status := status x; priority := priority x;
       payload := payload x; retryCount := retryCount x;
       maxRetries := maxRetries x; createdAt := createdAt x;
       updatedAt := updatedAt x; completedAt := Some v;
       error := error x; result := result x |}.

Definition with_error (v : string) (x : AgentTask) : AgentTask :=
    {| id := id x; type := type x; status := status x; priority := priority x;
       payload := payload x; retryCount := retryCount x;
       maxRetries := maxRetries x; createdAt := createdAt x;
       updatedAt := updatedAt x; completedAt := completedAt x;
       error := Some v; result := result x |}.

Definition with_result (v : Payload) (x : AgentTask) : AgentTask :=
    {| id := id x; type := type x; status := status x; priority := priority x;
       payload := payload x; retryCount := retryCount x;
       maxRetries := maxRetries x; createdAt := createdAt x;
       updatedAt := updatedAt x; completedAt := completedAt x;
       error := error x; result := Some v |}.

(** [Object.assign(task, updates, { updatedAt: now })] *)
Definition assign (x : AgentTask) (u : Partial.t) (now : Timestamp)
    : AgentTask :=
    {| id := orDefault (Partial.id u) (id x);
       type := orDefault (Partial.type u) (type x);
       status := orDefault (Partial.status u) (status x);
       priority := orDefault (Partial.priority u) (priority x);
       payload := orDefault (Partial.payload u) (payload x);
       retryCount := orDefault (Partial.retryCount u) (retryCount x);
       maxRetries := orDefault (Partial.maxRetries u) (maxRetries x);
       createdAt := orDefault (Partial.createdAt u) (createdAt x);
       updatedAt := now;
       completedAt :=
         match Partial.completedAt u with
         | Some v => Some v
         | None => completedAt x
         end;
       error :=
         match Partial.error u with
         | Some v => Some v
         | None => error x
         end;
       result :=
         match Partial.result u with
         | Some v => Some v
         | None => result x
         end |}.

Record Stats : Type := {
    totalEnqueued : Z;
    totalCompleted : Z;
    totalFailed : Z;
    totalRetried : Z
  }.

Record QueueState : Type := {
    tasks : Map AgentTask;
    processing : StringSet;
    stats : Stats
  }.

(** The agent: its in-memory state and the one alarm of its storage
      ([state.storage.setAlarm] replaces a pending alarm). *)
Record TaskQueueAgent : Type := {
    queueState : QueueState;
    alarm : option Timestamp
  }.

Definition initial : TaskQueueAgent :=
    {| queueState :=
         {| tasks := []; processing := [];
            stats := {| totalEnqueued := 0; totalCompleted := 0;
                        totalFailed := 0; totalRetried := 0 |} |};
       alarm := None |}.

(** The responses of the handlers, the 500 of [fetch]'s [catch], and the
    request that ends without a response because the promise of its
    handler was rejected. *)
Inductive Response : Type :=
  | Created (task : AgentTask)
  | Updated (task : AgentTask)
  | TaskNotFound
  | Processed (task : AgentTask)
  | NoPendingTasks
  | Retried (retriedCount : nat) (taskIds : list string)
  | InternalError (message : string)
  | Rejected (e : Thrown).

Definition incEnqueued (s : Stats) : Stats :=
  {| totalEnqueued := totalEnqueued s + 1; totalCompleted := totalCompleted s;
     totalFailed := totalFailed s; totalRetried := totalRetried s |}.

Definition incCompleted (s : Stats) : Stats :=
  {| totalEnqueued := totalEnqueued s; totalCompleted := totalCompleted s + 1;
     totalFailed := totalFailed s; totalRetried := totalRetried s |}.

Definition incFailed (s : Stats) : Stats :=
  {| totalEnqueued := totalEnqueued s; totalCompleted := totalCompleted s;
     totalFailed := totalFailed s + 1; totalRetried := totalRetried s |}.

Definition addRetried (n : Z) (s : Stats) : Stats :=
  {| totalEnqueued := totalEnqueued s; totalCompleted := totalCompleted s;
     totalFailed := totalFailed s; totalRetried := totalRetried s + n |}.

(** The [task] object of [handleEnqueue]; [uuid] is
    [crypto.randomUUID()]. *)
Definition newTask (env : Env.Env) (uuid : string) (now : Timestamp)
  (body : Partial.t) : AgentTask :=
  {| id := uuid;
     type := orDefault (Partial.type body) health_check;
     status := pending;
     priority := orZ (Partial.priority body) 5;
     payload := orDefault (Partial.payload body) [];
     retryCount := 0;
     maxRetries :=
       orQ (Partial.maxRetries body)
         (inject_Z (orZ (Env.MAX_RETRY_ATTEMPTS env) 5));
     createdAt := now;
     updatedAt := now;
     completedAt := None; error := None; result := None |}.

(** [handleEnqueue].  [send] is the outcome of [TASK_QUEUE_PRODUCER.send],
    which is awaited outside any [try], after the task was stored: when it
    throws, the promise of the handler is rejected. *)
Definition handleEnqueue (env : Env.Env) (uuid : string) (now : Timestamp)
  (send : Outcome unit) (body : Partial.t) (a : TaskQueueAgent)
  : Response * TaskQueueAgent :=
  let task := newTask env uuid now body in
  let q := queueState a in
  let a' :=
    {| queueState :=
         {| tasks := set (tasks q) (id task) task;
            processing := processing q;
            stats := incEnqueued (stats q) |};
       alarm := alarm a |} in
  match send with
  | Returned _ => (Created task, a')
  | Threw e => (Rejected e, a')
  end.

(** [task.retryCount < task.maxRetries] *)
Definition retriesLeft (t : AgentTask) : bool :=
  ltQ (inject_Z (retryCount t)) (maxRetries t).

(** [parseInt(RETRY_BACKOFF_MS) * Math.pow(2, retryCount)], for a
    [retryCount] that is not negative and a product that a double holds
    exactly.  [handleUpdateTask] calls it with the retry count it has just
    raised by one. *)
Definition backoffMs (env : Env.Env) (retryCount : Z) : Z :=
  Env.RETRY_BACKOFF_MS env * 2 ^ retryCount.

(** [handleUpdateTask].  The task object is mutated in place: the entry of
    [taskId] is rewritten. *)
Definition handleUpdateTask (env : Env.Env) (now : Timestamp)
  (taskId : string) (updates : Partial.t) (a : TaskQueueAgent)
  : Response * TaskQueueAgent :=
  let q := queueState a in
  match get (tasks q) taskId with
  | None => (TaskNotFound, a)
  | Some task0 =>
      let task := assign task0 updates now in
      match Partial.status updates with
      | Some completed =>
          let task := with_completedAt now task in
          (Updated task,
           {| queueState :=
                {| tasks := set (tasks q) taskId task;
                   processing := delete (processing q) taskId;
                   stats := incCompleted (stats q) |};
              alarm := alarm a |})
      | Some failed =>
          if retriesLeft task then
            let task :=
              with_retryCount (retryCount task + 1) (with_status retrying task) in
            (Updated task,
             {| queueState :=
                  {| tasks := set (tasks q) taskId task;
                     processing := delete (processing q) taskId;
                     stats := addRetried 1 (incFailed (stats q)) |};
                alarm := Some (now + backoffMs env (retryCount task)) |})
          else
            (Updated task,
             {| queueState :=
                  {| tasks := set (tasks q) taskId task;
                     processing := delete (processing q) taskId;
                     stats := incFailed (stats q) |};
                alarm := alarm a |})
      | Some running =>
          (Updated task,
           {| queueState :=
                {| tasks := set (tasks q) taskId task;
                   processing := add (processing q) taskId;
                   stats := stats q |};
              alarm := alarm a |})
      | _ =>
          (Updated task,
           {| queueState :=
                {| tasks := set (tasks q) taskId task;
                   processing := processing q;
                   stats := stats q |};
              alarm := alarm a |})
      end
  end.

(** [t.status === 'pending' || t.status === 'retrying'] *)
Definition isRunnable (t : AgentTask) : bool :=
  status_eqb (status t) pending || status_eqb (status t) retrying.

(** [(a, b) => a.priority - b.priority], on map entries. *)
Definition byPriority (a b : string * AgentTask) : Z :=
  priority (snd a) - priority (snd b).

(** [pendingTasks]: the array holds the task objects of the map; the
    embedding keeps the key of each to name the object that is mutated. *)
Definition pendingTasks (q : QueueState) : list (string * AgentTask) :=
  sort byPriority (filter (fun e => isRunnable (snd e)) (tasks q)).

(** [executeTask]: four kinds call another agent ([external] is what that
    call gives); the others return at once. *)
Definition executeTask (task : AgentTask) (external : Outcome Payload)
  : Outcome Payload :=
  match type task with
  | repo_scrape | sync_check | health_check | self_heal => external
  | _ => Returned [("executed", "true"); ("type", typeName (type task))]%string
  end.

(** [handleProcessNext].  [now] is read before the handler runs, [nowDone]
    after it returned. *)
Definition handleProcessNext (now nowDone : Timestamp)
  (external : Outcome Payload) (a : TaskQueueAgent)
  : Response * TaskQueueAgent :=
  let q := queueState a in
  match pendingTasks q with
  | [] => (NoPendingTasks, a)
  | (key, task0) :: _ =>
      let task := with_updatedAt now (with_status running task0) in
      let processing1 := add (processing q) (id task) in
      match executeTask task external with
      | Returned r =>
          let task :=
            with_completedAt nowDone
              (with_result r (with_status completed task)) in
          (Processed task,
           {| queueState :=
                {| tasks := set (tasks q) key task;
                   processing := delete processing1 (id task);
                   stats := incCompleted (stats q) |};
              alarm := alarm a |})
      | Threw e =>
          let task :=
            with_error (errorMessage "Unknown error" e)
              (with_status failed task) in
          if retriesLeft task then
            let task :=
              with_retryCount (retryCount task + 1) (with_status retrying task) in
            (Processed task,
             {| queueState :=
                  {| tasks := set (tasks q) key task;
                     processing := delete processing1 (id task);
                     stats := addRetried 1 (stats q) |};
                alarm := alarm a |})
          else
            (Processed task,
             {| queueState :=
                  {| tasks := set (tasks q) key task;
                     processing := delete processing1 (id task);
                     stats := incFailed (stats q) |};
                alarm := alarm a |})
      end
  end.

(** [t.status === 'failed' && t.retryCount < t.maxRetries] *)
Definition canRetry (t : AgentTask) : bool :=
  status_eqb (status t) failed && retriesLeft t.

(** The body of the loop of [handleRetryFailed], on one task object. *)
Definition retryTask (now : Timestamp) (t : AgentTask) : AgentTask :=
  with_updatedAt now (with_retryCount (retryCount t + 1) (with_status retrying t)).

(** The loop of [handleRetryFailed] over the objects of [failedTasks], in
    the order of the map.  The clock is read once per task, each time after
    the write of the task before it was awaited: [clock i] is the reading
    for the [i]-th task that is retried. *)
Fixpoint retryEach (clock : nat -> Timestamp) (i : nat) (m : Map AgentTask)
  : Map AgentTask :=
  match m with
  | [] => []
  | (k, t) :: m' =>
      if canRetry t
      then (k, retryTask (clock i) t) :: retryEach clock (S i) m'
      else (k, t) :: retryEach clock i m'
  end.

(** [handleRetryFailed]: every object of [failedTasks] is mutated once, and
    [totalRetried] counts them. *)
Definition handleRetryFailed (clock : nat -> Timestamp) (a : TaskQueueAgent)
  : Response * TaskQueueAgent :=
  let q := queueState a in
  let failedTasks := filter canRetry (values (tasks q)) in
  (Retried (List.length failedTasks) (map id failedTasks),
   {| queueState :=
        {| tasks := retryEach clock 0 (tasks q);
           processing := processing q;
           stats := addRetried (Z.of_nat (List.length failedTasks)) (stats q) |};
      alarm := alarm a |}).

(** The operations of the scheduler, with what each reads from outside. *)
Inductive Op : Type :=
| Enqueue (uuid : string) (send : Outcome unit) (body : Partial.t)
| UpdateTask (taskId : string) (updates : Partial.t)
| ProcessNext (nowDone : Timestamp) (external : Outcome Payload)
| RetryFailed (clock : nat -> Timestamp).

Definition step (env : Env.Env) (now : Timestamp) (op : Op)
  (a : TaskQueueAgent) : Response * TaskQueueAgent :=
  match op with
  | Enqueue uuid send body => handleEnqueue env uuid now send body a
  | UpdateTask taskId updates => handleUpdateTask env now taskId updates a
  | ProcessNext nowDone external => handleProcessNext now nowDone external a
  | RetryFailed clock => handleRetryFailed clock a
  end.

(** A run: operations with the time each starts at. *)
Fixpoint run (env : Env.Env) (ops : list (Timestamp * Op))
  (a : TaskQueueAgent) : TaskQueueAgent :=
  match ops with
  | [] => a
  | (now, op) :: ops' => run env ops' (snd (step env now op a))
  end.

(** *** Runs that leave the retry fields to the scheduler

    [crypto.randomUUID()] gives an identifier no task has; the retry limit
    a task is created with is not negative; an update request carries
    neither [retryCount] nor [maxRetries]. *)
Definition admissible (env : Env.Env) (now : Timestamp) (op : Op)
  (a : TaskQueueAgent) : Prop :=
  match op with
  | Enqueue uuid _ body =>
      get (tasks (queueState a)) uuid = None
      /\ (0 <= maxRetries (newTask env uuid now body))%Q
  | UpdateTask _ updates =>
      Partial.retryCount updates = None /\ Partial.maxRetries updates = None
  | ProcessNext _ _ => True
  | RetryFailed _ => True
  end.

Fixpoint admissibleRun (env : Env.Env) (ops : list (Timestamp * Op))
  (a : TaskQueueAgent) : Prop :=
  match ops with
  | [] => True
  | (now, op) :: ops' =>
      admissible env now op a
      /\ admissibleRun env ops' (snd (step env now op a))
  end.

(** Every task of the map has its retry count less than one above its
    limit: it was raised only while it was below the limit. *)
Definition bounded (m : Map AgentTask) : Prop :=
  forall k t, get m k = Some t ->
    (inject_Z (retryCount t) < maxRetries t + 1)%Q.

(** Every task of [m] is in [m'], with a retry count that is not lower and
    the same limit. *)
Definition grown (m m' : Map AgentTask) : Prop :=
  forall k t, get m k = Some t ->
    exists t', get m' k = Some t'
               /\ retryCount t <= retryCount t'
               /\ maxRetries t' = maxRetries t.

End TaskQueue.


(** ** [types/env.ts]: health records *)
Module Check.

Inductive Status : Type := pass | warn | fail.

Definition status_eqb (a b : Status) : bool :=
  match a, b with
  | pass, pass | warn, warn | fail, fail => true
  | _, _ => false
  end.

Record HealthCheck : Type := {
  name : string;
  status : Status;
  message : option string;
  latencyMs : option Z
}.

End Check.

Module Agent.

Inductive Status : Type := active | idle | error | recovering.

Definition status_eqb (a b : Status) : bool :=
  match a, b with
  | active, active | idle, idle | error, error | recovering, recovering => true
  | _, _ => false
  end.

Record AgentHealth : Type := {
  name : string;
  status : Status;
  lastActivity : Js.Timestamp;
  taskCount : Z;
  errorCount : Z
}.

End Agent.

Module Health.

Inductive Overall : Type := healthy | degraded | unhealthy.

Record HealthStatus : Type := {
  overall : Overall;
  timestamp : Js.Timestamp;
  checks : list Check.HealthCheck;
  agents : list Agent.AgentHealth
}.

End Health.

(** ** [agents/self-healer.ts] *)
Module SelfHealer.
Import Js.

Inductive ActionKind : Type := restart | retry | rollback | alert | scale.

Inductive ActionStatus : Type := pending | executing | completed | failed.

Record SelfHealAction : Type := {
  id : string;
  trigger : string;
  action : ActionKind;
  target : string;
  status : ActionStatus;
  createdAt : Timestamp;
  executedAt : option Timestamp;
  result : option string
}.

(** [lastHealAttempt] is [None] for the empty string the agent starts
    with. *)
Record HealerState : Type := {
  actions : Map SelfHealAction;
  healCount : Z;
  lastHealAttempt : option Timestamp;
  consecutiveFailures : Z;
  circuitOpen : bool;
  circuitOpenedAt : option Timestamp
}.

Definition CIRCUIT_THRESHOLD : Z := 5.
Definition CIRCUIT_RESET_MS : Z := 60000.

Definition initial : HealerState :=
  {| actions := []; healCount := 0; lastHealAttempt := None;
     consecutiveFailures := 0; circuitOpen := false;
     circuitOpenedAt := None |}.

Record StatusReport : Type := {
  enabled : bool;
  open : bool;
  reportedFailures : Z;
  threshold : Z;
  openedAt : option Timestamp;
  totalHealAttempts : Z;
  lastAttempt : option Timestamp;
  actionsCount : nat;
  recentActions : list SelfHealAction
}.

Inductive Response : Type :=
| Status (report : StatusReport)
| CircuitOpen (resetAt : Timestamp)
| Executed (action : SelfHealAction)
| HealDisabled
| HealRefused
| Healed (count : nat) (results : list (SelfHealAction * bool))
| CircuitReset.

(** The breaker fields after it is closed. *)
Definition closeCircuit (s : HealerState) : HealerState :=
  {| actions := actions s; healCount := healCount s;
     lastHealAttempt := lastHealAttempt s;
     consecutiveFailures := 0; circuitOpen := false;
     circuitOpenedAt := None |}.

(** [(a, b) => new Date(b.createdAt).getTime() - new Date(a.createdAt).getTime()] *)
Definition newestFirst (a b : SelfHealAction) : Z := createdAt b - createdAt a.

(** [handleStatus] *)
Definition handleStatus (env : Env.Env) (now : Timestamp) (s : HealerState)
  : Response * HealerState :=
  let s' :=
    match circuitOpen s, circuitOpenedAt s with
    | true, Some opened =>
        let elapsed := now - opened in
        if elapsed >? CIRCUIT_RESET_MS then closeCircuit s else s
    | _, _ => s
    end in
  (Status
     {| enabled := String.eqb (Env.SELF_HEAL_ENABLED env) "true";
        open := circuitOpen s';
        reportedFailures := consecutiveFailures s';
        threshold := CIRCUIT_THRESHOLD;
        openedAt := circuitOpenedAt s';
        totalHealAttempts := healCount s';
        lastAttempt := lastHealAttempt s';
        actionsCount := size (actions s');
        recentActions := slice0 10 (sort newestFirst (values (actions s'))) |},
   s').

(** [action.result] of a dispatch that returned. *)
Definition successMessage (k : ActionKind) : string :=
  match k with
  | restart => "Agent restart triggered"
  | retry => "Retry operation completed"
  | rollback => "Rollback initiated"
  | alert => "Alert sent"
  | scale => "Scaling request noted (handled by platform)"
  end.

(** The [switch] of [executeHealAction]: [scale] calls nothing; every other
    kind awaits a collaborator, and [external] is what that call gives. *)
Definition dispatch (k : ActionKind) (external : Outcome unit) : Outcome unit :=
  match k with
  | scale => Returned tt
  | _ => external
  end.

(** [executeHealAction].  [tExec] is read on entry, [tFail] in the [catch].
    The action object sits in the map from the first assignment on, so the
    entry holds the final object. *)
Definition executeHealAction (tExec tFail : Timestamp)
  (external : Outcome unit) (a : SelfHealAction) (s : HealerState)
  : SelfHealAction * HealerState :=
  match dispatch (action a) external with
  | Returned _ =>
      let a' :=
        {| id := id a; trigger := trigger a; action := action a;
           target := target a; status := completed; createdAt := createdAt a;
           executedAt := Some tExec;
           result := Some (successMessage (action a)) |} in
      (a',
       {| actions := set (actions s) (id a) a'; healCount := healCount s;
          lastHealAttempt := lastHealAttempt s;
          consecutiveFailures := 0; circuitOpen := circuitOpen s;
          circuitOpenedAt := circuitOpenedAt s |})
  | Threw e =>
      let a' :=
        {| id := id a; trigger := trigger a; action := action a;
           target := target a; status := failed; createdAt := createdAt a;
           executedAt := Some tExec;
           result := Some (errorMessage "Unknown error" e) |} in
      let failures := consecutiveFailures s + 1 in
      if failures >=? CIRCUIT_THRESHOLD then
        (a',
         {| actions := set (actions s) (id a) a'; healCount := healCount s;
            lastHealAttempt := lastHealAttempt s;
            consecutiveFailures := failures; circuitOpen := true;
            circuitOpenedAt := Some tFail |})
      else
        (a',
         {| actions := set (actions s) (id a) a'; healCount := healCount s;
            lastHealAttempt := lastHealAttempt s;
            consecutiveFailures := failures; circuitOpen := circuitOpen s;
            circuitOpenedAt := circuitOpenedAt s |})
  end.

(** The body of a manual trigger. *)
Record TriggerBody : Type := {
  body_action : ActionKind;
  body_target : string;
  body_reason : option string
}.

(** [handleManualTrigger].  [new Date(null).getTime()] is [0]. *)
Definition handleManualTrigger (uuid : string) (now tExec tFail : Timestamp)
  (external : Outcome unit) (body : TriggerBody) (s : HealerState)
  : Response * HealerState :=
  if circuitOpen s then
    (CircuitOpen (orDefault (circuitOpenedAt s) 0 + CIRCUIT_RESET_MS), s)
  else
    let a :=
      {| id := uuid;
         trigger := orString (body_reason body) "manual";
         action := body_action body;
         target := body_target body;
         status := pending;
         createdAt := now;
         executedAt := None;
         result := None |} in
    let (r, s') := executeHealAction tExec tFail external a s in
    (Executed r, s').

(** [determineHealAction]; [uuid] is read before the name is looked at. *)
Definition determineHealAction (uuid : string) (now : Timestamp)
  (check : Check.HealthCheck) : option SelfHealAction :=
  let base (k : ActionKind) (tgt : string) :=
    {| id := uuid;
       trigger := ("check-failed:" ++ Check.name check)%string;
       action := k; target := tgt; status := pending; createdAt := now;
       executedAt := None; result := None |} in
  if includes (Check.name check) "kv" then Some (base retry "kv-namespace"%string)
  else if includes (Check.name check) "d1" then Some (base alert "d1-database"%string)
  else if includes (Check.name check) "agent" then
    Some (base restart (replace (Check.name check) "agent-" ""))
  else None.

(** The first loop of [handleAutoHeal]; [n] counts the calls to
    [randomUUID] made so far, [uuid n] is what the next one gives. *)
Fixpoint checkActions (uuid : nat -> string) (now : Timestamp) (n : nat)
  (cs : list Check.HealthCheck) : nat * list SelfHealAction :=
  match cs with
  | [] => (n, [])
  | c :: cs' =>
      match Check.status c with
      | Check.fail =>
          let (n', rest) := checkActions uuid now (S n) cs' in
          (n', match determineHealAction (uuid n) now c with
               | Some a => a :: rest
               | None => rest
               end)
      | _ => checkActions uuid now n cs'
      end
  end.

(** The second loop of [handleAutoHeal]. *)
Fixpoint agentActions (uuid : nat -> string) (now : Timestamp) (n : nat)
  (ags : list Agent.AgentHealth) : list SelfHealAction :=
  match ags with
  | [] => []
  | g :: ags' =>
      match Agent.status g with
      | Agent.error =>
          {| id := uuid n;
             trigger := ("agent-error:" ++ Agent.name g)%string;
             action := restart; target := Agent.name g; status := pending;
             createdAt := now; executedAt := None; result := None |}
          :: agentActions uuid now (S n) ags'
      | _ => agentActions uuid now n ags'
      end
  end.

Definition actionsToTake (uuid : nat -> string) (now : Timestamp)
  (h : Health.HealthStatus) : list SelfHealAction :=
  let (n, fromChecks) := checkActions uuid now 0 (Health.checks h) in
  fromChecks ++ agentActions uuid now n (Health.agents h).

Definition isCompleted (a : SelfHealAction) : bool :=
  match status a with
  | completed => true
  | _ => false
  end.

(** The third loop of [handleAutoHeal]; [world i] is what the [i]-th
    execution reads: its two clock readings and its collaborator. *)
Fixpoint executeAll (world : nat -> Timestamp * Timestamp * Outcome unit)
  (i : nat) (todo : list SelfHealAction) (s : HealerState)
  : list (SelfHealAction * bool) * HealerState :=
  match todo with
  | [] => ([], s)
  | a :: todo' =>
      let '(tExec, tFail, external) := world i in
      let (r, s1) := executeHealAction tExec tFail external a s in
      let (rs, s2) := executeAll world (S i) todo' s1 in
      ((r, isCompleted r) :: rs, s2)
  end.

(** [handleAutoHeal].  [now] is read while the actions are derived,
    [nowDone] after they ran. *)
Definition handleAutoHeal (env : Env.Env) (uuid : nat -> string)
  (now nowDone : Timestamp)
  (world : nat -> Timestamp * Timestamp * Outcome unit)
  (health : Health.HealthStatus) (s : HealerState)
  : Response * HealerState :=
  if negb (String.eqb (Env.SELF_HEAL_ENABLED env) "true") then (HealDisabled, s)
  else if circuitOpen s then (HealRefused, s)
  else
    let todo := actionsToTake uuid now health in
    let (results, s1) := executeAll world 0 todo s in
    (Healed (List.length todo) results,
     {| actions := actions s1; healCount := healCount s1 + 1;
        lastHealAttempt := Some nowDone;
        consecutiveFailures := consecutiveFailures s1;
        circuitOpen := circuitOpen s1;
        circuitOpenedAt := circuitOpenedAt s1 |}).

(** [handleResetCircuit] *)
Definition handleResetCircuit (s : HealerState) : Response * HealerState :=
  (CircuitReset, closeCircuit s).

(** One manual trigger request, with what its handling reads from outside. *)
Record TriggerCall : Type := {
  call_uuid : string;
  call_now : Timestamp;
  call_tExec : Timestamp;
  call_tFail : Timestamp;
  call_external : Outcome unit;
  call_body : TriggerBody
}.

Definition manualTrigger (c : TriggerCall) (s : HealerState)
  : Response * HealerState :=
  handleManualTrigger (call_uuid c) (call_now c) (call_tExec c) (call_tFail c)
    (call_external c) (call_body c) s.

(** Manual triggers handled one after the other. *)
Fixpoint runTriggers (cs : list TriggerCall) (s : HealerState) : HealerState :=
  match cs with
  | [] => s
  | c :: cs' => runTriggers cs' (snd (manualTrigger c s))
  end.


(** The requests the agent serves that touch the breaker. *)
Inductive Op : Type :=
| GetStatus
| ManualTrigger (c : TriggerCall)
| AutoHeal (uuid : nat -> string) (nowDone : Timestamp)
    (world : nat -> Timestamp * Timestamp * Outcome unit)
    (health : Health.HealthStatus)
| ResetCircuit.

Definition step (env : Env.Env) (now : Timestamp) (op : Op) (s : HealerState)
  : Response * HealerState :=
  match op with
  | GetStatus => handleStatus env now s
  | ManualTrigger c => manualTrigger c s
  | AutoHeal uuid nowDone world health =>
      handleAutoHeal env uuid now nowDone world health s
  | ResetCircuit => handleResetCircuit s
  end.

End SelfHealer.


(** ** [agents/coordinator.ts] *)
Module Coordinator.
Import Js.

Record CoordinatorState : Type := {
  agents : Map Agent.AgentHealth;
  lastHealthCheck : Timestamp;
  startedAt : Timestamp
}.

Definition agentNames : list string :=
  ["coordinator"; "repo-scraper"; "task-queue"; "self-healer"; "sync-manager"]%string.

(** [initializeAgents], from the empty registry of the constructor. *)
Definition initializeAgents (now : Timestamp) : Map Agent.AgentHealth :=
  fold_left
    (fun m name =>
       set m name
         {| Agent.name := name; Agent.status := Agent.idle;
            Agent.lastActivity := now; Agent.taskCount := 0;
            Agent.errorCount := 0 |})
    agentNames [].

Definition initial (now : Timestamp) : CoordinatorState :=
  {| agents := initializeAgents now; lastHealthCheck := now; startedAt := now |}.

(** What the three connectivity probes of [runHealthChecks] give, and the
    latency each measures. *)
Record Probes : Type := {
  kv : Outcome unit;
  kvLatency : Z;
  d1 : Outcome unit;
  d1Latency : Z;
  r2 : Outcome unit;
  r2Latency : Z
}.

Definition kvCheck (p : Probes) : Check.HealthCheck :=
  match kv p with
  | Returned _ =>
      {| Check.name := "kv-cache"; Check.status := Check.pass;
         Check.message := None; Check.latencyMs := Some (kvLatency p) |}
  | Threw e =>
      {| Check.name := "kv-cache"; Check.status := Check.fail;
         Check.message := Some (errorMessage "KV check failed" e);
         Check.latencyMs := None |}
  end.

Definition d1Check (p : Probes) : Check.HealthCheck :=
  match d1 p with
  | Returned _ =>
      {| Check.name := "d1-database"; Check.status := Check.pass;
         Check.message := None; Check.latencyMs := Some (d1Latency p) |}
  | Threw e =>
      {| Check.name := "d1-database"; Check.status := Check.fail;
         Check.message := Some (errorMessage "D1 check failed" e);
         Check.latencyMs := None |}
  end.

(** A missing object makes [head] fail although the bucket answers: both
    branches report [pass]. *)
Definition r2Check (p : Probes) : Check.HealthCheck :=
  match r2 p with
  | Returned _ =>
      {| Check.name := "r2-storage"; Check.status := Check.pass;
         Check.message := None; Check.latencyMs := Some (r2Latency p) |}
  | Threw _ =>
      {| Check.name := "r2-storage"; Check.status := Check.pass;
         Check.message := None; Check.latencyMs := Some (r2Latency p) |}
  end.

(** The body of the loop over the registry. *)
Definition agentCheck (now : Timestamp) (entry : string * Agent.AgentHealth)
  : Check.HealthCheck :=
  let (name, agent) := entry in
  let agentInactive := now - Agent.lastActivity agent >? 300000 in
  if Agent.status_eqb (Agent.status agent) Agent.error then
    {| Check.name := ("agent-" ++ name)%string; Check.status := Check.fail;
       Check.message := Some "Agent in error state"%string;
       Check.latencyMs := None |}
  else if agentInactive && negb (Agent.status_eqb (Agent.status agent) Agent.idle) then
    {| Check.name := ("agent-" ++ name)%string; Check.status := Check.warn;
       Check.message := Some "Agent inactive for >5 minutes"%string;
       Check.latencyMs := None |}
  else
    {| Check.name := ("agent-" ++ name)%string; Check.status := Check.pass;
       Check.message := None; Check.latencyMs := None |}.

(** [runHealthChecks] *)
Definition runHealthChecks (p : Probes) (now : Timestamp)
  (st : CoordinatorState) : list Check.HealthCheck :=
  [kvCheck p; d1Check p; r2Check p] ++ map (agentCheck now) (agents st).

Definition countStatus (s : Check.Status) (cs : list Check.HealthCheck) : nat :=
  List.length (filter (fun c => Check.status_eqb (Check.status c) s) cs).

Definition countErrorAgents (ags : list Agent.AgentHealth) : nat :=
  List.length
    (filter (fun a => Agent.status_eqb (Agent.status a) Agent.error) ags).

(** The aggregation of [handleHealthCheck]. *)
Definition overallOf (failedChecks warnChecks errorAgents : nat)
  : Health.Overall :=
  if (0 <? failedChecks)%nat || (1 <? errorAgents)%nat then Health.unhealthy
  else if (0 <? warnChecks)%nat || (errorAgents =? 1)%nat then Health.degraded
  else Health.healthy.

(** The responses of the handlers, and the request that ends without a
    response because the promise of its handler was rejected. *)
Inductive Response : Type :=
| HealthReport (health : Health.HealthStatus)
| NotFound
| NotTriggerable
| Triggered (agent : string) (response : TaskQueue.Payload)
| StatusUpdated (agent : Agent.AgentHealth)
| Rejected (e : Thrown).

(** The [health] object that [handleHealthCheck] builds.  [now] is read by
    the loop over the registry, [stamp] for the report. *)
Definition healthOf (p : Probes) (now stamp : Timestamp)
  (st : CoordinatorState) : Health.HealthStatus :=
  let checks := runHealthChecks p now st in
  let agentHealthList := values (agents st) in
  let failedChecks := countStatus Check.fail checks in
  let warnChecks := countStatus Check.warn checks in
  let errorAgents := countErrorAgents agentHealthList in
  {| Health.overall := overallOf failedChecks warnChecks errorAgents;
     Health.timestamp := stamp;
     Health.checks := checks;
     Health.agents := agentHealthList |}.

(** [handleHealthCheck].  [heal] is what the call of [triggerSelfHeal]
    gives when it is made; the boolean says whether it was made.  The call
    is awaited outside any [try]: when it throws, the promise of the
    handler is rejected. *)
Definition handleHealthCheck (env : Env.Env) (p : Probes)
  (now stamp : Timestamp) (heal : Outcome unit) (st : CoordinatorState)
  : Response * CoordinatorState * bool :=
  let health := healthOf p now stamp st in
  let st' :=
    {| agents := agents st; lastHealthCheck := Health.timestamp health;
       startedAt := startedAt st |} in
  match Health.overall health with
  | Health.unhealthy =>
      if String.eqb (Env.SELF_HEAL_ENABLED env) "true" then
        match heal with
        | Returned _ => (HealthReport health, st', true)
        | Threw e => (Rejected e, st', true)
        end
      else (HealthReport health, st', false)
  | _ => (HealthReport health, st', false)
  end.

(** The [switch] of [handleTriggerAgent]. *)
Definition triggerable (name : string) : bool :=
  String.eqb name "repo-scraper" || String.eqb name "task-queue"
  || String.eqb name "self-healer" || String.eqb name "sync-manager".

(** What forwarding a trigger gives: [fetch] threw, or it returned and
    [response.json()] threw, or both returned. *)
Inductive Forward : Type :=
| FetchThrew (e : Thrown)
| JsonThrew (e : Thrown)
| Forwarded (response : TaskQueue.Payload).

Definition triggered (now : Timestamp) (a : Agent.AgentHealth)
  : Agent.AgentHealth :=
  {| Agent.name := Agent.name a; Agent.status := Agent.active;
     Agent.lastActivity := now; Agent.taskCount := Agent.taskCount a + 1;
     Agent.errorCount := Agent.errorCount a |}.

(** [handleTriggerAgent]; the record is updated between the two awaits,
    neither of which is inside a [try]. *)
Definition handleTriggerAgent (now : Timestamp) (name : string)
  (fwd : Forward) (st : CoordinatorState) : Response * CoordinatorState :=
  match get (agents st) name with
  | None => (NotFound, st)
  | Some agent =>
      if triggerable name then
        let st' :=
          {| agents := set (agents st) name (triggered now agent);
             lastHealthCheck := lastHealthCheck st;
             startedAt := startedAt st |} in
        match fwd with
        | FetchThrew e => (Rejected e, st)
        | JsonThrew e => (Rejected e, st')
        | Forwarded r => (Triggered name r, st')
        end
      else (NotTriggerable, st)
  end.

Definition reported (now : Timestamp) (s : Agent.Status)
  (a : Agent.AgentHealth) : Agent.AgentHealth :=
  {| Agent.name := Agent.name a; Agent.status := s;
     Agent.lastActivity := now; Agent.taskCount := Agent.taskCount a;
     Agent.errorCount :=
       if Agent.status_eqb s Agent.error
       then Agent.errorCount a + 1 else Agent.errorCount a |}.

(** [handleStatusUpdate], on the fields [agent] and [status] of the body. *)
Definition handleStatusUpdate (now : Timestamp) (agent : string)
  (status : Agent.Status) (st : CoordinatorState)
  : Response * CoordinatorState :=
  match get (agents st) agent with
  | None => (NotFound, st)
  | Some a =>
      let a' := reported now status a in
      (StatusUpdated a',
       {| agents := set (agents st) agent a';
          lastHealthCheck := lastHealthCheck st;
          startedAt := startedAt st |})
  end.

End Coordinator.


(** ** Concrete inputs used by the examples *)
Module Samples.
Import Js.
Local Open Scope string_scope.

Definition someEnv : Env.Env :=
  {| Env.SELF_HEAL_ENABLED := "true"; Env.MAX_RETRY_ATTEMPTS := Some 3;
     Env.RETRY_BACKOFF_MS := 1000 |}.


(** A registry in which [repo-scraper] has reported an error once. *)
Definition erringRegistry : Coordinator.CoordinatorState :=
  snd (Coordinator.handleStatusUpdate 10 "repo-scraper" Agent.error
         (Coordinator.initial 0)).

(** A manual restart whose collaborator is unreachable. *)
Definition failingCall (uuid : string) (now : Z) : SelfHealer.TriggerCall :=
  {| SelfHealer.call_uuid := uuid;
     SelfHealer.call_now := now;
     SelfHealer.call_tExec := now;
     SelfHealer.call_tFail := now + 7;
     SelfHealer.call_external := Threw (ErrorObject "queue unreachable");
     SelfHealer.call_body :=
       {| SelfHealer.body_action := SelfHealer.restart;
          SelfHealer.body_target := "repo-scraper";
          SelfHealer.body_reason := None |} |}.

Definition fourFailures : list SelfHealer.TriggerCall :=
  [failingCall "a1" 100; failingCall "a2" 200; failingCall "a3" 300;
   failingCall "a4" 400].

(** The healer after five failing manual triggers: open since 507. *)
Definition trippedHealer : SelfHealer.HealerState :=
  SelfHealer.runTriggers (fourFailures ++ [failingCall "a5" 500])
    SelfHealer.initial.

(** A snapshot whose only failing check is one no rule matches. *)
Definition quietSnapshot : Health.HealthStatus :=
  {| Health.overall := Health.unhealthy;
     Health.timestamp := 900;
     Health.checks :=
       [ {| Check.name := "kv-cache"; Check.status := Check.pass;
            Check.message := None; Check.latencyMs := Some 3 |};
         {| Check.name := "r2-storage"; Check.status := Check.fail;
            Check.message := Some "bucket unreachable"; Check.latencyMs := None |};
         {| Check.name := "agent-task-queue"; Check.status := Check.warn;
            Check.message := Some "Agent inactive for >5 minutes";
            Check.latencyMs := None |} ];
     Health.agents :=
       [ {| Agent.name := "task-queue"; Agent.status := Agent.active;
            Agent.lastActivity := 0; Agent.taskCount := 2;
            Agent.errorCount := 0 |} ] |}.

Definition sampleUuid (n : nat) : string :=
  match n with
  | O => "u0"
  | S O => "u1"
  | _ => "u2"
  end.

Definition quietWorld (n : nat) : Z * Z * Outcome unit := (0, 0, Returned tt).


(** A request for a task of the given kind and priority. *)
Definition request (k : TaskQueue.AgentTaskType) (p : Z) : TaskQueue.Partial.t :=
  {| TaskQueue.Partial.id := None;
     TaskQueue.Partial.type := Some k;
     TaskQueue.Partial.status := None;
     TaskQueue.Partial.priority := Some p;
     TaskQueue.Partial.payload := None;
     TaskQueue.Partial.retryCount := None;
     TaskQueue.Partial.maxRetries := None;
     TaskQueue.Partial.createdAt := None;
     TaskQueue.Partial.updatedAt := None;
     TaskQueue.Partial.completedAt := None;
     TaskQueue.Partial.error := None;
     TaskQueue.Partial.result := None |}.

(** A status report for a task. *)
Definition report (s : TaskQueue.TaskStatus) : TaskQueue.Partial.t :=
  {| TaskQueue.Partial.id := None;
     TaskQueue.Partial.type := None;
     TaskQueue.Partial.status := Some s;
     TaskQueue.Partial.priority := None;
     TaskQueue.Partial.payload := None;
     TaskQueue.Partial.retryCount := None;
     TaskQueue.Partial.maxRetries := None;
     TaskQueue.Partial.createdAt := None;
     TaskQueue.Partial.updatedAt := None;
     TaskQueue.Partial.completedAt := None;
     TaskQueue.Partial.error := None;
     TaskQueue.Partial.result := None |}.

(** An update that writes [retryCount]. *)
Definition rewriteRetryCount (n : Z) : TaskQueue.Partial.t :=
  {| TaskQueue.Partial.id := None;
     TaskQueue.Partial.type := None;
     TaskQueue.Partial.status := None;
     TaskQueue.Partial.priority := None;
     TaskQueue.Partial.payload := None;
     TaskQueue.Partial.retryCount := Some n;
     TaskQueue.Partial.maxRetries := None;
     TaskQueue.Partial.createdAt := None;
     TaskQueue.Partial.updatedAt := None;
     TaskQueue.Partial.completedAt := None;
     TaskQueue.Partial.error := None;
     TaskQueue.Partial.result := None |}.

(** A request for a health check with the retry limit 2.5. *)
Definition fractionalLimit : TaskQueue.Partial.t :=
  {| TaskQueue.Partial.id := None;
     TaskQueue.Partial.type := Some TaskQueue.health_check;
     TaskQueue.Partial.status := None;
     TaskQueue.Partial.priority := Some 5;
     TaskQueue.Partial.payload := None;
     TaskQueue.Partial.retryCount := None;
     TaskQueue.Partial.maxRetries := Some (5 # 2)%Q;
     TaskQueue.Partial.createdAt := None;
     TaskQueue.Partial.updatedAt := None;
     TaskQueue.Partial.completedAt := None;
     TaskQueue.Partial.error := None;
     TaskQueue.Partial.result := None |}.

(** A queue holding B (priority 5), enqueued first, and A (priority 1). *)
Definition queueBA : TaskQueue.TaskQueueAgent :=
  TaskQueue.run someEnv
    [ (10, TaskQueue.Enqueue "B" (Returned tt) (request TaskQueue.sync_check 5));
      (20, TaskQueue.Enqueue "A" (Returned tt) (request TaskQueue.health_check 1)) ]
    TaskQueue.initial.

(** A queue holding one pending health check, retry limit 3. *)
Definition queueOne : TaskQueue.TaskQueueAgent :=
  snd (TaskQueue.handleEnqueue someEnv "t1" 10 (Returned tt)
         (request TaskQueue.health_check 5) TaskQueue.initial).

(** The same queue after the task was reported running. *)
Definition queueOneRunning : TaskQueue.TaskQueueAgent :=
  snd (TaskQueue.handleUpdateTask someEnv 50 "t1" (report TaskQueue.running)
         queueOne).

Definition unreachable : Outcome TaskQueue.Payload :=
  Threw (ErrorObject "coordinator unreachable").

(** The queue of one task after its handler failed once. *)
Definition queueOneRetrying : TaskQueue.TaskQueueAgent :=
  snd (TaskQueue.handleProcessNext 50 60 unreachable queueOne).

(** A task with retry limit 3 that fails until its retries are used up. *)
Definition retryScenario : list (Z * TaskQueue.Op) :=
  [ (10, TaskQueue.Enqueue "t1" (Returned tt) (request TaskQueue.health_check 5));
    (50, TaskQueue.ProcessNext 60 unreachable);
    (70, TaskQueue.ProcessNext 80 unreachable);
    (90, TaskQueue.UpdateTask "t1" (report TaskQueue.failed));
    (100, TaskQueue.RetryFailed (fun i => 101 + Z.of_nat i));
    (110, TaskQueue.ProcessNext 120 unreachable);
    (130, TaskQueue.ProcessNext 140 unreachable);
    (150, TaskQueue.RetryFailed (fun i => 151 + Z.of_nat i)) ].

(** A task with retry limit 2.5 whose handler fails three times. *)
Definition fractionalScenario : list (Z * TaskQueue.Op) :=
  [ (10, TaskQueue.Enqueue "t1" (Returned tt) fractionalLimit);
    (50, TaskQueue.ProcessNext 60 unreachable);
    (70, TaskQueue.ProcessNext 80 unreachable);
    (90, TaskQueue.ProcessNext 95 unreachable) ].

End Samples.


(** ** Ordinary objects used as dictionaries

    [persistState] writes a [Map] as an object ([Object.fromEntries]) and
    the constructor reads it back ([new Map(Object.entries(...))]).  The
    own keys of an object come out with the array indices first, in
    ascending order, then the other keys in the order they were added. *)
Module JsObject.
Import Js.

Definition digit (c : Ascii.ascii) : option Z :=
  let n := Z.of_nat (Ascii.nat_of_ascii c) in
  if (48 <=? n) && (n <=? 57) then Some (n - 48) else None.

Fixpoint digits (s : string) (acc : Z) : option Z :=
  match s with
  | EmptyString => Some acc
  | String c s' =>
      match digit c with
      | Some d => digits s' (acc * 10 + d)
      | None => None
      end
  end.

(** The array index a key is, if it is one: a canonical decimal numeral
    below [2^32 - 1]. *)
Definition arrayIndex (k : string) : option Z :=
  match k with
  | EmptyString => None
  | String c rest =>
      if Ascii.eqb c (Ascii.ascii_of_nat 48) && negb (String.eqb rest EmptyString) then None
      else match digits k 0 with
           | Some n => if n <=? 4294967294 then Some n else None
           | None => None
           end
  end.

Definition isArrayIndex (k : string) : bool :=
  match arrayIndex k with
  | Some _ => true
  | None => false
  end.

Definition indexOf (k : string) : Z :=
  match arrayIndex k with
  | Some n => n
  | None => 0
  end.

(** An object, as its properties in the order they were created. *)
Definition Obj (V : Type) : Type := list (string * V).

(** [Object.fromEntries(m)] *)
Definition fromEntries {V : Type} (m : Map V) : Obj V :=
  fold_left (fun o e => set o (fst e) (snd e)) m [].

(** [Object.entries(o)] *)
Definition entries {V : Type} (o : Obj V) : list (string * V) :=
  sort (fun a b => indexOf (fst a) - indexOf (fst b))
       (filter (fun e => isArrayIndex (fst e)) o)
  ++ filter (fun e => negb (isArrayIndex (fst e))) o.

(** [new Map(es)] *)
Definition newMap {V : Type} (es : list (string * V)) : Map V :=
  fold_left (fun m e => set m (fst e) (snd e)) es [].

(** [new Set(xs)] *)
Definition newSet (xs : list string) : StringSet :=
  fold_left add xs [].

End JsObject.

(** ** [agents/task-queue.ts]: reads, routing and persistence *)
Module TaskQueueFetch.
Import Js TaskQueue.
Local Open Scope string_scope.

Module Counts.
Record t : Type := {
  pending : nat;
  running : nat;
  failed : nat;
  total : nat
}.
End Counts.

Record StatusReport : Type := {
  queue : Counts.t;
  reportedStats : Stats;
  processingIds : list string
}.

(** [handleStatus] *)
Definition handleStatus (a : TaskQueueAgent) : StatusReport :=
  let q := queueState a in
  {| queue :=
       {| Counts.pending :=
            List.length
              (filter (fun t => status_eqb (status t) pending) (values (tasks q)));
          Counts.running := List.length (processing q);
          Counts.failed :=
            List.length
              (filter (fun t => status_eqb (status t) failed) (values (tasks q)));
          Counts.total := size (tasks q) |};
     reportedStats := stats q;
     processingIds := processing q |}.

(** What [fetch] answers: the answers of the handlers above, the two reads,
    and the 404 of a request that matches no route. *)
Inductive Reply : Type :=
| Answer (r : Response)
| QueueStatus (s : StatusReport)
| Task (t : AgentTask)
| RouteNotFound.

(** [handleGetTask] *)
Definition handleGetTask (taskId : string) (a : TaskQueueAgent) : Reply :=
  match get (tasks (queueState a)) taskId with
  | None => Answer TaskNotFound
  | Some task => Task task
  end.

(** [path.match(/^\/task\/([^/]+)$/)]: the captured identifier. *)
Definition taskMatch (path : string) : option string :=
  if String.prefix "/task/" path then
    let rest := String.substring 6 (String.length path) path in
    if String.eqb rest "" || includes rest "/" then None else Some rest
  else None.

(** A request: method, path, and what [request.json()] gives when the
    route reads the body. *)
Record Request : Type := {
  method : string;
  path : string;
  json : Outcome Partial.t
}.

(** What the handlers read from outside while a request is served. *)
Record Outside : Type := {
  uuid : string;
  nowDone : Timestamp;
  send : Outcome unit;
  external : Outcome Payload;
  clock : nat -> Timestamp
}.

(** [fetch], with the [catch] that turns what [request.json()] throws into
    a 500. *)
Definition fetch (env : Env.Env) (now : Timestamp) (o : Outside)
  (req : Request) (a : TaskQueueAgent) : Reply * TaskQueueAgent :=
  let answered (r : Response * TaskQueueAgent) := (Answer (fst r), snd r) in
  let others :=
    if String.eqb (path req) "/process" && String.eqb (method req) "POST" then
      answered (handleProcessNext now (nowDone o) (external o) a)
    else if String.eqb (path req) "/trigger" && String.eqb (method req) "POST" then
      answered (handleProcessNext now (nowDone o) (external o) a)
    else if String.eqb (path req) "/retry-failed"
            && String.eqb (method req) "POST" then
      answered (handleRetryFailed (clock o) a)
    else (RouteNotFound, a) in
  if String.eqb (path req) "/enqueue" && String.eqb (method req) "POST" then
    match json req with
    | Returned body => answered (handleEnqueue env (uuid o) now (send o) body a)
    | Threw e => (Answer (InternalError (errorMessage "Unknown error" e)), a)
    end
  else if String.eqb (path req) "/status" && String.eqb (method req) "GET" then
    (QueueStatus (handleStatus a), a)
  else
    match taskMatch (path req) with
    | Some taskId =>
        if String.eqb (method req) "GET" then (handleGetTask taskId a, a)
        else if String.eqb (method req) "PATCH" then
          match json req with
          | Returned body => answered (handleUpdateTask env now taskId body a)
          | Threw e =>
              (Answer (InternalError (errorMessage "Unknown error" e)), a)
          end
        else others
    | None => others
    end.

(** [alarm()]: the retry wake-up runs [handleProcessNext]. *)
Definition handleAlarm (now : Timestamp) (o : Outside) (a : TaskQueueAgent)
  : TaskQueueAgent :=
  snd (handleProcessNext now (nowDone o) (external o) a).

(** What [persistState] puts under [queueState]. *)
Record Stored : Type := {
  storedTasks : JsObject.Obj AgentTask;
  storedProcessing : list string;
  storedStats : Stats
}.

(** [persistState] *)
Definition persistState (q : QueueState) : Stored :=
  {| storedTasks := JsObject.fromEntries (tasks q);
     storedProcessing := processing q;
     storedStats := stats q |}.

(** The state the constructor builds from what the storage holds. *)
Definition restore (stored : option Stored) : QueueState :=
  match stored with
  | Some s =>
      {| tasks := JsObject.newMap (JsObject.entries (storedTasks s));
         processing := JsObject.newSet (storedProcessing s);
         stats := storedStats s |}
  | None => queueState initial
  end.

(** A run in which [crypto.randomUUID()] never gives an identifier that a
    task has. *)
Fixpoint freshIds (env : Env.Env) (ops : list (Timestamp * Op))
  (a : TaskQueueAgent) : Prop :=
  match ops with
  | [] => True
  | (now, op) :: ops' =>
      match op with
      | Enqueue uuid _ _ => get (tasks (queueState a)) uuid = None
      | _ => True
      end
      /\ freshIds env ops' (snd (step env now op a))
  end.

(** The handler of a task of this kind calls another agent. *)
Definition callsOut (k : AgentTaskType) : bool :=
  match k with
  | repo_scrape | sync_check | health_check | self_heal => true
  | _ => false
  end.

(** A [handleProcessNext] whose handler throws. *)
Definition failingProcess (x : Timestamp * Op) : bool :=
  match snd x with
  | ProcessNext _ (Threw _) => true
  | _ => false
  end.

End TaskQueueFetch.

(** ** [agents/coordinator.ts]: reads and runs *)
Module CoordinatorRuns.
Import Js Coordinator.

(** The answer of [handleListAgents]. *)
Record AgentList : Type := {
  listed : list Agent.AgentHealth;
  count : nat;
  coordinatorStarted : Timestamp;
  lastHealthCheckAt : Timestamp
}.

(** [handleListAgents] *)
Definition handleListAgents (st : CoordinatorState) : AgentList :=
  let agents := values (agents st) in
  {| listed := agents;
     count := List.length agents;
     coordinatorStarted := startedAt st;
     lastHealthCheckAt := lastHealthCheck st |}.

(** [handleGetAgent]: the record, or [None] for the 404. *)
Definition handleGetAgent (name : string) (st : CoordinatorState)
  : option Agent.AgentHealth :=
  get (agents st) name.

(** The requests the coordinator serves, with what each reads from
    outside. *)
Inductive Op : Type :=
| HealthCheck (p : Probes) (stamp : Timestamp) (heal : Outcome unit)
| TriggerAgent (name : string) (fwd : Forward)
| StatusUpdate (agent : string) (status : Agent.Status)
| ListAgents
| GetAgent (name : string).

Definition step (env : Env.Env) (now : Timestamp) (op : Op)
  (st : CoordinatorState) : CoordinatorState :=
  match op with
  | HealthCheck p stamp heal =>
      snd (fst (handleHealthCheck env p now stamp heal st))
  | TriggerAgent name fwd => snd (handleTriggerAgent now name fwd st)
  | StatusUpdate agent status => snd (handleStatusUpdate now agent status st)
  | ListAgents => st
  | GetAgent _ => st
  end.

Fixpoint run (env : Env.Env) (ops : list (Timestamp * Op))
  (st : CoordinatorState) : CoordinatorState :=
  match ops with
  | [] => st
  | (now, op) :: ops' => run env ops' (step env now op st)
  end.

(** The trigger reaches the record of [name]: the agent can be triggered
    and the forwarding call returned. *)
Definition reaches (name : string) (op : Op) : bool :=
  match op with
  | TriggerAgent n (JsonThrew _) | TriggerAgent n (Forwarded _) =>
      String.eqb n name && triggerable n
  | _ => false
  end.

(** The request reports an error of [name]. *)
Definition reportsError (name : string) (op : Op) : bool :=
  match op with
  | StatusUpdate n Agent.error => String.eqb n name
  | _ => false
  end.

(** The request is a status report of [name]. *)
Definition reportsOn (name : string) (op : Op) : bool :=
  match op with
  | StatusUpdate n _ => String.eqb n name
  | _ => false
  end.

Definition countOps (f : Op -> bool) (ops : list (Timestamp * Op)) : Z :=
  Z.of_nat (List.length (filter (fun x => f (snd x)) ops)).

(** The time of the last request of the run that touches the record of
    [name], or [t0] when there is none. *)
Fixpoint lastTouched (name : string) (ops : list (Timestamp * Op))
  (t0 : Timestamp) : Timestamp :=
  match ops with
  | [] => t0
  | (now, op) :: ops' =>
      lastTouched name ops'
        (if reaches name op || reportsOn name op then now else t0)
  end.

End CoordinatorRuns.

(** ** [agents/self-healer.ts]: reads, the periodic check and runs *)
Module SelfHealerRuns.
Import Js SelfHealer.

(** [handleGetActions] *)
Definition handleGetActions (s : HealerState) : list SelfHealAction :=
  sort newestFirst (values (actions s)).

(** [handleGetAction]: the action, or [None] for the 404. *)
Definition handleGetAction (id : string) (s : HealerState)
  : option SelfHealAction :=
  get (actions s) id.

(** [alarm()].  [health] is what fetching and decoding the coordinator's
    health report gives; [tAlarm] is the clock when the next check is
    scheduled.  The result holds the time of the next alarm, or [None] when
    the fetch threw and the handler ended before scheduling one. *)
Definition handleAlarm (env : Env.Env) (uuid : nat -> string)
  (now nowDone : Timestamp)
  (world : nat -> Timestamp * Timestamp * Outcome unit)
  (health : Outcome Health.HealthStatus) (tAlarm : Timestamp)
  (s : HealerState) : HealerState * option Timestamp :=
  if String.eqb (Env.SELF_HEAL_ENABLED env) "true" && negb (circuitOpen s) then
    match health with
    | Returned h =>
        match Health.overall h with
        | Health.unhealthy =>
            (snd (handleAutoHeal env uuid now nowDone world h s),
             Some (tAlarm + 300000))
        | _ => (s, Some (tAlarm + 300000))
        end
    | Threw _ => (s, None)
    end
  else (s, Some (tAlarm + 300000)).

(** What happens to a healer: a request, or its alarm going off. *)
Inductive Event : Type :=
| Request (now : Timestamp) (op : Op)
| AlarmFired (uuid : nat -> string) (now nowDone : Timestamp)
    (world : nat -> Timestamp * Timestamp * Outcome unit)
    (health : Outcome Health.HealthStatus) (tAlarm : Timestamp).

Definition handle (env : Env.Env) (ev : Event) (s : HealerState)
  : HealerState :=
  match ev with
  | Request now op => snd (step env now op s)
  | AlarmFired uuid now nowDone world health tAlarm =>
      fst (handleAlarm env uuid now nowDone world health tAlarm s)
  end.

Fixpoint runEvents (env : Env.Env) (evs : list Event) (s : HealerState)
  : HealerState :=
  match evs with
  | [] => s
  | ev :: evs' => runEvents env evs' (handle env ev s)
  end.

(** The event is neither a status request nor a reset request. *)
Definition neitherStatusNorReset (ev : Event) : bool :=
  match ev with
  | Request _ GetStatus | Request _ ResetCircuit => false
  | _ => true
  end.

(** What an action does, and to what. *)
Definition plan (a : SelfHealAction) : ActionKind * string :=
  (action a, target a).

End SelfHealerRuns.

(** ** The repo scraper agent: what it reads off a repository tree *)
Module RepoScraper.
Import Js.
Local Open Scope string_scope.

(** [s.endsWith(suffix)] *)
Definition endsWith (s suffix : string) : bool :=
  let n := String.length s in
  let m := String.length suffix in
  if (m <=? n)%nat then String.eqb (String.substring (n - m) m s) suffix
  else false.

(** An item of the tree the GitHub API lists. *)
Record TreeItem : Type := {
  path : string;
  type : string
}.

Record RepoStructure : Type := {
  files : list string;
  directories : list string;
  configFiles : list string;
  entryPoints : list string
}.

Definition configPatterns : list string :=
  [ "package.json"; "tsconfig.json"; "wrangler.toml"; ".env.example";
    "Cargo.toml"; "pyproject.toml"; "go.mod"; "Dockerfile" ].

Definition entryPatterns : list string :=
  [ "src/index.ts"; "src/index.js"; "src/main.ts"; "src/main.js";
    "index.ts"; "index.js"; "main.ts"; "main.js"; "src/lib.rs" ].

(** [configPatterns.some(p => item.path.endsWith(p))] *)
Definition isConfig (p : string) : bool :=
  existsb (fun pat => endsWith p pat) configPatterns.

(** [entryPatterns.some(p => item.path === p || item.path.endsWith('/' + p))] *)
Definition isEntry (p : string) : bool :=
  existsb (fun pat => String.eqb p pat || endsWith p ("/" ++ pat)) entryPatterns.

(** The body of the loop of [analyzeTree]. *)
Definition visit (acc : RepoStructure) (item : TreeItem) : RepoStructure :=
  if String.eqb (type item) "blob" then
    {| files := files acc ++ [path item];
       directories := directories acc;
       configFiles :=
         if isConfig (path item) then configFiles acc ++ [path item]
         else configFiles acc;
       entryPoints :=
         if isEntry (path item) then entryPoints acc ++ [path item]
         else entryPoints acc |}
  else if String.eqb (type item) "tree" then
    {| files := files acc;
       directories := directories acc ++ [path item];
       configFiles := configFiles acc;
       entryPoints := entryPoints acc |}
  else acc.

(** [analyzeTree] *)
Definition analyzeTree (tree : list TreeItem) : RepoStructure :=
  fold_left visit tree
    {| files := []; directories := []; configFiles := []; entryPoints := [] |}.

(** [analyzeDependencies] *)
Definition analyzeDependencies (structure : RepoStructure) : list string :=
  (if existsb (fun f => endsWith f "package.json") (configFiles structure)
   then ["npm"] else [])
  ++ (if existsb (fun f => endsWith f "wrangler.toml") (configFiles structure)
      then ["cloudflare-workers"] else [])
  ++ (if existsb (fun f => endsWith f "Cargo.toml") (configFiles structure)
      then ["rust"] else [])
  ++ (if existsb (fun d => includes d "agents") (directories structure)
      then ["@blackroad-os/agents"] else [])
  ++ (if existsb (fun d => includes d "prism") (directories structure)
      then ["@blackroad-os/prism"] else []).

End RepoScraper.

(** ** [agents/sync-manager.ts] *)
Module SyncManager.
Import Js.
Local Open Scope string_scope.

Inductive EventType : Type := push | pr | release | workflow.

(** [mapEventType] *)
Definition mapEventType (event : string) : EventType :=
  if String.eqb event "push" then push
  else if String.eqb event "pull_request" then pr
  else if String.eqb event "release" then release
  else if String.eqb event "workflow_run" then workflow
  else if String.eqb event "workflow_dispatch" then workflow
  else push.

(** The kind of a history entry: the type of the event it records, or
    [manual]. *)
Inductive HistoryType : Type :=
| ofEvent (t : EventType)
| manual.

Record SyncHistoryEntry : Type := {
  id : string;
  repo : string;
  type : HistoryType;
  success : bool;
  timestamp : Timestamp;
  details : option string
}.

Record SyncEvent : Type := {
  eventId : string;
  eventRepo : string;
  eventType : EventType;
  ref : option string;
  commit : option string;
  processedAt : option Timestamp
}.

Record SyncState : Type := {
  events : Map SyncEvent;
  syncHistory : list SyncHistoryEntry;
  lastFullSync : option Timestamp;
  watchedBranches : Map string
}.

Definition initial : SyncState :=
  {| events := []; syncHistory := []; lastFullSync := None;
     watchedBranches := [] |}.

(** [(a, b) => new Date(b.timestamp).getTime() - new Date(a.timestamp).getTime()] *)
Definition newestFirst (a b : SyncHistoryEntry) : Z := timestamp b - timestamp a.

(** [handleHistory]: [sort] orders the stored array itself; the answer is a
    copy of its first fifty entries. *)
Definition handleHistory (st : SyncState) : list SyncHistoryEntry * SyncState :=
  let sorted := sort newestFirst (syncHistory st) in
  (slice0 50 sorted,
   {| events := events st; syncHistory := sorted;
      lastFullSync := lastFullSync st;
      watchedBranches := watchedBranches st |}).

(** What asking the repo scraper gives [syncRepoInternal]: the call or the
    decoding threw; or the answer reports no success or carries no
    repository; or it carries one, with its last commit, and [cohesion] is
    what [analyzeCohesionImpact] gives if it is called. *)
Inductive Scrape : Type :=
| ScrapeThrew (e : Thrown)
| ScrapeFailed
| Scraped (lastCommit : string) (cohesion : Outcome unit).

Record SyncResult : Type := {
  updated : bool;
  newCommit : option string
}.

(** [previousCommit !== newCommit] *)
Definition differs (previous : option string) (c : string) : bool :=
  match previous with
  | Some p => negb (String.eqb p c)
  | None => true
  end.

(** [syncRepoInternal] *)
Definition syncRepoInternal (repo : string) (s : Scrape) (st : SyncState)
  : Outcome SyncResult * SyncState :=
  match s with
  | ScrapeThrew e => (Threw e, st)
  | ScrapeFailed => (Threw (ErrorObject "Scrape failed"), st)
  | Scraped c cohesion =>
      if differs (get (watchedBranches st) repo) c then
        let st' :=
          {| events := events st; syncHistory := syncHistory st;
             lastFullSync := lastFullSync st;
             watchedBranches := set (watchedBranches st) repo c |} in
        match cohesion with
        | Returned _ => (Returned {| updated := true; newCommit := Some c |}, st')
        | Threw e => (Threw e, st')
        end
      else (Returned {| updated := false; newCommit := None |}, st)
  end.

Definition pushHistory (e : SyncHistoryEntry) (st : SyncState) : SyncState :=
  {| events := events st; syncHistory := syncHistory st ++ [e];
     lastFullSync := lastFullSync st;
     watchedBranches := watchedBranches st |}.

(** The entry an attempt on [repo] leaves in the history. *)
Definition entryOf {A : Type} (uuid : string) (repo : string)
  (t : HistoryType) (now : Timestamp) (r : Outcome A) : SyncHistoryEntry :=
  match r with
  | Returned _ =>
      {| id := uuid; repo := repo; type := t; success := true;
         timestamp := now; details := None |}
  | Threw e =>
      {| id := uuid; repo := repo; type := t; success := false;
         timestamp := now; details := Some (errorMessage "Unknown error" e) |}
  end.

(** What one round of the loop of [handleFullSync] reads from outside. *)
Record Round : Type := {
  uuid : string;
  now : Timestamp;
  scrape : Scrape
}.

(** The loop of [handleFullSync]; [world i] is what round [i] reads, and
    [results] is the object the answers are collected in
    ([results[repo] = ...]), a thrown error standing for the answer that
    carries its message. *)
Fixpoint syncAll (world : nat -> Round) (i : nat) (repos : list string)
  (results : JsObject.Obj (Outcome SyncResult)) (st : SyncState)
  : JsObject.Obj (Outcome SyncResult) * SyncState :=
  match repos with
  | [] => (results, st)
  | repo :: repos' =>
      let (r, st1) := syncRepoInternal repo (scrape (world i)) st in
      let st2 :=
        pushHistory (entryOf (uuid (world i)) repo manual (now (world i)) r) st1 in
      syncAll world (S i) repos' (set results repo r) st2
  end.

(** [syncHistory.slice(-100)] when the history is longer than 100. *)
Definition trim (h : list SyncHistoryEntry) : list SyncHistoryEntry :=
  if (100 <? List.length h)%nat then skipn (List.length h - 100) h else h.

(** [handleFullSync].  [trackedRepos] is
    [TRACKED_REPOS.split(',').map(r => r.trim())]; [nowDone] is read after
    the loop. *)
Definition handleFullSync (trackedRepos : list string) (world : nat -> Round)
  (nowDone : Timestamp) (st : SyncState)
  : JsObject.Obj (Outcome SyncResult) * SyncState :=
  let (results, st1) := syncAll world 0 trackedRepos [] st in
  (results,
   {| events := events st1;
      syncHistory := trim (syncHistory st1);
      lastFullSync := Some nowDone;
      watchedBranches := watchedBranches st1 |}).

(** What processing one event reads from outside: the clock when it is
    marked and when it is logged, the scrape, and what the second cohesion
    analysis and the release notification give if they are called. *)
Record EventRound : Type := {
  logId : string;
  markedAt : Timestamp;
  loggedAt : Timestamp;
  eventScrape : Scrape;
  cohesionAgain : Outcome unit;
  releaseNote : Outcome unit
}.

(** [event.ref?.includes('main')] *)
Definition onMain (event : SyncEvent) : bool :=
  match ref event with
  | Some r => includes r "main"
  | None => false
  end.

Definition isPush (t : EventType) : bool :=
  match t with
  | push => true
  | _ => false
  end.

Definition isRelease (t : EventType) : bool :=
  match t with
  | release => true
  | _ => false
  end.

Definition marked (t : Timestamp) (event : SyncEvent) : SyncEvent :=
  {| eventId := eventId event; eventRepo := eventRepo event;
     eventType := eventType event; ref := ref event; commit := commit event;
     processedAt := Some t |}.

(** [processEvent], on the event object stored under [key]. *)
Definition processEvent (w : EventRound) (key : string) (event : SyncEvent)
  (st : SyncState) : SyncState :=
  let st0 :=
    {| events := set (events st) key (marked (markedAt w) event);
       syncHistory := syncHistory st;
       lastFullSync := lastFullSync st;
       watchedBranches := watchedBranches st |} in
  let (r, st1) := syncRepoInternal (eventRepo event) (eventScrape w) st0 in
  let tried : Outcome unit :=
    match r with
    | Threw e => Threw e
    | Returned _ =>
        match (if isPush (eventType event) && onMain event
               then cohesionAgain w else Returned tt) with
        | Threw e => Threw e
        | Returned _ =>
            if isRelease (eventType event) then releaseNote w else Returned tt
        end
    end in
  pushHistory
    (entryOf (logId w) (eventRepo event) (ofEvent (eventType event))
       (loggedAt w) tried)
    st1.

(** [!e.processedAt] *)
Definition unprocessed (e : SyncEvent) : bool :=
  match processedAt e with
  | Some _ => false
  | None => true
  end.

(** The loop of [handleProcessEvents] over the events picked before it
    starts. *)
Fixpoint processAll (world : nat -> EventRound) (i : nat)
  (todo : list (string * SyncEvent)) (st : SyncState) : SyncState :=
  match todo with
  | [] => st
  | (key, event) :: todo' =>
      processAll world (S i) todo' (processEvent (world i) key event st)
  end.

(** [handleProcessEvents]: the number processed, and the state after. *)
Definition handleProcessEvents (world : nat -> EventRound) (st : SyncState)
  : nat * SyncState :=
  let unprocessedEvents := filter (fun e => unprocessed (snd e)) (events st) in
  (List.length unprocessedEvents, processAll world 0 unprocessedEvents st).

(** What [handleWebhook] reads of the body of a webhook. *)
Record WebhookBody : Type := {
  repositoryName : option string;
  pushRef : option string;
  after : option string;
  headCommitId : option string;
  baseRef : option string;
  headSha : option string
}.

(** [(body.after as string) || (body.head_commit as { id?: string })?.id] *)
Definition pushedCommit (body : WebhookBody) : option string :=
  match after body with
  | Some EmptyString => headCommitId body
  | Some c => Some c
  | None => headCommitId body
  end.

(** The event [handleWebhook] builds. *)
Definition webhookEvent (uuid : string) (event : string) (body : WebhookBody)
  : SyncEvent :=
  {| eventId := uuid;
     eventRepo := orString (repositoryName body) "unknown";
     eventType := mapEventType event;
     ref := if String.eqb event "push" then pushRef body
            else if String.eqb event "pull_request" then baseRef body
            else None;
     commit := if String.eqb event "push" then pushedCommit body
               else if String.eqb event "pull_request" then headSha body
               else None;
     processedAt := None |}.

Record WebhookAnswer : Type := {
  answeredId : string;
  answeredRepo : string;
  autoSynced : bool
}.

(** [handleWebhook].  [autoSyncEnabled] is [AUTO_SYNC_ENABLED] and [w] is
    what processing the event reads, if it is processed. *)
Definition handleWebhook (trackedRepos : list string) (autoSyncEnabled : string)
  (uuid : string) (w : EventRound) (event : string) (body : WebhookBody)
  (st : SyncState) : WebhookAnswer * SyncState :=
  let syncEvent := webhookEvent uuid event body in
  let st0 :=
    {| events := set (events st) uuid syncEvent;
       syncHistory := syncHistory st;
       lastFullSync := lastFullSync st;
       watchedBranches := watchedBranches st |} in
  let isTracked := existsb (String.eqb (eventRepo syncEvent)) trackedRepos in
  let auto := isTracked && String.eqb autoSyncEnabled "true" in
  ({| answeredId := uuid; answeredRepo := eventRepo syncEvent;
      autoSynced := auto |},
   if auto then processEvent w uuid syncEvent st0 else st0).

End SyncManager.

(** ** More concrete inputs *)
Module MoreSamples.
Import Js.
Local Open Scope string_scope.

(** Four runs of the scheduler in which the handler throws. *)
Definition fourFailingRuns : list (Z * TaskQueue.Op) :=
  [ (50, TaskQueue.ProcessNext 60 Samples.unreachable);
    (70, TaskQueue.ProcessNext 80 Samples.unreachable);
    (90, TaskQueue.ProcessNext 95 Samples.unreachable);
    (110, TaskQueue.ProcessNext 120 Samples.unreachable) ].

(** The task of [Samples.queueOne]. *)
Definition taskOne : TaskQueue.AgentTask :=
  TaskQueue.newTask Samples.someEnv "t1" 10
    (Samples.request TaskQueue.health_check 5).

(** A queue whose keys are array indices and a name, added as b, 10, 2. *)
Definition indexedQueue : TaskQueue.QueueState :=
  TaskQueue.queueState
    (TaskQueue.run Samples.someEnv
       [ (10, TaskQueue.Enqueue "b" (Returned tt)
                (Samples.request TaskQueue.cleanup 5));
         (20, TaskQueue.Enqueue "10" (Returned tt)
                (Samples.request TaskQueue.cleanup 5));
         (30, TaskQueue.Enqueue "2" (Returned tt)
                (Samples.request TaskQueue.cleanup 5)) ]
       TaskQueue.initial).

(** A manual trigger, an alarm and an auto-heal request, long after the
    breaker of [Samples.trippedHealer] opened. *)
Definition lateEvents : list SelfHealerRuns.Event :=
  [ SelfHealerRuns.Request 999999
      (SelfHealer.ManualTrigger (Samples.failingCall "a7" 999999));
    SelfHealerRuns.AlarmFired Samples.sampleUuid 1000000 1000001
      Samples.quietWorld (Returned Samples.quietSnapshot) 1000002;
    SelfHealerRuns.Request 1000003
      (SelfHealer.AutoHeal Samples.sampleUuid 1000004 Samples.quietWorld
         Samples.quietSnapshot) ].

(** Probes in which KV and D1 both throw. *)
Definition failingProbes : Coordinator.Probes :=
  {| Coordinator.kv := Threw (ErrorObject "kv down");
     Coordinator.kvLatency := 0;
     Coordinator.d1 := Threw NonError;
     Coordinator.d1Latency := 0;
     Coordinator.r2 := Returned tt;
     Coordinator.r2Latency := 5 |}.

(** The report of a coordinator whose probes throw and whose repo scraper
    is in error status. *)
Definition sickSnapshot : Health.HealthStatus :=
  Coordinator.healthOf failingProbes 100 101 Samples.erringRegistry.


Definition manyUuids (n : nat) : string :=
  String (Ascii.ascii_of_nat (97 + n)) "".

(** A sync history of a hundred entries, stamped 1 to 100. *)
Definition fullHistory : list SyncManager.SyncHistoryEntry :=
  map (fun n =>
         {| SyncManager.id := manyUuids n;
            SyncManager.repo := "youtube";
            SyncManager.type := SyncManager.manual;
            SyncManager.success := true;
            SyncManager.timestamp := Z.of_nat n;
            SyncManager.details := None |})
      (seq 1 100).

Definition fullSyncState : SyncManager.SyncState :=
  {| SyncManager.events := [];
     SyncManager.syncHistory := fullHistory;
     SyncManager.lastFullSync := None;
     SyncManager.watchedBranches := [] |}.

(** Rounds of a full sync in which the scraper reports no success. *)
Definition failingRounds (n : nat) : SyncManager.Round :=
  {| SyncManager.uuid := manyUuids n;
     SyncManager.now := 500 + Z.of_nat n;
     SyncManager.scrape := SyncManager.ScrapeFailed |}.

(** A push to main that is waiting, stored after a release that has been
    processed. *)
Definition waitingPush : SyncManager.SyncEvent :=
  {| SyncManager.eventId := "e2";
     SyncManager.eventRepo := "youtube";
     SyncManager.eventType := SyncManager.push;
     SyncManager.ref := Some "refs/heads/main";
     SyncManager.commit := Some "abc";
     SyncManager.processedAt := None |}.

Definition oneWaiting : SyncManager.SyncState :=
  {| SyncManager.events :=
       [ ("e1", {| SyncManager.eventId := "e1";
                   SyncManager.eventRepo := "youtube";
                   SyncManager.eventType := SyncManager.release;
                   SyncManager.ref := None;
                   SyncManager.commit := None;
                   SyncManager.processedAt := Some 40 |});
         ("e2", waitingPush) ];
     SyncManager.syncHistory := [];
     SyncManager.lastFullSync := None;
     SyncManager.watchedBranches := [] |}.

(** Rounds of event processing in which the scraper finds commit abc and
    every collaborator answers. *)
Definition calmRounds (n : nat) : SyncManager.EventRound :=
  {| SyncManager.logId := manyUuids n;
     SyncManager.markedAt := 600;
     SyncManager.loggedAt := 601;
     SyncManager.eventScrape := SyncManager.Scraped "abc" (Returned tt);
     SyncManager.cohesionAgain := Returned tt;
     SyncManager.releaseNote := Returned tt |}.

(** A sync manager in which the only stored event has been processed. *)
Definition nothingWaiting : SyncManager.SyncState :=
  {| SyncManager.events :=
       [ ("e1", {| SyncManager.eventId := "e1";
                   SyncManager.eventRepo := "youtube";
                   SyncManager.eventType := SyncManager.release;
                   SyncManager.ref := None;
                   SyncManager.commit := None;
                   SyncManager.processedAt := Some 40 |}) ];
     SyncManager.syncHistory := [];
     SyncManager.lastFullSync := None;
     SyncManager.watchedBranches := [] |}.

(** The body of a push to main of the repository youtube. *)
Definition pushBody : SyncManager.WebhookBody :=
  {| SyncManager.repositoryName := Some "youtube";
     SyncManager.pushRef := Some "refs/heads/main";
     SyncManager.after := Some "abc";
     SyncManager.headCommitId := None;
     SyncManager.baseRef := None;
     SyncManager.headSha := None |}.

End MoreSamples.

(** * Properties *)

(** ** Maps and sets *)
Module JsFacts.
Import Js.

Lemma get_set_eq {V : Type} (m : Map V) (k : string) (v : V) :
  get (set m k v) k = Some v.
Proof.
  induction m as [| [k' v'] m IH]; cbn.
  - now rewrite String.eqb_refl.
  - destruct (String.eqb k' k) eqn:E; cbn; rewrite E; [reflexivity | exact IH].
Qed.

Lemma get_set_ne {V : Type} (m : Map V) (k k' : string) (v : V) :
  k <> k' -> get (set m k v) k' = get m k'.
Proof.
  intros Hne. induction m as [| [k0 v0] m IH]; cbn.
  - destruct (String.eqb_spec k k'); [contradiction | reflexivity].
  - destruct (String.eqb_spec k0 k) as [-> | Hk]; cbn.
    + destruct (String.eqb_spec k k'); [contradiction | reflexivity].
    + destruct (String.eqb k0 k'); [reflexivity | exact IH].
Qed.

Lemma get_In {V : Type} (m : Map V) (k : string) (v : V) :
  get m k = Some v -> In (k, v) m.
Proof.
  induction m as [| [k' v'] m IH]; cbn; [discriminate |].
  destruct (String.eqb_spec k' k) as [-> | Hk]; intros H.
  - injection H as ->. now left.
  - right. now apply IH.
Qed.

Lemma has_delete (s : StringSet) (x : string) : has (delete s x) x = false.
Proof.
  unfold has, delete. induction s as [| y s IH]; cbn; [reflexivity |].
  destruct (String.eqb x y) eqn:E; cbn; [exact IH | now rewrite E].
Qed.

(** *** The built-ins on the strings and arrays the agents meet *)
Example includes_kv : includes "kv-cache" "kv" = true.
Proof. reflexivity. Qed.

Example includes_agent : includes "agent-task-queue" "agent" = true.
Proof. reflexivity. Qed.

Example includes_none :
  includes "r2-storage" "kv" = false
  /\ includes "r2-storage" "d1" = false
  /\ includes "r2-storage" "agent" = false.
Proof. repeat split. Qed.

Example replace_agent_prefix :
  replace "agent-task-queue" "agent-" "" = "task-queue"%string.
Proof. reflexivity. Qed.

Example replace_first_only :
  replace "my-agent-agent-x" "agent-" "" = "my-agent-x"%string.
Proof. reflexivity. Qed.

Example sort_is_stable :
  sort (fun a b : Z * string => fst a - fst b)
    [(5, "b"); (1, "a"); (5, "c"); (1, "d")]%string
  = [(1, "a"); (1, "d"); (5, "b"); (5, "c")]%string.
Proof. reflexivity. Qed.

(** *** The head of a sorted array *)
Section SortHead.
Context {A : Type} (w : A -> Z).

Lemma insert_not_nil (x : A) (l : list A) :
  insert (fun a b => w a - w b) x l <> [].
Proof.
  destruct l as [| y l]; cbn; [| destruct (w x - w y <=? 0)]; discriminate.
Qed.

Lemma sort_nil_inv (l : list A) : sort (fun a b => w a - w b) l = [] -> l = [].
Proof.
  destruct l as [| x l]; [reflexivity |].
  cbn. intros H. now apply insert_not_nil in H.
Qed.

(** The first element of the sorted array is the first of the elements of
    least weight in the array as it was. *)
Lemma sort_head_first_min (l : list A) : forall (e : A) (rest : list A),
  sort (fun a b => w a - w b) l = e :: rest ->
  exists l1 l2,
    l = l1 ++ e :: l2
    /\ (forall x, In x l1 -> w e < w x)
    /\ (forall x, In x l2 -> w e <= w x).
Proof.
  induction l as [| x l IH]; intros e rest H; [discriminate |].
  cbn [sort] in H.
  destruct (sort (fun a b => w a - w b) l) as [| y r] eqn:Hs.
  - apply sort_nil_inv in Hs. subst l. cbn in H. injection H as <- _.
    exists [], []. repeat split; intros z [].
  - destruct (IH y r eq_refl) as (l1 & l2 & Hl & H1 & H2).
    cbn [insert] in H.
    destruct (Z.leb_spec (w x - w y) 0) as [Hle | Hgt]; injection H as <- _.
    + exists [], l. repeat split; [intros z [] |].
      intros z Hz. subst l. apply in_app_or in Hz as [Hz | [<- | Hz]].
      * specialize (H1 z Hz). lia.
      * lia.
      * specialize (H2 z Hz). lia.
    + exists (x :: l1), l2. subst l. repeat split; [| exact H2].
      intros z [<- | Hz]; [lia | now apply H1].
Qed.

End SortHead.

Lemma filter_split {A : Type} (f : A -> bool) (l : list A) :
  forall (l1 l2 : list A) (e : A),
  filter f l = l1 ++ e :: l2 ->
  exists L1 L2,
    l = L1 ++ e :: L2 /\ filter f L1 = l1 /\ filter f L2 = l2 /\ f e = true.
Proof.
  induction l as [| x l IH]; intros l1 l2 e H.
  - destruct l1; discriminate.
  - cbn [filter] in H. destruct (f x) eqn:Hx.
    + destruct l1 as [| y l1]; cbn [app] in H; injection H as -> H.
      * exists [], l. cbn. now rewrite <- H.
      * destruct (IH _ _ _ H) as (L1 & L2 & -> & <- & <- & He).
        exists (y :: L1), L2. cbn. now rewrite Hx.
    + destruct (IH _ _ _ H) as (L1 & L2 & -> & <- & <- & He).
      exists (x :: L1), L2. cbn. now rewrite Hx.
Qed.

(** *** Keys *)
Lemma get_None_keys {V : Type} (m : Map V) (k : string) :
  get m k = None <-> ~ In k (keys m).
Proof.
  unfold keys. induction m as [| [k' v] m IH]; cbn.
  - split; [intros _ [] | reflexivity].
  - destruct (String.eqb_spec k' k) as [-> | Hne].
    + split; [discriminate | intros H; elim H; now left].
    + rewrite IH. split; [intros H [Heq | Hin]; [congruence | auto] | auto].
Qed.

Lemma keys_set_present {V : Type} (m : Map V) (k : string) (v v0 : V) :
  get m k = Some v0 -> keys (set m k v) = keys m.
Proof.
  unfold keys. induction m as [| [k' v'] m IH]; cbn; [discriminate |].
  destruct (String.eqb k' k); cbn; [reflexivity |].
  intros H. now rewrite IH.
Qed.

Lemma keys_set_absent {V : Type} (m : Map V) (k : string) (v : V) :
  get m k = None -> keys (set m k v) = keys m ++ [k].
Proof.
  unfold keys. induction m as [| [k' v'] m IH]; cbn; [reflexivity |].
  destruct (String.eqb k' k); cbn; [discriminate |].
  intros H. now rewrite IH.
Qed.

Lemma NoDup_keys_set {V : Type} (m : Map V) (k : string) (v : V) :
  NoDup (keys m) -> NoDup (keys (set m k v)).
Proof.
  intros Hnd. destruct (get m k) as [v0 |] eqn:Hg.
  - now rewrite (keys_set_present m k v v0 Hg).
  - rewrite (keys_set_absent m k v Hg).
    apply NoDup_app; [exact Hnd | repeat constructor; intros [] |].
    intros x Hx [<- | []]. now apply get_None_keys in Hg.
Qed.

Lemma In_get {V : Type} (m : Map V) (k : string) (v : V) :
  NoDup (keys m) -> In (k, v) m -> get m k = Some v.
Proof.
  unfold keys. induction m as [| [k' v'] m IH]; cbn; [intros _ [] |].
  intros Hnd [Heq | Hin].
  - injection Heq as -> ->. now rewrite String.eqb_refl.
  - inversion Hnd as [| ? ? Hnotin Hnd']; subst.
    destruct (String.eqb_spec k' k) as [-> | Hne]; [| now apply IH].
    elim Hnotin. change k with (fst (k, v)). now apply in_map.
Qed.

(** A map rewritten value by value. *)
Lemma get_map_values {V : Type} (g : V -> V) (m : Map V) (k : string) :
  get (map (fun e => (fst e, g (snd e))) m) k = option_map g (get m k).
Proof.
  induction m as [| [k' v] m IH]; cbn; [reflexivity |].
  destruct (String.eqb k' k); [reflexivity | exact IH].
Qed.

Lemma keys_map_values {V : Type} (g : V -> V) (m : Map V) :
  keys (map (fun e => (fst e, g (snd e))) m) = keys m.
Proof.
  unfold keys. rewrite map_map. apply map_ext. reflexivity.
Qed.

Lemma ltQ_true (a b : Q) : ltQ a b = true <-> (a < b)%Q.
Proof.
  unfold ltQ. rewrite negb_true_iff. split.
  - intros H. apply Qnot_le_lt. intros Hle.
    apply Qle_bool_iff in Hle. congruence.
  - intros H. destruct (Qle_bool b a) eqn:E; [| reflexivity].
    apply Qle_bool_iff in E. apply Qle_not_lt in E. contradiction.
Qed.

Lemma ltQ_false (a b : Q) : ltQ a b = false <-> (b <= a)%Q.
Proof.
  unfold ltQ. rewrite negb_false_iff. apply Qle_bool_iff.
Qed.

End JsFacts.

(** ** The coordinator *)
Module CoordinatorSpec.
Import Js Coordinator Samples.


(** The derived checks that fail are those of the agents in error status. *)
Lemma derived_fail_count (now : Timestamp) (m : Map Agent.AgentHealth) :
  countStatus Check.fail (map (agentCheck now) m) = countErrorAgents (values m).
Proof.
  unfold countStatus, countErrorAgents, values.
  induction m as [| [k a] m IH]; [reflexivity |].
  cbn [map filter snd]. unfold agentCheck at 1.
  destruct (Agent.status a); cbn;
    try (destruct (now - Agent.lastActivity a >? 300000); cbn);
    rewrite ?IH; reflexivity.
Qed.

Lemma countStatus_app (s : Check.Status) (l1 l2 : list Check.HealthCheck) :
  countStatus s (l1 ++ l2) = (countStatus s l1 + countStatus s l2)%nat.
Proof. unfold countStatus. now rewrite filter_app, length_app. Qed.



(** An agent already in error status whose error is reported again, and a
    trigger of the agent that cannot be triggered. *)
Lemma errorCount_transition_counterexample :
  option_map Agent.status (get (agents erringRegistry) "repo-scraper")
  = Some Agent.error
  /\ option_map Agent.errorCount (get (agents erringRegistry) "repo-scraper")
     = Some 1
  /\ option_map Agent.errorCount
       (get (agents (snd (handleStatusUpdate 20 "repo-scraper" Agent.error
                            erringRegistry))) "repo-scraper")
     = Some 2
  /\ option_map Agent.lastActivity (get (agents (initial 0)) "coordinator")
     = Some 0
  /\ option_map Agent.lastActivity
       (get (agents (snd (handleTriggerAgent 20 "coordinator" (Forwarded [])
                            (initial 0)))) "coordinator")
     = Some 0.
Proof. repeat split. Qed.

(** C8, amended.  For a registered agent, a status report stores the
    reported status, sets [lastActivity] to now, and adds one to
    [errorCount] exactly when the reported status is error, whatever the
    status was before; a trigger that is forwarded (the agent is one of the
    four that can be triggered and the forwarding call returned) sets
    [lastActivity] to now and leaves [errorCount]; a trigger of an agent
    that cannot be triggered changes nothing, and neither does one whose
    forwarding call throws; no record of another agent is touched by
    either, and a health check leaves the registry as it is. *)
Theorem errorCount_and_lastActivity
  (now : Timestamp) (name : string) (st : CoordinatorState)
  (a : Agent.AgentHealth) :
  get (agents st) name = Some a ->
  (forall s, exists a',
      get (agents (snd (handleStatusUpdate now name s st))) name = Some a'
      /\ Agent.status a' = s
      /\ Agent.lastActivity a' = now
      /\ Agent.errorCount a'
         = if Agent.status_eqb s Agent.error
           then Agent.errorCount a + 1 else Agent.errorCount a)
  /\ (forall fwd, triggerable name = true ->
      (forall e, fwd <> FetchThrew e) ->
      exists a',
        get (agents (snd (handleTriggerAgent now name fwd st))) name = Some a'
        /\ Agent.status a' = Agent.active
        /\ Agent.lastActivity a' = now
        /\ Agent.taskCount a' = Agent.taskCount a + 1
        /\ Agent.errorCount a' = Agent.errorCount a)
  /\ (forall fwd, triggerable name = false ->
      handleTriggerAgent now name fwd st = (NotTriggerable, st))
  /\ (forall e, snd (handleTriggerAgent now name (FetchThrew e) st) = st)
  /\ (forall other s fwd, other <> name ->
      get (agents (snd (handleStatusUpdate now name s st))) other
      = get (agents st) other
      /\ get (agents (snd (handleTriggerAgent now name fwd st))) other
         = get (agents st) other)
  /\ (forall env p stamp heal,
      agents (snd (fst (handleHealthCheck env p now stamp heal st))) = agents st).
Proof.
  intros Hget. repeat split.
  - intros s. unfold handleStatusUpdate. rewrite Hget. cbn [snd agents].
    eexists. split; [apply JsFacts.get_set_eq |]. repeat split.
  - intros fwd Ht Hfwd. unfold handleTriggerAgent. rewrite Hget, Ht.
    destruct fwd as [e | e | r]; [now elim (Hfwd e) | |]; cbn [snd agents];
      (eexists; split; [apply JsFacts.get_set_eq |]); repeat split.
  - intros fwd Ht. unfold handleTriggerAgent. now rewrite Hget, Ht.
  - intros e. unfold handleTriggerAgent. rewrite Hget.
    now destruct (triggerable name).
  - unfold handleStatusUpdate. rewrite Hget. cbn [snd agents].
    now apply JsFacts.get_set_ne.
  - unfold handleTriggerAgent. rewrite Hget.
    destruct (triggerable name); [| reflexivity].
    destruct fwd; cbn [snd agents]; try reflexivity;
      apply JsFacts.get_set_ne; congruence.
  - intros env p stamp heal. unfold handleHealthCheck.
    destruct (Health.overall _); try reflexivity.
    destruct (String.eqb _ _); [destruct heal |]; reflexivity.
Qed.

Lemma errorCount_and_lastActivity_witness :
  get (agents erringRegistry) "repo-scraper"
  = Some {| Agent.name := "repo-scraper"; Agent.status := Agent.error;
            Agent.lastActivity := 10; Agent.taskCount := 0;
            Agent.errorCount := 1 |}
  /\ exists a',
      get (agents (snd (handleStatusUpdate 20 "repo-scraper" Agent.error
                          erringRegistry))) "repo-scraper" = Some a'
      /\ Agent.status a' = Agent.error
      /\ Agent.lastActivity a' = 20
      /\ Agent.errorCount a' = 2.
Proof.
  split; [reflexivity |].
  exact (proj1 (errorCount_and_lastActivity 20 "repo-scraper" erringRegistry
                  _ eq_refl) Agent.error).
Defined.

End CoordinatorSpec.

(** ** The self-healer *)
Module SelfHealerSpec.
Import Js SelfHealer Samples.










(** The reset request closes a breaker that opened one millisecond ago. *)
Lemma reset_before_window_counterexample :
  circuitOpen trippedHealer = true
  /\ circuitOpenedAt trippedHealer = Some 507
  /\ 508 - 507 < CIRCUIT_RESET_MS
  /\ circuitOpen (snd (step someEnv 508 ResetCircuit trippedHealer)) = false.
Proof. repeat split. Qed.

(** C4, amended.  Once the breaker is open, a request leaves it closed only
    if it is a status request made more than 60000 ms after
    [circuitOpenedAt] (which then also zeroes [consecutiveFailures] and
    clears [circuitOpenedAt]) or a reset request; the reset request closes
    it whatever time has passed; a status request made 60000 ms or less
    after [circuitOpenedAt] leaves the state as it is, breaker open; manual
    triggers and auto-heal requests never close it. *)
Theorem breaker_closes_by_status_or_reset
  (env : Env.Env) (now : Timestamp) (op : Op) (s : HealerState)
  (opened : Timestamp) :
  circuitOpen s = true ->
  circuitOpenedAt s = Some opened ->
  let s' := snd (step env now op s) in
  (circuitOpen s' = false ->
   (op = GetStatus /\ now - opened > CIRCUIT_RESET_MS) \/ op = ResetCircuit)
  /\ (op = GetStatus -> now - opened > CIRCUIT_RESET_MS ->
      circuitOpen s' = false /\ consecutiveFailures s' = 0
      /\ circuitOpenedAt s' = None)
  /\ (op = GetStatus -> now - opened <= CIRCUIT_RESET_MS -> s' = s)
  /\ (op = ResetCircuit ->
      circuitOpen s' = false /\ consecutiveFailures s' = 0
      /\ circuitOpenedAt s' = None)
  /\ (forall c, op = ManualTrigger c -> s' = s)
  /\ (forall uuid nowDone world health,
      op = AutoHeal uuid nowDone world health -> s' = s).
Proof.
  intros Ho Hat s'. subst s'.
  destruct op as [| c | uuid nowDone world health |]; cbn [step].
  - unfold handleStatus. rewrite Ho, Hat. cbn [snd].
    destruct (Z.gtb_spec (now - opened) CIRCUIT_RESET_MS) as [Hgt | Hle];
      repeat split; intros; try reflexivity; try discriminate; try lia;
      try congruence.
    left. split; [reflexivity | lia].
  - unfold manualTrigger, handleManualTrigger. rewrite Ho. cbn [snd].
    repeat split; intros; try reflexivity; try discriminate; congruence.
  - unfold handleAutoHeal. rewrite Ho.
    destruct (negb _); cbn [snd];
      repeat split; intros; try reflexivity; try discriminate; congruence.
  - cbn. repeat split; intros; try reflexivity; try discriminate.
    now right.
Qed.

Lemma breaker_closes_by_status_or_reset_witness :
  circuitOpen trippedHealer = true
  /\ circuitOpenedAt trippedHealer = Some 507
  /\ snd (step someEnv 60507 GetStatus trippedHealer) = trippedHealer
  /\ circuitOpen (snd (step someEnv 60508 GetStatus trippedHealer)) = false.
Proof.
  split; [reflexivity |]. split; [reflexivity |].
  split.
  - refine (proj1 (proj2 (proj2 (breaker_closes_by_status_or_reset someEnv 60507
              GetStatus trippedHealer 507 eq_refl eq_refl))) eq_refl _).
    unfold CIRCUIT_RESET_MS. lia.
  - refine (proj1 (proj1 (proj2 (breaker_closes_by_status_or_reset someEnv 60508
              GetStatus trippedHealer 507 eq_refl eq_refl)) eq_refl _)).
    unfold CIRCUIT_RESET_MS. lia.
Defined.

(** A check whose name has none of the three substrings maps to no action. *)
Lemma determineHealAction_no_rule (uuid : string) (now : Timestamp)
  (c : Check.HealthCheck) :
  includes (Check.name c) "kv" = false ->
  includes (Check.name c) "d1" = false ->
  includes (Check.name c) "agent" = false ->
  determineHealAction uuid now c = None.
Proof.
  intros Hkv Hd1 Hag. unfold determineHealAction.
  now rewrite Hkv, Hd1, Hag.
Qed.

Lemma checkActions_none (uuid : nat -> string) (now : Timestamp)
  (cs : list Check.HealthCheck) : forall (n : nat),
  Forall (fun c =>
            Check.status c = Check.fail ->
            includes (Check.name c) "kv" = false
            /\ includes (Check.name c) "d1" = false
            /\ includes (Check.name c) "agent" = false) cs ->
  snd (checkActions uuid now n cs) = [].
Proof.
  induction cs as [| c cs IH]; intros n Hall; [reflexivity |].
  inversion Hall as [| c' cs' Hc Hcs]; subst.
  cbn [checkActions].
  destruct (Check.status c) eqn:Hs; try (apply IH; assumption).
  specialize (IH (S n) Hcs).
  destruct (checkActions uuid now (S n) cs) as [n' rest]. cbn in IH. subst rest.
  destruct (Hc eq_refl) as (Hkv & Hd1 & Hag).
  cbn [snd]. now rewrite determineHealAction_no_rule.
Qed.

Lemma agentActions_none (uuid : nat -> string) (now : Timestamp)
  (ags : list Agent.AgentHealth) : forall (n : nat),
  Forall (fun g => Agent.status g <> Agent.error) ags ->
  agentActions uuid now n ags = [].
Proof.
  induction ags as [| g ags IH]; intros n Hall; [reflexivity |].
  inversion Hall as [| g' ags' Hg Hags]; subst.
  cbn [agentActions].
  destruct (Agent.status g); try (apply IH; assumption).
  now elim Hg.
Qed.

(** C10.  With self-healing enabled and the breaker closed, an auto-heal
    request whose snapshot has no agent in error status and no failing
    check that a rule matches (no failing check at all, or only failing
    checks whose names contain none of kv, d1 and agent) executes no
    action: it answers healed with count 0 and no results, adds one to
    [healCount], sets [lastHealAttempt], and leaves the actions and the
    breaker as they were. *)
Theorem autoHeal_without_findings
  (env : Env.Env) (uuid : nat -> string) (now nowDone : Timestamp)
  (world : nat -> Timestamp * Timestamp * Outcome unit)
  (health : Health.HealthStatus) (s : HealerState) :
  Env.SELF_HEAL_ENABLED env = "true"%string ->
  circuitOpen s = false ->
  Forall (fun c =>
            Check.status c = Check.fail ->
            includes (Check.name c) "kv" = false
            /\ includes (Check.name c) "d1" = false
            /\ includes (Check.name c) "agent" = false)
         (Health.checks health) ->
  Forall (fun g => Agent.status g <> Agent.error) (Health.agents health) ->
  actionsToTake uuid now health = []
  /\ handleAutoHeal env uuid now nowDone world health s
     = (Healed 0 [],
        {| actions := actions s;
           healCount := healCount s + 1;
           lastHealAttempt := Some nowDone;
           consecutiveFailures := consecutiveFailures s;
           circuitOpen := false;
           circuitOpenedAt := circuitOpenedAt s |}).
Proof.
  intros Hen Hc Hchecks Hagents.
  assert (Htodo : actionsToTake uuid now health = []).
  { unfold actionsToTake.
    pose proof (checkActions_none uuid now (Health.checks health) 0 Hchecks) as H.
    destruct (checkActions uuid now 0 (Health.checks health)) as [n fromChecks].
    cbn in H. subst fromChecks. cbn [app].
    now apply agentActions_none. }
  split; [exact Htodo |].
  unfold handleAutoHeal. rewrite Hen, Hc, Htodo. cbn.
  now rewrite Hc.
Qed.

Lemma autoHeal_without_findings_witness :
  handleAutoHeal someEnv sampleUuid 1000 1001 quietWorld quietSnapshot initial
  = (Healed 0 [],
     {| actions := []; healCount := 1; lastHealAttempt := Some 1001;
        consecutiveFailures := 0; circuitOpen := false;
        circuitOpenedAt := None |}).
Proof.
  refine (proj2 (autoHeal_without_findings someEnv sampleUuid 1000 1001
                   quietWorld quietSnapshot initial eq_refl eq_refl _ _)).
  - repeat constructor; discriminate.
  - repeat constructor; discriminate.
Defined.

End SelfHealerSpec.

(** ** The task queue *)
Module TaskQueueSpec.
Import Js TaskQueue Samples.



(** [handleProcessNext] never touches the alarm. *)
Lemma processNext_keeps_alarm (now nowDone : Timestamp)
  (external : Outcome Payload) (a : TaskQueueAgent) :
  alarm (snd (handleProcessNext now nowDone external a)) = alarm a.
Proof.
  unfold handleProcessNext.
  destruct (pendingTasks (queueState a)) as [| [key task0] rest]; [reflexivity |].
  destruct (executeTask _ external); [reflexivity |].
  match goal with
  | |- context [if ?b then _ else _] => destruct b
  end; reflexivity.
Qed.

(** The test [task.retryCount < task.maxRetries], as an inequality. *)
Lemma retriesLeft_cases (t : AgentTask) :
  (retriesLeft t = true /\ (inject_Z (retryCount t) < maxRetries t)%Q)
  \/ (retriesLeft t = false /\ (maxRetries t <= inject_Z (retryCount t))%Q).
Proof.
  unfold retriesLeft.
  destruct (ltQ (inject_Z (retryCount t)) (maxRetries t)) eqn:E.
  - left. split; [reflexivity | now apply JsFacts.ltQ_true].
  - right. split; [reflexivity | now apply JsFacts.ltQ_false].
Qed.

Lemma retriesLeft_true (t : AgentTask) :
  (inject_Z (retryCount t) < maxRetries t)%Q -> retriesLeft t = true.
Proof. intros H. now apply JsFacts.ltQ_true. Qed.

Lemma retriesLeft_false (t : AgentTask) :
  (maxRetries t <= inject_Z (retryCount t))%Q -> retriesLeft t = false.
Proof. intros H. now apply JsFacts.ltQ_false. Qed.

(** What the [catch] of [handleProcessNext] does to a task with retries
    left: the task leaves the in-flight set and becomes retrying, the retry
    is counted, the failure is not, and the alarm stays as it was. *)
Lemma processNext_failure_with_retries (now nowDone : Timestamp)
  (external : Outcome Payload) (e : Thrown) (a : TaskQueueAgent)
  (key : string) (task0 : AgentTask) (rest : list (string * AgentTask)) :
  pendingTasks (queueState a) = (key, task0) :: rest ->
  executeTask (with_updatedAt now (with_status running task0)) external
  = Threw e ->
  (inject_Z (retryCount task0) < maxRetries task0)%Q ->
  let a' := snd (handleProcessNext now nowDone external a) in
  (exists t',
      get (tasks (queueState a')) key = Some t'
      /\ status t' = retrying
      /\ retryCount t' = retryCount task0 + 1
      /\ error t' = Some (errorMessage "Unknown error" e))
  /\ has (processing (queueState a')) (id task0) = false
  /\ totalRetried (stats (queueState a'))
     = totalRetried (stats (queueState a)) + 1
  /\ totalFailed (stats (queueState a')) = totalFailed (stats (queueState a))
  /\ alarm a' = alarm a.
Proof.
  intros Hp Hx Hlt a'. subst a'. unfold handleProcessNext. rewrite Hp, Hx.
  rewrite (retriesLeft_true
             (with_error (errorMessage "Unknown error" e)
                (with_status failed
                   (with_updatedAt now (with_status running task0)))) Hlt).
  cbn [snd queueState tasks processing stats alarm].
  split; [eexists; split; [apply JsFacts.get_set_eq | repeat split] |].
  split; [apply JsFacts.has_delete |]. repeat split.
Qed.

(** What the failed path of [handleUpdateTask] does to a task with retries
    left: the same, and the failure is counted and the alarm set. *)
Lemma updateTask_failure_with_retries (env : Env.Env) (now : Timestamp)
  (taskId : string) (updates : Partial.t) (a : TaskQueueAgent)
  (task0 : AgentTask) :
  get (tasks (queueState a)) taskId = Some task0 ->
  Partial.status updates = Some failed ->
  Partial.retryCount updates = None ->
  Partial.maxRetries updates = None ->
  0 <= retryCount task0 ->
  (inject_Z (retryCount task0) < maxRetries task0)%Q ->
  let a' := snd (handleUpdateTask env now taskId updates a) in
  (exists t',
      get (tasks (queueState a')) taskId = Some t'
      /\ status t' = retrying
      /\ retryCount t' = retryCount task0 + 1)
  /\ has (processing (queueState a')) taskId = false
  /\ totalRetried (stats (queueState a'))
     = totalRetried (stats (queueState a)) + 1
  /\ totalFailed (stats (queueState a'))
     = totalFailed (stats (queueState a)) + 1
  /\ alarm a'
     = Some (now + Env.RETRY_BACKOFF_MS env * 2 ^ (retryCount task0 + 1)).
Proof.
  intros Hg Hs Hrc Hmax _ Hlt a'. subst a'.
  unfold handleUpdateTask. rewrite Hg, Hs. cbv zeta.
  assert (retryCount (assign task0 updates now) = retryCount task0) as Erc
      by (cbn; now rewrite Hrc).
  assert (maxRetries (assign task0 updates now) = maxRetries task0) as Emax
      by (cbn; now rewrite Hmax).
  rewrite (retriesLeft_true (assign task0 updates now))
    by (rewrite Erc, Emax; exact Hlt).
  rewrite Erc.
  cbn [snd queueState tasks processing stats alarm].
  split; [eexists; split; [apply JsFacts.get_set_eq | repeat split] |].
  split; [apply JsFacts.has_delete |]. repeat split.
Qed.

(** C2.  A pending health check with retry limit 3 whose handler throws:
    [handleProcessNext] sets it to retrying with retry count 1 and counts
    the retry, as the failed path of [handleUpdateTask] does for the same
    task reported running and then failed; but [handleProcessNext] leaves
    [totalFailed] at 0 and sets no alarm, where [handleUpdateTask] counts
    the failure and sets the alarm to now plus the backoff. *)
Theorem processNext_failure_differs_from_updateTask :
  let viaProcess := snd (handleProcessNext 50 60 unreachable queueOne) in
  let viaUpdate :=
    snd (handleUpdateTask someEnv 60 "t1" (report failed) queueOneRunning) in
  (option_map status (get (tasks (queueState viaProcess)) "t1") = Some retrying
   /\ option_map retryCount (get (tasks (queueState viaProcess)) "t1") = Some 1
   /\ processing (queueState viaProcess) = []
   /\ totalRetried (stats (queueState viaProcess)) = 1
   /\ totalFailed (stats (queueState viaProcess)) = 0
   /\ alarm viaProcess = None)
  /\ (option_map status (get (tasks (queueState viaUpdate)) "t1") = Some retrying
      /\ option_map retryCount (get (tasks (queueState viaUpdate)) "t1") = Some 1
      /\ processing (queueState viaUpdate) = []
      /\ totalRetried (stats (queueState viaUpdate)) = 1
      /\ totalFailed (stats (queueState viaUpdate)) = 1
      /\ alarm viaUpdate = Some (60 + 1000 * 2 ^ 1)).
Proof. cbv zeta. repeat split. Qed.

(** The tasks that [handleRetryFailed] picks are not picked again. *)
Lemma canRetry_retryTask (now : Timestamp) (t : AgentTask) :
  canRetry (retryTask now t) = false.
Proof. reflexivity. Qed.

Lemma retried_none_left (clock : nat -> Timestamp) (m : Map AgentTask) :
  forall i, filter canRetry (values (retryEach clock i m)) = [].
Proof.
  unfold values. induction m as [| [k t] m IH]; intros i; [reflexivity |].
  cbn [retryEach].
  destruct (canRetry t) eqn:E; cbn [map filter snd];
    [rewrite canRetry_retryTask | rewrite E]; apply IH.
Qed.

Lemma retry_map_fixed (clock : nat -> Timestamp) (m : Map AgentTask) :
  forall i, filter canRetry (values m) = [] -> retryEach clock i m = m.
Proof.
  unfold values. induction m as [| [k t] m IH]; intros i; [reflexivity |].
  cbn [map filter fst snd retryEach].
  destruct (canRetry t) eqn:E; [discriminate |].
  intros H. now rewrite IH.
Qed.

Lemma canRetry_iff (t : AgentTask) :
  canRetry t = true
  <-> status t = failed /\ (inject_Z (retryCount t) < maxRetries t)%Q.
Proof.
  unfold canRetry. rewrite andb_true_iff.
  destruct (retriesLeft_cases t) as [[-> Hlt] | [-> Hge]];
    destruct (status t); cbn; split; intros [H1 H2];
    try discriminate; try (split; [reflexivity | assumption]);
    try (split; reflexivity).
  all: exfalso; apply (Qle_not_lt _ _ Hge); exact H2.
Qed.

Lemma canRetry_false_iff (t : AgentTask) :
  canRetry t = false
  <-> status t <> failed \/ (maxRetries t <= inject_Z (retryCount t))%Q.
Proof.
  split.
  - intros H. destruct (retriesLeft_cases t) as [[Hb Hlt] | [Hb Hge]];
      [| now right].
    left. intros Hs. unfold canRetry in H. rewrite Hs, Hb in H. discriminate.
  - intros H. destruct (canRetry t) eqn:E; [| reflexivity].
    apply canRetry_iff in E as [Hs Hlt].
    destruct H as [H | H]; [contradiction |].
    exfalso. apply (Qle_not_lt _ _ H). exact Hlt.
Qed.

(** Entry by entry: a task that is failed with retries left is rewritten,
    with one of the clock readings of the loop; every other entry stays. *)
Lemma retried_entries (clock : nat -> Timestamp) (m : Map AgentTask) :
  forall i,
  Forall2
    (fun e e' =>
       fst e' = fst e
       /\ (status (snd e) = failed
           /\ (inject_Z (retryCount (snd e)) < maxRetries (snd e))%Q ->
           status (snd e') = retrying
           /\ retryCount (snd e') = retryCount (snd e) + 1
           /\ (exists j,
                 (i <= j < i + List.length (filter canRetry (values m)))%nat
                 /\ updatedAt (snd e') = clock j)
           /\ maxRetries (snd e') = maxRetries (snd e)
           /\ id (snd e') = id (snd e))
       /\ (status (snd e) <> failed
           \/ (maxRetries (snd e) <= inject_Z (retryCount (snd e)))%Q ->
           e' = e))
    m (retryEach clock i m).
Proof.
  unfold values. induction m as [| [k t] m IH]; intros i; [constructor |].
  cbn [retryEach map filter snd].
  destruct (canRetry t) eqn:E.
  - constructor.
    + cbn [fst snd]. split; [reflexivity |]. split.
      * intros _. split; [reflexivity |]. split; [reflexivity |].
        split; [| split; reflexivity].
        exists i. cbn [List.length]. split; [lia | reflexivity].
      * intros H. apply canRetry_false_iff in H. congruence.
    + eapply Forall2_impl; [| apply (IH (S i))].
      intros e e' (H1 & H2 & H3). split; [exact H1 |]. split; [| exact H3].
      intros H. destruct (H2 H) as (A & B & (j & Hj & C) & D).
      split; [exact A |]. split; [exact B |]. split; [| exact D].
      exists j. cbn [List.length]. split; [lia | exact C].
  - constructor.
    + cbn [fst snd]. split; [reflexivity |]. split; [| reflexivity].
      intros H. apply canRetry_iff in H. congruence.
    + apply IH.
Qed.

(** The readings of the clock go to the retried tasks in the order of the
    map. *)
Lemma retried_clock (clock : nat -> Timestamp) (m : Map AgentTask) :
  forall i,
  map (fun p => updatedAt (snd (snd p)))
      (filter (fun p => canRetry (snd (fst p)))
              (combine m (retryEach clock i m)))
  = map clock (seq i (List.length (filter canRetry (values m)))).
Proof.
  unfold values. induction m as [| [k t] m IH]; intros i; [reflexivity |].
  cbn [retryEach].
  destruct (canRetry t) eqn:E; cbn [combine filter map fst snd];
    rewrite E; cbn [map List.length seq]; [rewrite IH; reflexivity | apply IH].
Qed.

Lemma addRetried_0 (s : Stats) : addRetried 0 s = s.
Proof. destruct s. unfold addRetried. cbn. now rewrite Z.add_0_r. Qed.

(** C9.  [handleRetryFailed] rewrites, entry by entry, exactly the tasks
    that are failed with retries left: each becomes retrying with its retry
    count one higher and the clock reading of its turn as its update time,
    every other task stays as it is; the answer counts them and lists their
    identifiers, and [totalRetried] grows by their number.  A second call
    right after the first answers with count 0 and no identifier and leaves
    the agent as it is. *)
Theorem retryFailed_idempotent (clock clock2 : nat -> Timestamp)
  (a : TaskQueueAgent) :
  let failedTasks := filter canRetry (values (tasks (queueState a))) in
  let a1 := snd (handleRetryFailed clock a) in
  Forall2
    (fun e e' =>
       fst e' = fst e
       /\ (status (snd e) = failed
           /\ (inject_Z (retryCount (snd e)) < maxRetries (snd e))%Q ->
           status (snd e') = retrying
           /\ retryCount (snd e') = retryCount (snd e) + 1
           /\ (exists j,
                 (0 <= j < 0 + List.length failedTasks)%nat
                 /\ updatedAt (snd e') = clock j)
           /\ maxRetries (snd e') = maxRetries (snd e)
           /\ id (snd e') = id (snd e))
       /\ (status (snd e) <> failed
           \/ (maxRetries (snd e) <= inject_Z (retryCount (snd e)))%Q ->
           e' = e))
    (tasks (queueState a)) (tasks (queueState a1))
  /\ map (fun p => updatedAt (snd (snd p)))
         (filter (fun p => canRetry (snd (fst p)))
                 (combine (tasks (queueState a)) (tasks (queueState a1))))
     = map clock (seq 0 (List.length failedTasks))
  /\ fst (handleRetryFailed clock a)
     = Retried (List.length failedTasks) (map id failedTasks)
  /\ totalRetried (stats (queueState a1))
     = totalRetried (stats (queueState a)) + Z.of_nat (List.length failedTasks)
  /\ processing (queueState a1) = processing (queueState a)
  /\ alarm a1 = alarm a
  /\ handleRetryFailed clock2 a1 = (Retried 0 [], a1).
Proof.
  cbv zeta. split; [apply retried_entries |].
  split; [apply retried_clock |].
  split; [reflexivity |]. split; [reflexivity |]. split; [reflexivity |].
  split; [reflexivity |].
  unfold handleRetryFailed at 1. cbn [snd handleRetryFailed queueState tasks].
  rewrite retried_none_left. cbn [List.length map].
  rewrite retry_map_fixed by apply retried_none_left.
  cbn [processing stats alarm Z.of_nat].
  now rewrite addRetried_0.
Qed.

Lemma isRunnable_iff (t : AgentTask) :
  isRunnable t = true <-> status t = pending \/ status t = retrying.
Proof.
  unfold isRunnable. destruct (status t); cbn; split; intros H;
    try reflexivity; try discriminate; auto;
    destruct H; discriminate.
Qed.

(** What [pendingTasks] starts with, in terms of the map as it is. *)
Lemma pendingTasks_head (q : QueueState) (key : string) (task0 : AgentTask)
  (rest : list (string * AgentTask)) :
  pendingTasks q = (key, task0) :: rest ->
  exists before after,
    tasks q = before ++ (key, task0) :: after
    /\ isRunnable task0 = true
    /\ (forall e, In e before -> isRunnable (snd e) = true ->
        priority task0 < priority (snd e))
    /\ (forall e, In e after -> isRunnable (snd e) = true ->
        priority task0 <= priority (snd e)).
Proof.
  unfold pendingTasks. intros H.
  apply (JsFacts.sort_head_first_min (fun e => priority (snd e))) in H
    as (l1 & l2 & Hl & H1 & H2).
  apply JsFacts.filter_split in Hl as (L1 & L2 & Ht & <- & <- & He).
  exists L1, L2. split; [exact Ht |]. split; [exact He |].
  split; intros e Hin Hr.
  - apply (H1 e). apply filter_In. now split.
  - apply (H2 e). apply filter_In. now split.
Qed.

Lemma pendingTasks_nil (q : QueueState) :
  (forall e, In e (tasks q) -> isRunnable (snd e) = false) ->
  pendingTasks q = [].
Proof.
  intros H. unfold pendingTasks.
  assert (filter (fun e => isRunnable (snd e)) (tasks q) = []) as ->;
    [| reflexivity].
  induction (tasks q) as [| e l IH]; [reflexivity |].
  cbn. rewrite (H e (or_introl eq_refl)). apply IH.
  intros e' He'. apply H. now right.
Qed.

Lemma pendingTasks_cons (q : QueueState) (e : string * AgentTask) :
  In e (tasks q) -> isRunnable (snd e) = true -> pendingTasks q <> [].
Proof.
  intros Hin Hr H. unfold pendingTasks in H.
  apply (JsFacts.sort_nil_inv (fun e => priority (snd e))) in H.
  assert (In e (filter (fun e => isRunnable (snd e)) (tasks q))) as Hf
      by (apply filter_In; now split).
  rewrite H in Hf. exact Hf.
Qed.

(** The task that [handleProcessNext] runs and answers with. *)
Lemma processNext_runs_head (now nowDone : Timestamp)
  (external : Outcome Payload) (a : TaskQueueAgent)
  (key : string) (task0 : AgentTask) (rest : list (string * AgentTask)) :
  pendingTasks (queueState a) = (key, task0) :: rest ->
  exists task',
    fst (handleProcessNext now nowDone external a) = Processed task'
    /\ get (tasks (queueState (snd (handleProcessNext now nowDone external a)))) key
       = Some task'
    /\ id task' = id task0
    /\ priority task' = priority task0
    /\ maxRetries task' = maxRetries task0
    /\ (status task' = completed \/ status task' = failed
        \/ status task' = retrying)
    /\ (retryCount task' = retryCount task0
        \/ ((inject_Z (retryCount task0) < maxRetries task0)%Q
            /\ retryCount task' = retryCount task0 + 1)).
Proof.
  intros Hp. unfold handleProcessNext. rewrite Hp.
  destruct (executeTask _ external) as [r | e].
  - eexists. split; [reflexivity |]. cbn [snd queueState tasks].
    split; [apply JsFacts.get_set_eq |]. cbn. repeat split; auto.
  - match goal with
    | |- context [retriesLeft ?t] =>
        destruct (retriesLeft_cases t) as [[-> Hlt] | [-> Hge]]
    end;
      (eexists; split; [reflexivity |]; cbn [snd queueState tasks];
       split; [apply JsFacts.get_set_eq |]; cbn; repeat split; auto).
Qed.

(** C7.  When no task is pending or retrying, [handleProcessNext] answers
    that nothing was processed and leaves the agent as it is.  Otherwise it
    runs and answers with the task of one entry of the map that is pending
    or retrying, whose priority is strictly below that of every pending or
    retrying task inserted before it and at most that of every one
    inserted after it.  With B (priority 5) and A (priority 1) pending, A is
    the one that is run. *)
Theorem processNext_selects_lowest_priority
  (now nowDone : Timestamp) (external : Outcome Payload) (a : TaskQueueAgent) :
  (forall t, isRunnable t = true <-> status t = pending \/ status t = retrying)
  /\ ((forall e, In e (tasks (queueState a)) -> isRunnable (snd e) = false) ->
      handleProcessNext now nowDone external a = (NoPendingTasks, a))
  /\ ((exists e, In e (tasks (queueState a)) /\ isRunnable (snd e) = true) ->
      exists key task0 before after task',
        tasks (queueState a) = before ++ (key, task0) :: after
        /\ isRunnable task0 = true
        /\ (forall e, In e before -> isRunnable (snd e) = true ->
            priority task0 < priority (snd e))
        /\ (forall e, In e after -> isRunnable (snd e) = true ->
            priority task0 <= priority (snd e))
        /\ fst (handleProcessNext now nowDone external a) = Processed task'
        /\ id task' = id task0
        /\ priority task' = priority task0
        /\ get (tasks (queueState (snd (handleProcessNext now nowDone external a))))
             key = Some task')
  /\ (exists task',
        fst (handleProcessNext 30 40 (Returned []) queueBA) = Processed task'
        /\ id task' = "A"%string /\ priority task' = 1).
Proof.
  split; [exact isRunnable_iff |]. split; [| split].
  - intros Hnone. unfold handleProcessNext.
    now rewrite (pendingTasks_nil _ Hnone).
  - intros (e & Hin & Hr).
    destruct (pendingTasks (queueState a)) as [| [key task0] rest] eqn:Hp;
      [now elim (pendingTasks_cons _ e Hin Hr) |].
    destruct (pendingTasks_head _ _ _ _ Hp) as (before & after & Ht & H0 & H1 & H2).
    destruct (processNext_runs_head now nowDone external a _ _ _ Hp)
      as (task' & Hr1 & Hr2 & Hr3 & Hr4 & _).
    exists key, task0, before, after, task'. repeat split; assumption.
  - eexists. split; [reflexivity |]. split; reflexivity.
Qed.

(** *** The retry count along a run *)

(** Rewriting the task of one key by a task that is no worse. *)
Lemma set_keeps_bounds (m : Map AgentTask) (k : string) (t0 t' : AgentTask) :
  bounded m ->
  get m k = Some t0 ->
  maxRetries t' = maxRetries t0 ->
  retryCount t0 <= retryCount t' ->
  (inject_Z (retryCount t') < maxRetries t' + 1)%Q ->
  bounded (set m k t') /\ grown m (set m k t').
Proof.
  intros Hb Hg Hmax Hrc Hle. split.
  - intros k1 t1. destruct (String.eqb_spec k k1) as [<- | Hne].
    + rewrite JsFacts.get_set_eq. intros [= <-]. exact Hle.
    + rewrite JsFacts.get_set_ne by exact Hne. apply Hb.
  - intros k1 t1 H1. destruct (String.eqb_spec k k1) as [<- | Hne].
    + exists t'. rewrite JsFacts.get_set_eq.
      assert (t1 = t0) as -> by congruence. auto.
    + exists t1. rewrite JsFacts.get_set_ne by exact Hne.
      split; [exact H1 | split; [lia | reflexivity]].
Qed.

Lemma grown_refl (m : Map AgentTask) : grown m m.
Proof. intros k t H. exists t. split; [exact H | split; [lia | reflexivity]]. Qed.

Lemma grown_trans (m1 m2 m3 : Map AgentTask) :
  grown m1 m2 -> grown m2 m3 -> grown m1 m3.
Proof.
  intros H12 H23 k t H.
  destruct (H12 k t H) as (t2 & H2 & Hrc2 & Hmax2).
  destruct (H23 k t2 H2) as (t3 & H3 & Hrc3 & Hmax3).
  exists t3. split; [exact H3 | split; [lia | congruence]].
Qed.

(** A retry count raised by one from below the limit is less than one
    above the limit. *)
Lemma raised_within (rc rc' : Z) (limit : Q) :
  (inject_Z rc < limit)%Q -> rc' = rc + 1 ->
  (inject_Z rc' < limit + 1)%Q.
Proof. intros H ->. rewrite inject_Z_plus. change (inject_Z 1) with 1%Q. lra. Qed.

(** The task that [handleUpdateTask] writes, when the request carries
    neither retry field. *)
Lemma updateTask_writes (env : Env.Env) (now : Timestamp) (taskId : string)
  (updates : Partial.t) (a : TaskQueueAgent) (task0 : AgentTask) :
  get (tasks (queueState a)) taskId = Some task0 ->
  Partial.retryCount updates = None ->
  Partial.maxRetries updates = None ->
  exists t',
    tasks (queueState (snd (handleUpdateTask env now taskId updates a)))
    = set (tasks (queueState a)) taskId t'
    /\ maxRetries t' = maxRetries task0
    /\ (retryCount t' = retryCount task0
        /\ status t' = orDefault (Partial.status updates) (status task0)
        \/ (inject_Z (retryCount task0) < maxRetries task0)%Q
           /\ retryCount t' = retryCount task0 + 1).
Proof.
  intros Hg Hrc Hmax. unfold handleUpdateTask. rewrite Hg. cbv zeta.
  assert (retryCount (assign task0 updates now) = retryCount task0) as Erc
      by (cbn; now rewrite Hrc).
  assert (maxRetries (assign task0 updates now) = maxRetries task0) as Emax
      by (cbn; now rewrite Hmax).
  assert (status (assign task0 updates now)
          = orDefault (Partial.status updates) (status task0)) as Est
      by reflexivity.
  destruct (Partial.status updates) as [[] |];
    try (eexists; split; [reflexivity |]; split; [exact Emax |];
         left; split; [exact Erc | exact Est]).
  destruct (retriesLeft_cases (assign task0 updates now))
    as [[-> Hlt] | [-> Hge]].
  - eexists. split; [reflexivity |]. split; [exact Emax |].
    right. rewrite Erc, Emax in Hlt. split; [exact Hlt |].
    cbn [retryCount with_retryCount]. now rewrite Erc.
  - eexists. split; [reflexivity |]. split; [exact Emax |].
    left. split; [exact Erc | exact Est].
Qed.

(** The task that [handleProcessNext] writes. *)
Lemma processNext_writes (now nowDone : Timestamp)
  (external : Outcome Payload) (a : TaskQueueAgent)
  (key : string) (task0 : AgentTask) (rest : list (string * AgentTask)) :
  pendingTasks (queueState a) = (key, task0) :: rest ->
  exists t',
    tasks (queueState (snd (handleProcessNext now nowDone external a)))
    = set (tasks (queueState a)) key t'
    /\ maxRetries t' = maxRetries task0
    /\ (retryCount t' = retryCount task0
        \/ (inject_Z (retryCount task0) < maxRetries task0)%Q
           /\ retryCount t' = retryCount task0 + 1).
Proof.
  intros Hp. unfold handleProcessNext. rewrite Hp.
  destruct (executeTask _ external) as [r | e].
  - eexists. split; [reflexivity |]. split; [reflexivity |]. now left.
  - match goal with
    | |- context [retriesLeft ?t] =>
        destruct (retriesLeft_cases t) as [[-> Hlt] | [-> Hge]]
    end;
      (eexists; split; [reflexivity |]; split; [reflexivity |]).
    + right. split; [exact Hlt | reflexivity].
    + now left.
Qed.

(** The loop of [handleRetryFailed] keeps the keys, and rewrites the task
    of a key as [retryTask] does when the task can be retried. *)
Lemma retryEach_keys (clock : nat -> Timestamp) (m : Map AgentTask) :
  forall i, keys (retryEach clock i m) = keys m.
Proof.
  unfold keys. induction m as [| [k t] m IH]; intros i; [reflexivity |].
  cbn [retryEach]. destruct (canRetry t); cbn [map fst]; now rewrite IH.
Qed.

Lemma retryEach_get (clock : nat -> Timestamp) (m : Map AgentTask) (k : string) :
  forall i,
  match get m k with
  | Some t =>
      exists j, get (retryEach clock i m) k
                = Some (if canRetry t then retryTask (clock j) t else t)
  | None => get (retryEach clock i m) k = None
  end.
Proof.
  induction m as [| [k' t'] m IH]; intros i; [reflexivity |].
  cbn [get retryEach].
  destruct (canRetry t') eqn:E; cbn [get];
    (destruct (String.eqb k' k);
     [rewrite ?E; first [now exists i | now exists O] | apply IH]).
Qed.

Lemma retryFailed_keys (clock : nat -> Timestamp) (a : TaskQueueAgent) :
  keys (tasks (queueState (snd (handleRetryFailed clock a))))
  = keys (tasks (queueState a)).
Proof. apply retryEach_keys. Qed.

Lemma retryFailed_get (clock : nat -> Timestamp) (a : TaskQueueAgent)
  (k : string) (t : AgentTask) :
  get (tasks (queueState a)) k = Some t ->
  exists j,
    get (tasks (queueState (snd (handleRetryFailed clock a)))) k
    = Some (if canRetry t then retryTask (clock j) t else t).
Proof.
  intros H. pose proof (retryEach_get clock (tasks (queueState a)) k 0) as G.
  rewrite H in G. exact G.
Qed.

Lemma retryFailed_get_none (clock : nat -> Timestamp) (a : TaskQueueAgent)
  (k : string) :
  get (tasks (queueState a)) k = None ->
  get (tasks (queueState (snd (handleRetryFailed clock a)))) k = None.
Proof.
  intros H. pose proof (retryEach_get clock (tasks (queueState a)) k 0) as G.
  rewrite H in G. exact G.
Qed.

(** One admissible operation keeps the keys distinct, keeps every retry
    count less than one above its limit, and lowers none. *)
Lemma step_keeps_bounds (env : Env.Env) (now : Timestamp) (op : Op)
  (a : TaskQueueAgent) :
  NoDup (keys (tasks (queueState a))) ->
  bounded (tasks (queueState a)) ->
  admissible env now op a ->
  NoDup (keys (tasks (queueState (snd (step env now op a)))))
  /\ bounded (tasks (queueState (snd (step env now op a))))
  /\ grown (tasks (queueState a)) (tasks (queueState (snd (step env now op a)))).
Proof.
  intros Hnd Hb Hadm.
  destruct op as [uuid send body | taskId updates | nowDone external | clock];
    cbn [step admissible] in *.
  - destruct Hadm as [Hfresh Hmax].
    assert (tasks (queueState (snd (handleEnqueue env uuid now send body a)))
            = set (tasks (queueState a)) uuid (newTask env uuid now body)) as ->
        by (unfold handleEnqueue; destruct send; reflexivity).
    split; [now apply JsFacts.NoDup_keys_set |]. split.
    + intros k t. destruct (String.eqb_spec uuid k) as [<- | Hne].
      * rewrite JsFacts.get_set_eq. intros [= <-].
        change (inject_Z (retryCount (newTask env uuid now body))) with 0%Q.
        lra.
      * rewrite JsFacts.get_set_ne by exact Hne. apply Hb.
    + intros k t Hk. exists t.
      rewrite JsFacts.get_set_ne by congruence.
      split; [exact Hk | split; [lia | reflexivity]].
  - destruct Hadm as [Hrc Hmax].
    destruct (get (tasks (queueState a)) taskId) as [task0 |] eqn:Hg.
    + destruct (updateTask_writes env now taskId updates a task0 Hg Hrc Hmax)
        as (t' & -> & Hm & Hcases).
      split; [now apply JsFacts.NoDup_keys_set |].
      pose proof (Hb _ _ Hg) as Hb0.
      apply (set_keeps_bounds _ _ task0); try assumption;
        destruct Hcases as [[Hc _] | [Hlt Hc]]; try lia; rewrite Hm.
      * now rewrite Hc.
      * now apply (raised_within (retryCount task0)).
    + unfold handleUpdateTask. rewrite Hg. cbn [snd].
      split; [exact Hnd |]. split; [exact Hb | apply grown_refl].
  - destruct (pendingTasks (queueState a)) as [| [key task0] rest] eqn:Hp.
    + unfold handleProcessNext. rewrite Hp. cbn [snd].
      split; [exact Hnd |]. split; [exact Hb | apply grown_refl].
    + destruct (processNext_writes now nowDone external a _ _ _ Hp)
        as (t' & -> & Hm & Hcases).
      destruct (pendingTasks_head _ _ _ _ Hp) as (before & after & Ht & _).
      assert (get (tasks (queueState a)) key = Some task0) as Hg.
      { apply JsFacts.In_get; [exact Hnd |].
        rewrite Ht. apply in_or_app. right. now left. }
      split; [now apply JsFacts.NoDup_keys_set |].
      pose proof (Hb _ _ Hg) as Hb0.
      apply (set_keeps_bounds _ _ task0); try assumption;
        destruct Hcases as [Hc | [Hlt Hc]]; try lia; rewrite Hm.
      * now rewrite Hc.
      * now apply (raised_within (retryCount task0)).
  - split; [now rewrite retryFailed_keys |]. split.
    + intros k t Hk.
      destruct (get (tasks (queueState a)) k) as [t0 |] eqn:Hg.
      * destruct (retryFailed_get clock a k t0 Hg) as (j & Hj).
        rewrite Hj in Hk. injection Hk as <-.
        pose proof (Hb _ _ Hg) as Hb0.
        destruct (canRetry t0) eqn:E; [| exact Hb0].
        apply canRetry_iff in E as [_ Hlt].
        now apply (raised_within (retryCount t0)).
      * rewrite (retryFailed_get_none clock a k Hg) in Hk. discriminate.
    + intros k t Hg. destruct (retryFailed_get clock a k t Hg) as (j & Hj).
      eexists. split; [exact Hj |].
      destruct (canRetry t); cbn; split; try reflexivity; lia.
Qed.

Lemma run_app (env : Env.Env) (ops1 ops2 : list (Timestamp * Op)) :
  forall (a : TaskQueueAgent),
  run env (ops1 ++ ops2) a = run env ops2 (run env ops1 a).
Proof.
  induction ops1 as [| [now op] ops1 IH]; intros a; [reflexivity | apply IH].
Qed.

Lemma admissibleRun_app (env : Env.Env) (ops1 ops2 : list (Timestamp * Op)) :
  forall (a : TaskQueueAgent),
  admissibleRun env (ops1 ++ ops2) a ->
  admissibleRun env ops1 a /\ admissibleRun env ops2 (run env ops1 a).
Proof.
  induction ops1 as [| [now op] ops1 IH]; intros a H; [now split |].
  cbn in H. destruct H as [H1 H2]. destruct (IH _ H2) as [H3 H4].
  cbn. auto.
Qed.

Lemma run_keeps_bounds (env : Env.Env) (ops : list (Timestamp * Op)) :
  forall (a : TaskQueueAgent),
  NoDup (keys (tasks (queueState a))) ->
  bounded (tasks (queueState a)) ->
  admissibleRun env ops a ->
  NoDup (keys (tasks (queueState (run env ops a))))
  /\ bounded (tasks (queueState (run env ops a)))
  /\ grown (tasks (queueState a)) (tasks (queueState (run env ops a))).
Proof.
  induction ops as [| [now op] ops IH]; intros a Hnd Hb Hadm.
  - cbn. split; [exact Hnd |]. split; [exact Hb | apply grown_refl].
  - cbn in Hadm. destruct Hadm as [H1 H2].
    destruct (step_keeps_bounds env now op a Hnd Hb H1) as (Hnd1 & Hb1 & Hg1).
    destruct (IH _ Hnd1 Hb1 H2) as (Hnd2 & Hb2 & Hg2).
    cbn [run]. split; [exact Hnd2 |]. split; [exact Hb2 |].
    eapply grown_trans; eassumption.
Qed.

(** A failed task whose retries are used up is not set to retrying by any
    operation that does not ask for it. *)
Lemma exhausted_stays (env : Env.Env) (now : Timestamp) (op : Op)
  (a : TaskQueueAgent) (k : string) (t : AgentTask) :
  NoDup (keys (tasks (queueState a))) ->
  get (tasks (queueState a)) k = Some t ->
  status t = failed ->
  (maxRetries t <= inject_Z (retryCount t))%Q ->
  admissible env now op a ->
  (forall taskId updates, op = UpdateTask taskId updates ->
                          Partial.status updates <> Some retrying) ->
  exists t',
    get (tasks (queueState (snd (step env now op a)))) k = Some t'
    /\ status t' <> retrying
    /\ retryCount t' = retryCount t.
Proof.
  intros Hnd Hg Hs Hrc Hadm Hreq.
  destruct op as [uuid send body | taskId updates | nowDone external | clock];
    cbn [step admissible] in *.
  - destruct Hadm as [Hfresh _]. exists t.
    assert (tasks (queueState (snd (handleEnqueue env uuid now send body a)))
            = set (tasks (queueState a)) uuid (newTask env uuid now body)) as ->
        by (unfold handleEnqueue; destruct send; reflexivity).
    rewrite JsFacts.get_set_ne by congruence.
    split; [exact Hg | split; [congruence | reflexivity]].
  - destruct Hadm as [Hu1 Hu2].
    destruct (get (tasks (queueState a)) taskId) as [task0 |] eqn:Hg0.
    + destruct (updateTask_writes env now taskId updates a task0 Hg0 Hu1 Hu2)
        as (t' & -> & Hm & Hcases).
      destruct (String.eqb_spec taskId k) as [-> | Hne].
      * assert (task0 = t) as -> by congruence.
        exists t'. rewrite JsFacts.get_set_eq. split; [reflexivity |].
        destruct Hcases as [[Hc Hst] | [Hlt _]];
          [| exfalso; apply (Qle_not_lt _ _ Hrc); exact Hlt].
        split; [| exact Hc]. rewrite Hst.
        specialize (Hreq k updates eq_refl).
        destruct (Partial.status updates) as [s |]; cbn; congruence.
      * exists t. rewrite JsFacts.get_set_ne by exact Hne.
        split; [exact Hg | split; [congruence | reflexivity]].
    + unfold handleUpdateTask. rewrite Hg0. cbn [snd]. exists t.
      split; [exact Hg | split; [congruence | reflexivity]].
  - destruct (pendingTasks (queueState a)) as [| [key task0] rest] eqn:Hp.
    + unfold handleProcessNext. rewrite Hp. cbn [snd]. exists t.
      split; [exact Hg | split; [congruence | reflexivity]].
    + destruct (processNext_writes now nowDone external a _ _ _ Hp)
        as (t' & -> & _).
      destruct (pendingTasks_head _ _ _ _ Hp) as (before & after & Ht & Hr & _).
      assert (get (tasks (queueState a)) key = Some task0) as Hg0.
      { apply JsFacts.In_get; [exact Hnd |].
        rewrite Ht. apply in_or_app. right. now left. }
      assert (key <> k) as Hne.
      { intros ->. assert (task0 = t) as -> by congruence.
        apply isRunnable_iff in Hr. destruct Hr; congruence. }
      exists t. rewrite JsFacts.get_set_ne by exact Hne.
      split; [exact Hg | split; [congruence | reflexivity]].
  - destruct (retryFailed_get clock a k t Hg) as (j & Hj).
    exists t. rewrite Hj.
    assert (canRetry t = false) as ->
        by (apply canRetry_false_iff; now right).
    split; [reflexivity | split; [congruence | reflexivity]].
Qed.

(** An update request that writes [retryCount] lowers it, or raises it
    above the limit; and with no such request, a retry limit that is not a
    whole number is passed by the retry count: with the limit 2.5 the third
    failure finds 2 below the limit and raises the count to 3. *)
Lemma retryCount_rewrite_counterexample :
  option_map retryCount (get (tasks (queueState queueOneRetrying)) "t1") = Some 1
  /\ option_map retryCount
       (get (tasks (queueState
                      (snd (step someEnv 70
                              (UpdateTask "t1" (rewriteRetryCount 0))
                              queueOneRetrying)))) "t1")
     = Some 0
  /\ option_map (fun t => (retryCount t, maxRetries t))
       (get (tasks (queueState
                      (snd (step someEnv 70
                              (UpdateTask "t1" (rewriteRetryCount 9))
                              queueOneRetrying)))) "t1")
     = Some (9, 3%Q)
  /\ admissibleRun someEnv fractionalScenario initial
  /\ option_map (fun t => (status t, retryCount t, maxRetries t))
       (get (tasks (queueState (run someEnv fractionalScenario initial))) "t1")
     = Some (retrying, 3, (5 # 2)%Q)
  /\ ~ (inject_Z 3 <= 5 # 2)%Q.
Proof.
  split; [reflexivity |]. split; [reflexivity |]. split; [reflexivity |].
  split; [cbn; repeat split; discriminate |].
  split; [reflexivity |]. intros H. apply (H eq_refl).
Qed.

(** C5, amended.  Take a run of enqueue, update, process-next and
    retry-failed operations in which every new identifier is fresh, every
    task is created with a retry limit that is not negative, and no update
    request carries [retryCount] or [maxRetries], from a state in which
    every retry count is less than one above its limit.  After every
    operation of the run every retry count is less than one above its
    limit, hence within the limit when the limit is a whole number as the
    retry count is; and every task then present is present at the end with
    a retry count that is not lower and the same limit.  And one such operation, other than an
    update that asks for status retrying, leaves a failed task whose retry
    count has reached its limit with a status other than retrying and the
    same retry count. *)
Theorem retryCount_bounds
  (env : Env.Env) (ops : list (Timestamp * Op)) (a : TaskQueueAgent) :
  NoDup (keys (tasks (queueState a))) ->
  bounded (tasks (queueState a)) ->
  admissibleRun env ops a ->
  (forall ops1 ops2, ops = ops1 ++ ops2 ->
     (forall k t, get (tasks (queueState (run env ops1 a))) k = Some t ->
        (inject_Z (retryCount t) < maxRetries t + 1)%Q
        /\ (forall n, (maxRetries t == inject_Z n)%Q -> retryCount t <= n))
     /\ grown (tasks (queueState a)) (tasks (queueState (run env ops1 a)))
     /\ grown (tasks (queueState (run env ops1 a)))
              (tasks (queueState (run env ops a))))
  /\ (forall now op k t,
      get (tasks (queueState a)) k = Some t ->
      status t = failed ->
      (maxRetries t <= inject_Z (retryCount t))%Q ->
      admissible env now op a ->
      (forall taskId updates, op = UpdateTask taskId updates ->
                              Partial.status updates <> Some retrying) ->
      exists t',
        get (tasks (queueState (snd (step env now op a)))) k = Some t'
        /\ status t' <> retrying
        /\ retryCount t' = retryCount t).
Proof.
  intros Hnd Hb Hadm. split.
  - intros ops1 ops2 ->.
    apply admissibleRun_app in Hadm as [H1 H2].
    destruct (run_keeps_bounds env ops1 a Hnd Hb H1) as (Hnd1 & Hb1 & Hg1).
    destruct (run_keeps_bounds env ops2 _ Hnd1 Hb1 H2) as (_ & _ & Hg2).
    rewrite run_app. split; [| auto].
    intros k t Hk. pose proof (Hb1 k t Hk) as Hlt. split; [exact Hlt |].
    intros n Hn.
    assert (Hz : (inject_Z (retryCount t) < inject_Z (n + 1))%Q)
      by (rewrite inject_Z_plus; change (inject_Z 1) with 1%Q; lra).
    rewrite <- Zlt_Qlt in Hz. lia.
  - intros now op k t. now apply exhausted_stays.
Qed.

Lemma retryCount_bounds_witness :
  admissibleRun someEnv retryScenario initial
  /\ option_map (fun t => (status t, retryCount t, maxRetries t))
       (get (tasks (queueState (run someEnv retryScenario initial))) "t1")
     = Some (failed, 3, 3%Q)
  /\ forall k t,
       get (tasks (queueState (run someEnv retryScenario initial))) k = Some t ->
       (inject_Z (retryCount t) < maxRetries t + 1)%Q
       /\ (forall n, (maxRetries t == inject_Z n)%Q -> retryCount t <= n).
Proof.
  assert (Hadm : admissibleRun someEnv retryScenario initial).
  { cbn. repeat split; discriminate. }
  split; [exact Hadm |]. split; [reflexivity |].
  refine (proj1 (proj1 (retryCount_bounds someEnv retryScenario initial
                          _ _ Hadm) retryScenario [] _)).
  - constructor.
  - intros k t H. discriminate H.
  - symmetry. apply app_nil_r.
Defined.

End TaskQueueSpec.

From Stdlib Require Permutation Sorted.

(** ** More on sorting, maps and sets *)
Module JsMoreFacts.
Import Js.

Lemma insert_perm {A : Type} (cmp : A -> A -> Z) (x : A) (l : list A) :
  Permutation.Permutation (insert cmp x l) (x :: l).
Proof.
  induction l as [| y l IH]; cbn; [apply Permutation.Permutation_refl |].
  destruct (cmp x y <=? 0); [apply Permutation.Permutation_refl |].
  eapply Permutation.perm_trans;
    [apply Permutation.perm_skip; exact IH | apply Permutation.perm_swap].
Qed.

Lemma sort_perm {A : Type} (cmp : A -> A -> Z) (l : list A) :
  Permutation.Permutation (sort cmp l) l.
Proof.
  induction l as [| x l IH]; cbn; [apply Permutation.perm_nil |].
  eapply Permutation.perm_trans;
    [apply insert_perm | apply Permutation.perm_skip; exact IH].
Qed.

Lemma sort_length {A : Type} (cmp : A -> A -> Z) (l : list A) :
  List.length (sort cmp l) = List.length l.
Proof. apply Permutation.Permutation_length, sort_perm. Qed.

Lemma sort_ext {A : Type} (cmp1 cmp2 : A -> A -> Z) (l : list A) :
  (forall a b, cmp1 a b = cmp2 a b) -> sort cmp1 l = sort cmp2 l.
Proof.
  intros H. induction l as [| x l IH]; cbn; [reflexivity |].
  rewrite IH. generalize (sort cmp2 l) as r.
  induction r as [| y r IHr]; cbn; [reflexivity |].
  rewrite H, IHr. reflexivity.
Qed.

Section ByWeight.
Context {A : Type} (w : A -> Z).

Lemma insert_sorted (x : A) (l : list A) :
  Sorted.StronglySorted (fun a b => w a <= w b) l ->
  Sorted.StronglySorted (fun a b => w a <= w b)
    (insert (fun a b => w a - w b) x l).
Proof.
  induction 1 as [| y l Hs IH Hy]; cbn.
  - repeat constructor.
  - destruct (Z.leb_spec (w x - w y) 0) as [Hle | Hgt].
    + constructor; [now constructor |].
      constructor; [lia |].
      rewrite Forall_forall in Hy |- *. intros z Hz. specialize (Hy z Hz). lia.
    + constructor; [exact IH |].
      rewrite Forall_forall in Hy |- *. intros z Hz.
      apply (Permutation.Permutation_in _ (insert_perm _ x l)) in Hz.
      destruct Hz as [<- | Hz]; [lia | now apply Hy].
Qed.

Lemma sort_sorted (l : list A) :
  Sorted.StronglySorted (fun a b => w a <= w b) (sort (fun a b => w a - w b) l).
Proof.
  induction l as [| x l IH]; cbn; [constructor | now apply insert_sorted].
Qed.

(** Sorting an array that is in order leaves it as it is. *)
Lemma sort_sorted_id (l : list A) :
  Sorted.StronglySorted (fun a b => w a <= w b) l ->
  sort (fun a b => w a - w b) l = l.
Proof.
  induction 1 as [| x l Hs IH Hx]; [reflexivity |].
  cbn. rewrite IH. destruct l as [| y l]; [reflexivity |].
  cbn. inversion Hx as [| ? ? Hxy _]; subst.
  destruct (Z.leb_spec (w x - w y) 0); [reflexivity | lia].
Qed.

End ByWeight.

(** *** Arrays in order *)
Lemma sorted_weaken {A : Type} (R R' : A -> A -> Prop) (l : list A) :
  (forall a b, R a b -> R' a b) ->
  Sorted.StronglySorted R l -> Sorted.StronglySorted R' l.
Proof.
  intros H. induction 1 as [| x l Hs IH Hx]; constructor; [exact IH |].
  rewrite Forall_forall in Hx |- *. auto.
Qed.

Lemma sorted_split {A : Type} (R : A -> A -> Prop) (n : nat) (l : list A) :
  Sorted.StronglySorted R l ->
  forall x y, In x (firstn n l) -> In y (skipn n l) -> R x y.
Proof.
  intros Hs. revert n. induction Hs as [| z l Hs IH Hz]; intros n x y Hx Hy.
  - destruct n; destruct Hx.
  - destruct n as [| n]; [destruct Hx |].
    cbn in Hx, Hy. destruct Hx as [<- | Hx].
    + rewrite Forall_forall in Hz. apply Hz.
      rewrite <- (firstn_skipn n l). apply in_or_app. now right.
    + now apply (IH n).
Qed.

(** *** Sizes and keys of a map after [set] *)
Lemma keys_In_get {V : Type} (m : Map V) (k : string) :
  In k (keys m) <-> get m k <> None.
Proof.
  pose proof (JsFacts.get_None_keys m k) as H.
  destruct (get m k) as [v |]; split; intros H1; try congruence.
  - destruct (in_dec string_dec k (keys m)) as [Hin | Hnin]; [exact Hin |].
    apply H in Hnin. discriminate.
  - exfalso. now apply (proj1 H).
Qed.

Lemma keys_set_incl {V : Type} (m : Map V) (k : string) (v : V) :
  incl (keys m) (keys (set m k v)).
Proof.
  intros x Hx. destruct (get m k) as [v0 |] eqn:Hg.
  - now rewrite (JsFacts.keys_set_present m k v v0 Hg).
  - rewrite (JsFacts.keys_set_absent m k v Hg). apply in_or_app. now left.
Qed.

Lemma size_set_present {V : Type} (m : Map V) (k : string) (v : V) :
  In k (keys m) -> size (set m k v) = size m.
Proof.
  intros Hin. apply keys_In_get in Hin.
  destruct (get m k) as [v0 |] eqn:Hg; [| congruence].
  unfold size. rewrite <- (length_map fst (set m k v)), <- (length_map fst m).
  fold (keys (set m k v)). fold (keys m).
  now rewrite (JsFacts.keys_set_present m k v v0 Hg).
Qed.

Lemma size_set_absent {V : Type} (m : Map V) (k : string) (v : V) :
  get m k = None -> size (set m k v) = S (size m).
Proof.
  intros Hg.
  unfold size. rewrite <- (length_map fst (set m k v)), <- (length_map fst m).
  fold (keys (set m k v)). fold (keys m).
  rewrite (JsFacts.keys_set_absent m k v Hg), length_app. cbn. lia.
Qed.

(** A map read in another order gives the same values. *)
Lemma set_absent_app {V : Type} (m : Map V) (k : string) (v : V) :
  get m k = None -> set m k v = m ++ [(k, v)].
Proof.
  induction m as [| [k' v'] m IH]; cbn; [reflexivity |].
  destruct (String.eqb k' k); [discriminate |].
  intros H. now rewrite IH.
Qed.

Lemma get_perm {V : Type} (m m' : Map V) (k : string) :
  NoDup (keys m) -> Permutation.Permutation m m' -> get m k = get m' k.
Proof.
  intros Hnd Hp.
  assert (Hnd' : NoDup (keys m')).
  { unfold keys in *. eapply Permutation.Permutation_NoDup; [| exact Hnd].
    now apply Permutation.Permutation_map. }
  destruct (get m k) as [v |] eqn:Hg.
  - symmetry. apply JsFacts.In_get; [exact Hnd' |].
    apply (Permutation.Permutation_in _ Hp). now apply JsFacts.get_In.
  - destruct (get m' k) as [v' |] eqn:Hg'; [| reflexivity].
    apply JsFacts.get_In in Hg'.
    apply (Permutation.Permutation_in _ (Permutation.Permutation_sym Hp)) in Hg'.
    apply (JsFacts.In_get _ _ _ Hnd) in Hg'. congruence.
Qed.

Lemma has_In (s : StringSet) (x : string) : has s x = true <-> In x s.
Proof.
  unfold has. rewrite existsb_exists. split.
  - intros (y & Hy & He). apply String.eqb_eq in He. now subst.
  - intros H. exists x. split; [exact H | apply String.eqb_refl].
Qed.

End JsMoreFacts.

(** ** The task queue: reads, routing, persistence and retries *)
Module TaskQueueMore.
Import Js TaskQueue TaskQueueFetch.

(** *** What each operation does to the keys, the size and the counters *)

Lemma processNext_cases (now nowDone : Timestamp)
  (external : Outcome Payload) (a : TaskQueueAgent) :
  handleProcessNext now nowDone external a = (NoPendingTasks, a)
  \/ exists key task0 rest t' st',
      pendingTasks (queueState a) = (key, task0) :: rest
      /\ In key (keys (tasks (queueState a)))
      /\ handleProcessNext now nowDone external a
         = (Processed t',
            {| queueState :=
                 {| tasks := set (tasks (queueState a)) key t';
                    processing :=
                      delete (add (processing (queueState a)) (id task0))
                        (id task0);
                    stats := st' |};
               alarm := alarm a |})
      /\ id t' = id task0
      /\ (st' = incCompleted (stats (queueState a))
          \/ st' = addRetried 1 (stats (queueState a))
          \/ st' = incFailed (stats (queueState a))).
Proof.
  unfold handleProcessNext.
  destruct (pendingTasks (queueState a)) as [| [key task0] rest] eqn:Hp;
    [now left | right].
  assert (Hin : In key (keys (tasks (queueState a)))).
  { destruct (TaskQueueSpec.pendingTasks_head _ _ _ _ Hp)
      as (before & after & Ht & _).
    rewrite Ht. unfold keys. rewrite map_app. apply in_or_app. right. now left. }
  exists key, task0, rest.
  destruct (executeTask _ external) as [r | e].
  - eexists. eexists. split; [reflexivity |]. split; [exact Hin |].
    split; [reflexivity |]. split; [reflexivity |]. now left.
  - match goal with
    | |- context [retriesLeft ?t] => destruct (retriesLeft t)
    end;
      (eexists; eexists; split; [reflexivity |]; split; [exact Hin |];
       split; [reflexivity |]; split; [reflexivity |]; auto).
Qed.

Lemma updateTask_cases (env : Env.Env) (now : Timestamp) (taskId : string)
  (updates : Partial.t) (a : TaskQueueAgent) :
  handleUpdateTask env now taskId updates a = (TaskNotFound, a)
  \/ exists t' pr st' al,
      In taskId (keys (tasks (queueState a)))
      /\ handleUpdateTask env now taskId updates a
         = (Updated t',
            {| queueState :=
                 {| tasks := set (tasks (queueState a)) taskId t';
                    processing := pr; stats := st' |};
               alarm := al |})
      /\ (st' = stats (queueState a)
          \/ st' = incCompleted (stats (queueState a))
          \/ st' = incFailed (stats (queueState a))
          \/ st' = addRetried 1 (incFailed (stats (queueState a)))).
Proof.
  unfold handleUpdateTask.
  destruct (get (tasks (queueState a)) taskId) as [task0 |] eqn:Hg;
    [right | now left].
  assert (Hin : In taskId (keys (tasks (queueState a))))
    by (apply JsMoreFacts.keys_In_get; congruence).
  cbv zeta.
  destruct (Partial.status updates) as [[] |];
    try (do 4 eexists; split; [exact Hin |]; split; [reflexivity |]; auto).
  destruct (retriesLeft (assign task0 updates now));
    (do 4 eexists; split; [exact Hin |]; split; [reflexivity |]; auto).
Qed.

(** No operation removes a task. *)
Lemma step_keeps_keys (env : Env.Env) (now : Timestamp) (op : Op)
  (a : TaskQueueAgent) :
  incl (keys (tasks (queueState a)))
       (keys (tasks (queueState (snd (step env now op a))))).
Proof.
  destruct op as [uuid send body | taskId updates | nowDone external | clock];
    cbn [step].
  - unfold handleEnqueue.
    destruct send; cbn [snd queueState tasks]; apply JsMoreFacts.keys_set_incl.
  - destruct (updateTask_cases env now taskId updates a)
      as [-> | (t' & pr & st' & al & _ & -> & _)]; cbn [snd queueState tasks];
      [apply incl_refl | apply JsMoreFacts.keys_set_incl].
  - destruct (processNext_cases now nowDone external a)
      as [-> | (key & task0 & rest & t' & st' & _ & _ & -> & _)];
      cbn [snd queueState tasks];
      [apply incl_refl | apply JsMoreFacts.keys_set_incl].
  - rewrite TaskQueueSpec.retryFailed_keys. apply incl_refl.
Qed.

(** X1.  Whatever the hand-over to the queue producer gives, the task of an
    enqueue request can be read back under its identifier right away, the
    answer for every other identifier is what it was, and an identifier no
    task has is answered with task-not-found. *)
Theorem enqueue_then_getTask
  (env : Env.Env) (uuid : string) (now : Timestamp) (send : Outcome unit)
  (body : Partial.t) (a : TaskQueueAgent) :
  handleGetTask uuid (snd (handleEnqueue env uuid now send body a))
  = Task (newTask env uuid now body)
  /\ (forall other, other <> uuid ->
      handleGetTask other (snd (handleEnqueue env uuid now send body a))
      = handleGetTask other a)
  /\ (forall other, ~ In other (keys (tasks (queueState a))) ->
      handleGetTask other a = Answer TaskNotFound).
Proof.
  assert (Ht : tasks (queueState (snd (handleEnqueue env uuid now send body a)))
               = set (tasks (queueState a)) uuid (newTask env uuid now body))
    by (unfold handleEnqueue; destruct send; reflexivity).
  unfold handleGetTask. rewrite Ht. split; [| split].
  - now rewrite JsFacts.get_set_eq.
  - intros other Hne. rewrite JsFacts.get_set_ne by congruence. reflexivity.
  - intros other Hnin. apply JsFacts.get_None_keys in Hnin. now rewrite Hnin.
Qed.

Lemma step_size (env : Env.Env) (now : Timestamp) (op : Op)
  (a : TaskQueueAgent) :
  match op with
  | Enqueue uuid _ _ => get (tasks (queueState a)) uuid = None
  | _ => True
  end ->
  Z.of_nat (size (tasks (queueState (snd (step env now op a)))))
  - totalEnqueued (stats (queueState (snd (step env now op a))))
  = Z.of_nat (size (tasks (queueState a)))
    - totalEnqueued (stats (queueState a)).
Proof.
  destruct op as [uuid send body | taskId updates | nowDone external | clock];
    cbn [step]; intros Hfresh.
  - unfold handleEnqueue.
    destruct send; cbn [snd queueState tasks stats incEnqueued totalEnqueued newTask id];
      rewrite (JsMoreFacts.size_set_absent _ _ _ Hfresh); lia.
  - destruct (updateTask_cases env now taskId updates a)
      as [-> | (t' & pr & st' & al & Hin & -> & Hst)];
      cbn [snd queueState tasks stats]; [reflexivity |].
    rewrite (JsMoreFacts.size_set_present _ _ _ Hin).
    destruct Hst as [-> | [-> | [-> | ->]]]; reflexivity.
  - destruct (processNext_cases now nowDone external a)
      as [-> | (key & task0 & rest & t' & st' & _ & Hin & -> & _ & Hst)];
      cbn [snd queueState tasks stats]; [reflexivity |].
    rewrite (JsMoreFacts.size_set_present _ _ _ Hin).
    destruct Hst as [-> | [-> | ->]]; reflexivity.
  - pose proof (TaskQueueSpec.retryFailed_keys clock a) as Hk.
    unfold keys in Hk. apply (f_equal (@List.length string)) in Hk.
    rewrite !length_map in Hk. unfold size. rewrite Hk. reflexivity.
Qed.

(** X2.  In a run in which every new identifier is fresh, the number of
    tasks that [handleStatus] reports as total and the counter
    [totalEnqueued] move together: their difference at the end is what it
    was at the start (0 for an agent that starts empty). *)
Theorem status_total_follows_totalEnqueued
  (env : Env.Env) (ops : list (Timestamp * Op)) (a : TaskQueueAgent) :
  freshIds env ops a ->
  Z.of_nat (Counts.total (queue (handleStatus (run env ops a))))
  - totalEnqueued (reportedStats (handleStatus (run env ops a)))
  = Z.of_nat (Counts.total (queue (handleStatus a)))
    - totalEnqueued (reportedStats (handleStatus a)).
Proof.
  cbn [handleStatus queue Counts.total reportedStats].
  revert a. induction ops as [| [now op] ops IH]; intros a Hf; [reflexivity |].
  cbn [freshIds] in Hf. destruct Hf as [Hop Hrest].
  cbn [run]. rewrite (IH _ Hrest). apply step_size.
  destruct op; auto.
Qed.

Lemma step_counters (env : Env.Env) (now : Timestamp) (op : Op)
  (a : TaskQueueAgent) :
  let s := stats (queueState a) in
  let s' := stats (queueState (snd (step env now op a))) in
  totalEnqueued s <= totalEnqueued s'
  /\ totalCompleted s <= totalCompleted s'
  /\ totalFailed s <= totalFailed s'
  /\ totalRetried s <= totalRetried s'.
Proof.
  destruct op as [uuid send body | taskId updates | nowDone external | clock];
    cbn [step].
  - unfold handleEnqueue. destruct send; cbn; lia.
  - destruct (updateTask_cases env now taskId updates a)
      as [-> | (t' & pr & st' & al & _ & -> & Hst)];
      cbn [snd queueState stats]; [lia |].
    destruct Hst as [-> | [-> | [-> | ->]]]; cbn; lia.
  - destruct (processNext_cases now nowDone external a)
      as [-> | (key & task0 & rest & t' & st' & _ & _ & -> & _ & Hst)];
      cbn [snd queueState stats]; [lia |].
    destruct Hst as [-> | [-> | ->]]; cbn; lia.
  - cbn. lia.
Qed.

(** X3.  Along every run of scheduler operations no lifetime counter goes
    down and no task disappears from the map. *)
Theorem counters_and_tasks_only_grow
  (env : Env.Env) (ops : list (Timestamp * Op)) (a : TaskQueueAgent) :
  let s := stats (queueState a) in
  let s' := stats (queueState (run env ops a)) in
  totalEnqueued s <= totalEnqueued s'
  /\ totalCompleted s <= totalCompleted s'
  /\ totalFailed s <= totalFailed s'
  /\ totalRetried s <= totalRetried s'
  /\ incl (keys (tasks (queueState a))) (keys (tasks (queueState (run env ops a)))).
Proof.
  revert a. induction ops as [| [now op] ops IH]; intros a.
  - cbn. repeat split; try lia. apply incl_refl.
  - cbn [run]. specialize (IH (snd (step env now op a))). cbv zeta in IH.
    destruct IH as (H1 & H2 & H3 & H4 & H5).
    destruct (step_counters env now op a) as (G1 & G2 & G3 & G4).
    pose proof (step_keeps_keys env now op a) as G5.
    cbv zeta. repeat split; try lia.
    eapply incl_tran; eassumption.
Qed.

Lemma status_total_follows_totalEnqueued_witness :
  freshIds Samples.someEnv Samples.retryScenario initial
  /\ Z.of_nat (Counts.total (queue (handleStatus
                 (run Samples.someEnv Samples.retryScenario initial))))
     = totalEnqueued (reportedStats (handleStatus
                 (run Samples.someEnv Samples.retryScenario initial))).
Proof.
  assert (Hf : freshIds Samples.someEnv Samples.retryScenario initial)
    by (cbn; repeat split).
  split; [exact Hf |].
  pose proof (status_total_follows_totalEnqueued Samples.someEnv
                Samples.retryScenario initial Hf) as H.
  cbn in H |- *. lia.
Defined.



(** X5.  Whatever the request, [fetch] removes no task from the map; a GET
    leaves the agent exactly as it is, and so does a request that is
    answered as matching no route. *)
Theorem fetch_keeps_tasks
  (env : Env.Env) (now : Timestamp) (o : Outside) (req : Request)
  (a : TaskQueueAgent) :
  incl (keys (tasks (queueState a)))
       (keys (tasks (queueState (snd (fetch env now o req a)))))
  /\ (method req = "GET"%string -> snd (fetch env now o req a) = a)
  /\ (fst (fetch env now o req a) = RouteNotFound ->
      snd (fetch env now o req a) = a).
Proof.
  pose proof (step_keeps_keys env now
                (ProcessNext (nowDone o) (external o)) a) as Hp.
  pose proof (step_keeps_keys env now (RetryFailed (clock o)) a) as Hr.
  cbn [step] in Hp, Hr.
  assert (Hothers :
    forall r : Reply * TaskQueueAgent,
      r = (if String.eqb (path req) "/process" && String.eqb (method req) "POST"
           then (Answer (fst (handleProcessNext now (nowDone o) (external o) a)),
                 snd (handleProcessNext now (nowDone o) (external o) a))
           else if String.eqb (path req) "/trigger"
                   && String.eqb (method req) "POST"
           then (Answer (fst (handleProcessNext now (nowDone o) (external o) a)),
                 snd (handleProcessNext now (nowDone o) (external o) a))
           else if String.eqb (path req) "/retry-failed"
                   && String.eqb (method req) "POST"
           then (Answer (fst (handleRetryFailed (clock o) a)),
                 snd (handleRetryFailed (clock o) a))
           else (RouteNotFound, a)) ->
      incl (keys (tasks (queueState a))) (keys (tasks (queueState (snd r))))
      /\ (method req = "GET"%string -> snd r = a)
      /\ (fst r = RouteNotFound -> snd r = a)).
  { intros r ->.
    destruct (String.eqb_spec (method req) "POST") as [Hm | Hm].
    - rewrite !andb_true_r.
      destruct (String.eqb (path req) "/process");
        [| destruct (String.eqb (path req) "/trigger");
           [| destruct (String.eqb (path req) "/retry-failed")]];
        cbn [fst snd];
        (split; [first [exact Hp | exact Hr | apply incl_refl] |]);
        (split; [intros Hg; rewrite Hg in Hm; discriminate |]);
        first [discriminate | reflexivity].
    - rewrite !andb_false_r. cbn [fst snd].
      split; [apply incl_refl |]. split; reflexivity. }
  unfold fetch. cbv zeta.
  destruct (String.eqb (path req) "/enqueue" && String.eqb (method req) "POST")
    eqn:He.
  - apply andb_prop in He as [_ Hm]. apply String.eqb_eq in Hm.
    destruct (json req) as [body | e]; cbn [fst snd].
    + split; [exact (step_keeps_keys env now (Enqueue (uuid o) (send o) body) a) |].
      split; [intros Hg; rewrite Hg in Hm; discriminate | discriminate].
    + split; [apply incl_refl |]. split; reflexivity.
  - destruct (String.eqb (path req) "/status" && String.eqb (method req) "GET").
    + cbn [fst snd]. split; [apply incl_refl |]. split; reflexivity.
    + destruct (taskMatch (path req)) as [taskId |]; [| now apply Hothers].
      destruct (String.eqb_spec (method req) "GET") as [Hg | Hg].
      * cbn [fst snd]. split; [apply incl_refl |]. split; reflexivity.
      * destruct (String.eqb (method req) "PATCH"); [| now apply Hothers].
        destruct (json req) as [body | e]; cbn [fst snd].
        -- split; [exact (step_keeps_keys env now (UpdateTask taskId body) a) |].
           split; [intros Hm; contradiction | discriminate].
        -- split; [apply incl_refl |]. split; reflexivity.
Qed.

(** *** A task whose handler keeps failing *)

Lemma lone_filter (f : AgentTask -> bool) (m : Map AgentTask)
  (key : string) (t : AgentTask) :
  NoDup (keys m) ->
  get m key = Some t ->
  (forall k u, get m k = Some u -> k <> key -> f u = false) ->
  f t = true ->
  filter (fun e => f (snd e)) m = [(key, t)].
Proof.
  unfold keys. induction m as [| [k u] m IH]; cbn; [discriminate |].
  intros Hnd Hg Hothers Ht.
  inversion Hnd as [| ? ? Hnotin Hnd']; subst.
  destruct (String.eqb_spec k key) as [-> | Hne].
  - injection Hg as ->. rewrite Ht. f_equal.
    assert (Hnone : forall e, In e m -> f (snd e) = false).
    { intros [k' u'] Hin. cbn.
      assert (k' <> key) as Hk'
          by (intros ->; apply Hnotin; change key with (fst (key, u'));
              now apply in_map).
      apply (Hothers k' u'); [| exact Hk'].
      destruct (String.eqb_spec key k'); [congruence |].
      now apply JsFacts.In_get. }
    clear - Hnone. induction m as [| e m IHm]; [reflexivity |].
    cbn. rewrite (Hnone e (or_introl eq_refl)). apply IHm.
    intros e' He'. apply Hnone. now right.
  - assert (f u = false) as ->.
    { apply (Hothers k u); [| exact Hne]. now rewrite String.eqb_refl. }
    apply IH; try assumption.
    intros k' u' Hg' Hk'. apply (Hothers k' u'); [| exact Hk'].
    destruct (String.eqb_spec k k') as [<- | _]; [| exact Hg'].
    exfalso. apply Hnotin. change k with (fst (k, u')).
    apply in_map. now apply JsFacts.get_In.
Qed.

Lemma none_runnable (q : QueueState) :
  NoDup (keys (tasks q)) ->
  (forall k u, get (tasks q) k = Some u -> isRunnable u = false) ->
  pendingTasks q = [].
Proof.
  intros Hnd H. apply TaskQueueSpec.pendingTasks_nil.
  intros [k u] Hin. cbn. apply (H k). now apply JsFacts.In_get.
Qed.

(** One failing [handleProcessNext] on a queue whose only task that can run
    is the one under [key]. *)
Lemma failing_step (now nowDone : Timestamp) (e : Thrown)
  (a : TaskQueueAgent) (key : string) (t : AgentTask) :
  NoDup (keys (tasks (queueState a))) ->
  get (tasks (queueState a)) key = Some t ->
  (forall k u, get (tasks (queueState a)) k = Some u -> k <> key ->
               isRunnable u = false) ->
  isRunnable t = true ->
  callsOut (type t) = true ->
  let a' := snd (handleProcessNext now nowDone (Threw e) a) in
  NoDup (keys (tasks (queueState a')))
  /\ (forall k, k <> key ->
      get (tasks (queueState a')) k = get (tasks (queueState a)) k)
  /\ exists t',
      get (tasks (queueState a')) key = Some t'
      /\ type t' = type t
      /\ maxRetries t' = maxRetries t
      /\ ((inject_Z (retryCount t) < maxRetries t)%Q
          /\ status t' = retrying
          /\ retryCount t' = retryCount t + 1
          /\ totalRetried (stats (queueState a'))
             = totalRetried (stats (queueState a)) + 1
          /\ totalFailed (stats (queueState a'))
             = totalFailed (stats (queueState a))
          \/ (maxRetries t <= inject_Z (retryCount t))%Q
             /\ status t' = failed
             /\ retryCount t' = retryCount t
             /\ totalRetried (stats (queueState a'))
                = totalRetried (stats (queueState a))
             /\ totalFailed (stats (queueState a'))
                = totalFailed (stats (queueState a)) + 1).
Proof.
  intros Hnd Hg Hothers Hr Hc a'. subst a'.
  assert (Hp : pendingTasks (queueState a) = [(key, t)]).
  { unfold pendingTasks.
    rewrite (lone_filter isRunnable _ key t Hnd Hg Hothers Hr). reflexivity. }
  unfold handleProcessNext. rewrite Hp.
  assert (Hx : executeTask (with_updatedAt now (with_status running t)) (Threw e)
               = Threw e).
  { unfold executeTask. cbn [with_updatedAt with_status type].
    unfold callsOut in Hc. destruct (type t); try reflexivity; discriminate. }
  rewrite Hx.
  match goal with
  | |- context [retriesLeft ?u] =>
      destruct (TaskQueueSpec.retriesLeft_cases u) as [[-> Hlt] | [-> Hge]]
  end;
    cbn [snd queueState tasks stats];
    (split; [now apply JsFacts.NoDup_keys_set |]);
    (split; [intros k Hk; apply JsFacts.get_set_ne; congruence |]);
    (eexists; split; [apply JsFacts.get_set_eq |]);
    (split; [reflexivity |]); (split; [reflexivity |]).
  - left. split; [exact Hlt |]. cbn. repeat split; lia.
  - right. split; [exact Hge |]. cbn. repeat split; lia.
Qed.

Lemma failing_run (env : Env.Env) (n : nat) :
  forall (ops : list (Timestamp * Op)) (a : TaskQueueAgent)
         (key : string) (t : AgentTask),
  NoDup (keys (tasks (queueState a))) ->
  get (tasks (queueState a)) key = Some t ->
  (forall k u, get (tasks (queueState a)) k = Some u -> k <> key ->
               isRunnable u = false) ->
  isRunnable t = true ->
  callsOut (type t) = true ->
  (inject_Z (retryCount t) + inject_Z (Z.of_nat n) - 1 < maxRetries t)%Q ->
  (maxRetries t <= inject_Z (retryCount t) + inject_Z (Z.of_nat n))%Q ->
  forallb failingProcess ops = true ->
  List.length ops = S n ->
  let a' := run env ops a in
  NoDup (keys (tasks (queueState a')))
  /\ (forall k, k <> key ->
      get (tasks (queueState a')) k = get (tasks (queueState a)) k)
  /\ (exists t',
        get (tasks (queueState a')) key = Some t'
        /\ status t' = failed
        /\ retryCount t' = retryCount t + Z.of_nat n
        /\ maxRetries t' = maxRetries t)
  /\ totalRetried (stats (queueState a'))
     = totalRetried (stats (queueState a)) + Z.of_nat n
  /\ totalFailed (stats (queueState a'))
     = totalFailed (stats (queueState a)) + 1.
Proof.
  induction n as [| n IH];
    intros ops a key t Hnd Hg Hothers Hr Hc Hlo Hhi Hf Hlen.
  - destruct ops as [| [now op] [| x ops]]; try discriminate.
    cbn [forallb failingProcess snd] in Hf.
    destruct op as [| | nowDone [r | e] |]; try discriminate.
    cbn [run step].
    change (inject_Z (Z.of_nat 0)) with 0%Q in Hhi.
    destruct (failing_step now nowDone e a key t Hnd Hg Hothers Hr Hc)
      as (Hnd' & Hk & t' & Hg' & _ & Hm & [(Hlt & _) | (_ & Hs & Hrc & Htr & Htf)]);
      [exfalso; lra |].
    cbv zeta. split; [exact Hnd' |]. split; [exact Hk |].
    split; [exists t'; repeat split; try assumption; cbn; lia |].
    split; [cbn; lia | exact Htf].
  - destruct ops as [| [now op] ops]; [discriminate |].
    cbn [forallb] in Hf. apply andb_prop in Hf as [Hf1 Hf].
    unfold failingProcess in Hf1. cbn [snd] in Hf1.
    destruct op as [| | nowDone [r | e] |]; try discriminate.
    cbn [List.length] in Hlen. injection Hlen as Hlen.
    cbn [run step].
    rewrite Nat2Z.inj_succ in Hlo, Hhi. unfold Z.succ in Hlo, Hhi.
    rewrite inject_Z_plus in Hlo, Hhi.
    change (inject_Z 1) with 1%Q in Hlo, Hhi.
    assert (Hn0 : (0 <= inject_Z (Z.of_nat n))%Q)
      by (change 0%Q with (inject_Z 0); rewrite <- Zle_Qle; lia).
    destruct (failing_step now nowDone e a key t Hnd Hg Hothers Hr Hc)
      as (Hnd' & Hk & t' & Hg' & Hty & Hm & [(Hlt & Hs & Hrc & Htr & Htf) | (Hge & _)]);
      [| exfalso; lra].
    destruct (IH ops (snd (handleProcessNext now nowDone (Threw e) a)) key t')
      as (Hnd2 & Hk2 & (t2 & Hg2 & Hs2 & Hrc2 & Hm2) & Htr2 & Htf2);
      try assumption.
    + intros k u Hu Hne. rewrite (Hk k Hne) in Hu. now apply (Hothers k u).
    + apply TaskQueueSpec.isRunnable_iff. now right.
    + now rewrite Hty.
    + rewrite Hm, Hrc, inject_Z_plus. change (inject_Z 1) with 1%Q. lra.
    + rewrite Hm, Hrc, inject_Z_plus. change (inject_Z 1) with 1%Q. lra.
    + cbv zeta. split; [exact Hnd2 |].
      split; [intros k Hne; now rewrite (Hk2 k Hne), (Hk k Hne) |].
      split; [exists t2; repeat split; try assumption; [lia | congruence] |].
      split; lia.
Qed.

(** X6.  Take a queue whose only pending or retrying task is the one under
    [key], of a kind whose handler calls another agent, with its retry
    count within its limit.  If the handler throws at every
    [handleProcessNext], the retries left are the limit minus the retry
    count, rounded up; after that many calls plus one the task is failed,
    its retry count has gone up by the retries left and has reached the
    limit without being one above it (it equals the limit when that is a
    whole number as the retry count is), the retries left were all counted
    in [totalRetried],
    [totalFailed] went up by one, the other tasks are as they were, and
    every further [handleProcessNext] finds nothing to run. *)
Theorem failing_task_exhausts_retries
  (env : Env.Env) (ops : list (Timestamp * Op)) (a : TaskQueueAgent)
  (key : string) (t : AgentTask) :
  NoDup (keys (tasks (queueState a))) ->
  get (tasks (queueState a)) key = Some t ->
  (forall k u, get (tasks (queueState a)) k = Some u -> k <> key ->
               isRunnable u = false) ->
  isRunnable t = true ->
  callsOut (type t) = true ->
  (inject_Z (retryCount t) <= maxRetries t)%Q ->
  let left := Qceiling (maxRetries t - inject_Z (retryCount t)) in
  forallb failingProcess ops = true ->
  List.length ops = S (Z.to_nat left) ->
  let a' := run env ops a in
  (exists t',
      get (tasks (queueState a')) key = Some t'
      /\ status t' = failed
      /\ retryCount t' = retryCount t + left
      /\ (maxRetries t <= inject_Z (retryCount t') < maxRetries t + 1)%Q
      /\ (forall n, (maxRetries t == inject_Z n)%Q -> retryCount t' = n)
      /\ maxRetries t' = maxRetries t)
  /\ (forall k, k <> key ->
      get (tasks (queueState a')) k = get (tasks (queueState a)) k)
  /\ totalRetried (stats (queueState a'))
     = totalRetried (stats (queueState a)) + left
  /\ totalFailed (stats (queueState a'))
     = totalFailed (stats (queueState a)) + 1
  /\ (forall now nowDone external,
      handleProcessNext now nowDone external a' = (NoPendingTasks, a')).
Proof.
  intros Hnd Hg Hothers Hr Hc Hle left Hf Hlen.
  pose proof (Qle_ceiling (maxRetries t - inject_Z (retryCount t))) as Hup.
  pose proof (Qceiling_lt (maxRetries t - inject_Z (retryCount t))) as Hdown.
  fold left in Hup, Hdown.
  unfold Z.sub in Hdown. rewrite inject_Z_plus in Hdown.
  change (inject_Z (- (1))) with (-1)%Q in Hdown.
  assert (Hpos : 0 <= left).
  { assert (Hz : (inject_Z (-1) < inject_Z left)%Q)
      by (change (inject_Z (-1)) with (-1)%Q; lra).
    rewrite <- Zlt_Qlt in Hz. lia. }
  assert (Hnat : Z.of_nat (Z.to_nat left) = left) by lia.
  destruct (failing_run env (Z.to_nat left) ops a key t Hnd Hg Hothers Hr Hc)
    as (Hnd' & Hk & (t' & Hg' & Hs & Hrc & Hm) & Htr & Htf);
    try assumption; try (rewrite Hnat; lra).
  rewrite Hnat in Hrc, Htr.
  cbv zeta. split.
  { exists t'. split; [exact Hg' |]. split; [exact Hs |]. split; [exact Hrc |].
    split; [rewrite Hrc, inject_Z_plus; split; lra |].
    split; [| exact Hm].
    intros n Hn. rewrite Hrc.
    assert (H1 : (inject_Z n <= inject_Z (retryCount t + left))%Q)
      by (rewrite inject_Z_plus; lra).
    assert (H2 : (inject_Z (retryCount t + left) < inject_Z (n + 1))%Q)
      by (rewrite !inject_Z_plus; change (inject_Z 1) with 1%Q; lra).
    rewrite <- Zle_Qle in H1. rewrite <- Zlt_Qlt in H2. lia. }
  split; [exact Hk |].
  split; [exact Htr |]. split; [exact Htf |].
  intros now nowDone external. unfold handleProcessNext.
  rewrite none_runnable; [reflexivity | exact Hnd' |].
  intros k u Hu. destruct (String.eqb_spec k key) as [-> | Hne].
  - assert (u = t') as -> by congruence.
    unfold isRunnable. now rewrite Hs.
  - rewrite (Hk k Hne) in Hu. now apply (Hothers k u).
Qed.

Lemma failing_task_exhausts_retries_witness :
  get (tasks (queueState Samples.queueOne)) "t1" = Some MoreSamples.taskOne
  /\ option_map (fun t => (status t, retryCount t))
       (get (tasks (queueState
                      (run Samples.someEnv MoreSamples.fourFailingRuns
                         Samples.queueOne))) "t1")
     = Some (failed, 3)
  /\ totalFailed (stats (queueState
                    (run Samples.someEnv MoreSamples.fourFailingRuns
                       Samples.queueOne))) = 1.
Proof.
  split; [reflexivity |]. split; [reflexivity |].
  refine (proj1 (proj2 (proj2 (proj2
            (failing_task_exhausts_retries Samples.someEnv
               MoreSamples.fourFailingRuns Samples.queueOne "t1"
               MoreSamples.taskOne _ eq_refl _ eq_refl eq_refl _ eq_refl eq_refl))))).
  - cbn. constructor; [intros [] | constructor].
  - intros k u Hu Hne.
    change (tasks (queueState Samples.queueOne))
      with [("t1"%string, MoreSamples.taskOne)] in Hu.
    cbn [get] in Hu.
    destruct (String.eqb_spec "t1" k) as [<- | _];
      [now elim Hne | discriminate Hu].
  - discriminate.
Defined.

(** *** What the constructor reads back *)

Lemma fold_set_distinct {V : Type} (l : list (string * V)) :
  forall acc : Map V,
  NoDup (keys acc ++ keys l) ->
  fold_left (fun o e => set o (fst e) (snd e)) l acc = acc ++ l.
Proof.
  induction l as [| [k v] l IH]; intros acc Hnd; cbn.
  - now rewrite app_nil_r.
  - assert (Hk : get acc k = None).
    { apply JsFacts.get_None_keys. intros Hin.
      apply NoDup_remove_2 in Hnd. apply Hnd.
      apply in_or_app. now left. }
    rewrite (JsMoreFacts.set_absent_app acc k v Hk), IH.
    + now rewrite <- app_assoc.
    + unfold keys in *. rewrite map_app. cbn. rewrite <- app_assoc. exact Hnd.
Qed.

Lemma fold_add_distinct (xs : list string) : forall acc : StringSet,
  NoDup (acc ++ xs) -> fold_left add xs acc = acc ++ xs.
Proof.
  induction xs as [| x xs IH]; intros acc Hnd; cbn.
  - now rewrite app_nil_r.
  - assert (Hx : has acc x = false).
    { destruct (has acc x) eqn:E; [| reflexivity].
      apply JsMoreFacts.has_In in E. apply NoDup_remove_2 in Hnd.
      elim Hnd. apply in_or_app. now left. }
    unfold add at 2. rewrite Hx, IH.
    + now rewrite <- app_assoc.
    + now rewrite <- app_assoc.
Qed.

Lemma filter_split_perm {A : Type} (f : A -> bool) (l : list A) :
  Permutation.Permutation (filter f l ++ filter (fun x => negb (f x)) l) l.
Proof.
  induction l as [| x l IH]; cbn; [apply Permutation.perm_nil |].
  destruct (f x); cbn.
  - now apply Permutation.perm_skip.
  - eapply Permutation.perm_trans;
      [apply Permutation.Permutation_sym, Permutation.Permutation_middle |].
    now apply Permutation.perm_skip.
Qed.

Lemma entries_perm {V : Type} (o : JsObject.Obj V) :
  Permutation.Permutation (JsObject.entries o) o.
Proof.
  unfold JsObject.entries.
  eapply Permutation.perm_trans; [| apply (filter_split_perm
                                           (fun e => JsObject.isArrayIndex (fst e)))].
  apply Permutation.Permutation_app_tail. apply JsMoreFacts.sort_perm.
Qed.

Lemma entries_no_index {V : Type} (o : JsObject.Obj V) :
  (forall k, In k (keys o) -> JsObject.isArrayIndex k = false) ->
  JsObject.entries o = o.
Proof.
  intros H. unfold JsObject.entries.
  assert (Hall : forall e, In e o -> JsObject.isArrayIndex (fst e) = false).
  { intros e He. apply H. unfold keys. now apply in_map. }
  clear H.
  assert (filter (fun e => JsObject.isArrayIndex (fst e)) o = []) as ->.
  { induction o as [| e o IH]; [reflexivity |].
    cbn. rewrite (Hall e (or_introl eq_refl)). apply IH.
    intros e' He'. apply Hall. now right. }
  cbn. induction o as [| e o IH]; [reflexivity |].
  cbn. rewrite (Hall e (or_introl eq_refl)). cbn. f_equal. apply IH.
  intros e' He'. apply Hall. now right.
Qed.

(** X7.  What the constructor rebuilds from what [persistState] stored
    holds the same task under every identifier, the same in-flight set and
    the same counters; the tasks come back in the same order when no
    identifier is an array index, and otherwise with the array indices
    first, in ascending order. *)
Theorem restore_persisted_state (q : QueueState) :
  NoDup (keys (tasks q)) ->
  NoDup (processing q) ->
  let q' := restore (Some (persistState q)) in
  (forall k, get (tasks q') k = get (tasks q) k)
  /\ tasks q' = JsObject.entries (tasks q)
  /\ Permutation.Permutation (tasks q') (tasks q)
  /\ processing q' = processing q
  /\ stats q' = stats q
  /\ ((forall k, In k (keys (tasks q)) -> JsObject.isArrayIndex k = false) ->
      q' = q).
Proof.
  intros Hnd Hpr.
  assert (Hfrom : JsObject.fromEntries (tasks q) = tasks q)
    by (apply (fold_set_distinct (tasks q) []); exact Hnd).
  assert (Hpe : Permutation.Permutation (JsObject.entries (tasks q)) (tasks q))
    by apply entries_perm.
  assert (Hnd' : NoDup (keys (JsObject.entries (tasks q)))).
  { unfold keys in *.
    eapply Permutation.Permutation_NoDup; [| exact Hnd].
    apply Permutation.Permutation_map, Permutation.Permutation_sym, Hpe. }
  assert (Htasks : JsObject.newMap (JsObject.entries (tasks q))
                   = JsObject.entries (tasks q))
    by (apply (fold_set_distinct _ []); exact Hnd').
  assert (Hset : JsObject.newSet (processing q) = processing q)
    by (apply (fold_add_distinct _ []); exact Hpr).
  cbv zeta. unfold restore, persistState.
  cbn [storedTasks storedProcessing storedStats tasks processing stats].
  rewrite Hfrom, Htasks, Hset.
  split; [intros k; symmetry; apply JsMoreFacts.get_perm;
          [exact Hnd | apply Permutation.Permutation_sym, Hpe] |].
  split; [reflexivity |]. split; [exact Hpe |].
  split; [reflexivity |]. split; [reflexivity |].
  intros Hno. rewrite (entries_no_index _ Hno). now destruct q.
Qed.

Lemma restore_persisted_state_witness :
  keys (tasks MoreSamples.indexedQueue) = ["b"; "10"; "2"]%string
  /\ keys (tasks (restore (Some (persistState MoreSamples.indexedQueue))))
     = ["2"; "10"; "b"]%string
  /\ forall k,
      get (tasks (restore (Some (persistState MoreSamples.indexedQueue)))) k
      = get (tasks MoreSamples.indexedQueue) k.
Proof.
  split; [reflexivity |]. split; [reflexivity |].
  refine (proj1 (restore_persisted_state MoreSamples.indexedQueue _ _)).
  - repeat constructor; cbn; intuition discriminate.
  - constructor.
Defined.

End TaskQueueMore.

(** ** The coordinator: registry and aggregation *)
Module CoordinatorMore.
Import Js Coordinator CoordinatorRuns.

(** The registry holds the five agents, each under its own name. *)
Lemma set_registered (m : Map Agent.AgentHealth) (k : string)
  (a0 a : Agent.AgentHealth) :
  get m k = Some a0 ->
  Agent.name a = k ->
  Forall (fun e => Agent.name (snd e) = fst e) m ->
  keys (set m k a) = keys m
  /\ Forall (fun e => Agent.name (snd e) = fst e) (set m k a).
Proof.
  intros Hg Hn Hall. split; [now apply (JsFacts.keys_set_present m k a a0) |].
  clear Hg. induction m as [| [k' a'] m IH]; cbn.
  - repeat constructor. exact Hn.
  - apply Forall_cons_iff in Hall as [Hh Ht].
    destruct (String.eqb_spec k' k) as [-> | Hne]; constructor; auto.
Qed.

Lemma get_name (m : Map Agent.AgentHealth) (k : string) (a : Agent.AgentHealth) :
  Forall (fun e => Agent.name (snd e) = fst e) m ->
  get m k = Some a -> Agent.name a = k.
Proof.
  intros Hall Hg. apply JsFacts.get_In in Hg.
  rewrite Forall_forall in Hall. exact (Hall _ Hg).
Qed.

Lemma step_registry (env : Env.Env) (now : Timestamp) (op : Op)
  (st : CoordinatorState) :
  Forall (fun e => Agent.name (snd e) = fst e) (agents st) ->
  keys (agents (step env now op st)) = keys (agents st)
  /\ Forall (fun e => Agent.name (snd e) = fst e) (agents (step env now op st))
  /\ startedAt (step env now op st) = startedAt st.
Proof.
  intros Hall.
  destruct op as [p stamp heal | name fwd | agent status | | name]; cbn [step];
    try (split; [reflexivity | split; [exact Hall | reflexivity]]).
  - unfold handleHealthCheck.
    destruct (Health.overall _); try (repeat split; exact Hall).
    destruct (String.eqb _ _); [destruct heal |]; repeat split; exact Hall.
  - unfold handleTriggerAgent.
    destruct (get (agents st) name) as [a0 |] eqn:Hg;
      [| repeat split; exact Hall].
    destruct (triggerable name); [| repeat split; exact Hall].
    destruct fwd; cbn [snd agents startedAt]; try (repeat split; exact Hall);
      (destruct (set_registered (agents st) name a0 (triggered now a0) Hg)
         as [Hk Hf]; [exact (get_name _ _ _ Hall Hg) | exact Hall |];
       repeat split; assumption).
  - unfold handleStatusUpdate.
    destruct (get (agents st) agent) as [a0 |] eqn:Hg;
      [| repeat split; exact Hall].
    cbn [snd agents startedAt].
    destruct (set_registered (agents st) agent a0 (reported now status a0) Hg)
      as [Hk Hf]; [exact (get_name _ _ _ Hall Hg) | exact Hall |].
    repeat split; assumption.
Qed.

(** X8.  Whatever requests a coordinator has served since it was built, its
    registry holds exactly the five agents it started with, each under its
    own name: the list answer counts 5, a single-agent read finds a record
    exactly for those five names, and the start time is the one of
    construction. *)
Theorem registry_is_fixed
  (env : Env.Env) (ops : list (Timestamp * Op)) (t0 : Timestamp) :
  let st := run env ops (initial t0) in
  keys (agents st) = agentNames
  /\ Forall (fun e => Agent.name (snd e) = fst e) (agents st)
  /\ count (handleListAgents st) = 5%nat
  /\ (forall name, handleGetAgent name st <> None <-> In name agentNames)
  /\ coordinatorStarted (handleListAgents st) = t0.
Proof.
  assert (Hgen : forall st,
    Forall (fun e => Agent.name (snd e) = fst e) (agents st) ->
    keys (agents (run env ops st)) = keys (agents st)
    /\ Forall (fun e => Agent.name (snd e) = fst e) (agents (run env ops st))
    /\ startedAt (run env ops st) = startedAt st).
  { induction ops as [| [now op] ops IH]; intros st Hall; [auto |].
    cbn [run]. destruct (step_registry env now op st Hall) as (Hk & Hf & Hs).
    destruct (IH _ Hf) as (Hk' & Hf' & Hs'). repeat split; congruence. }
  destruct (Hgen (initial t0)) as (Hk & Hf & Hs);
    [repeat constructor |].
  cbv zeta. split; [exact Hk |]. split; [exact Hf |].
  split; [| split; [| exact Hs]].
  - cbn [handleListAgents count]. unfold values. rewrite length_map.
    rewrite <- (length_map fst). fold (keys (agents (run env ops (initial t0)))).
    now rewrite Hk.
  - intros name. unfold handleGetAgent.
    rewrite <- JsMoreFacts.keys_In_get. now rewrite Hk.
Qed.

Lemma step_other (env : Env.Env) (now : Timestamp) (op : Op)
  (st : CoordinatorState) (name : string) :
  reaches name op = false -> reportsOn name op = false ->
  get (agents (step env now op st)) name = get (agents st) name.
Proof.
  intros Hr Hs.
  destruct op as [p stamp heal | n fwd | n status | | n]; cbn [step];
    try reflexivity.
  - unfold handleHealthCheck.
    destruct (Health.overall _); try reflexivity.
    destruct (String.eqb _ _); [destruct heal |]; reflexivity.
  - unfold handleTriggerAgent.
    destruct (get (agents st) n) as [a0 |] eqn:Hg; [| reflexivity].
    destruct (triggerable n) eqn:Ht; [| reflexivity].
    destruct fwd as [e | e | r]; cbn [snd agents]; try reflexivity;
      cbn [reaches] in Hr; rewrite Ht, andb_true_r in Hr;
      apply String.eqb_neq in Hr; now apply JsFacts.get_set_ne.
  - unfold handleStatusUpdate.
    destruct (get (agents st) n) as [a0 |] eqn:Hg; [| reflexivity].
    cbn [snd agents]. cbn [reportsOn] in Hs. apply String.eqb_neq in Hs.
    now apply JsFacts.get_set_ne.
Qed.

Lemma step_counts (env : Env.Env) (now : Timestamp) (op : Op)
  (st : CoordinatorState) (name : string) (a0 : Agent.AgentHealth) :
  get (agents st) name = Some a0 ->
  exists a,
    get (agents (step env now op st)) name = Some a
    /\ Agent.errorCount a
       = Agent.errorCount a0 + (if reportsError name op then 1 else 0)
    /\ Agent.taskCount a
       = Agent.taskCount a0 + (if reaches name op then 1 else 0)
    /\ Agent.lastActivity a
       = if reaches name op || reportsOn name op
         then now else Agent.lastActivity a0.
Proof.
  intros Hg.
  destruct (reaches name op) eqn:Hr; [| destruct (reportsOn name op) eqn:Hs].
  - destruct op as [p stamp heal | n fwd | n status | | n]; try discriminate.
    assert (n = name /\ triggerable n = true) as [-> Ht].
    { destruct fwd; try discriminate; cbn in Hr;
        apply andb_prop in Hr as [H1 H2]; apply String.eqb_eq in H1; auto. }
    cbn [step reportsError reportsOn orb]. unfold handleTriggerAgent.
    rewrite Hg, Ht.
    destruct fwd as [e | e | r]; [discriminate | |]; cbn [snd agents];
      (eexists; split; [apply JsFacts.get_set_eq |]; cbn; repeat split; lia).
  - destruct op as [p stamp heal | n fwd | n status | | n]; try discriminate.
    cbn [reportsOn] in Hs. apply String.eqb_eq in Hs. subst n.
    cbn [step orb reportsError]. unfold handleStatusUpdate. rewrite Hg.
    cbn [snd agents]. eexists. split; [apply JsFacts.get_set_eq |].
    rewrite String.eqb_refl.
    destruct status; cbn; repeat split; lia.
  - exists a0. rewrite (step_other env now op st name Hr Hs).
    assert (reportsError name op = false) as ->.
    { destruct op as [| | n status | |]; try reflexivity.
      cbn in Hs |- *. now destruct status. }
    cbn. repeat split; try lia. exact Hg.
Qed.

Lemma run_counts (env : Env.Env) (name : string) (ops : list (Timestamp * Op)) :
  forall (st : CoordinatorState) (a0 : Agent.AgentHealth),
  get (agents st) name = Some a0 ->
  exists a,
    get (agents (run env ops st)) name = Some a
    /\ Agent.errorCount a
       = Agent.errorCount a0 + countOps (reportsError name) ops
    /\ Agent.taskCount a
       = Agent.taskCount a0 + countOps (reaches name) ops
    /\ Agent.lastActivity a = lastTouched name ops (Agent.lastActivity a0).
Proof.
  unfold countOps.
  induction ops as [| [now op] ops IH]; intros st a0 Hg.
  - exists a0. cbn. repeat split; try lia. exact Hg.
  - destruct (step_counts env now op st name a0 Hg) as (a1 & Hg1 & He1 & Ht1 & Hl1).
    destruct (IH _ _ Hg1) as (a & Hga & He & Ht & Hl).
    exists a. cbn [run]. split; [exact Hga |].
    cbn [filter snd lastTouched]. rewrite He, Ht, Hl, He1, Ht1, Hl1.
    destruct (reportsError name op), (reaches name op); cbn [List.length];
      rewrite ?Nat2Z.inj_succ; repeat split; lia.
Qed.

(** X9.  For each of the five agents, after any run of requests from a
    fresh coordinator: its error count is the number of status reports of
    the run that reported error for it, its task count is the number of
    triggers of the run that were forwarded for it, and its last activity
    is the time of the last such report or trigger (the construction time
    when there was none). *)
Theorem registry_counts_requests
  (env : Env.Env) (ops : list (Timestamp * Op)) (t0 : Timestamp)
  (name : string) :
  In name agentNames ->
  exists a,
    handleGetAgent name (run env ops (initial t0)) = Some a
    /\ Agent.errorCount a = countOps (reportsError name) ops
    /\ Agent.taskCount a = countOps (reaches name) ops
    /\ Agent.lastActivity a = lastTouched name ops t0.
Proof.
  intros Hin. unfold handleGetAgent.
  assert (Hg : exists a0, get (agents (initial t0)) name = Some a0
                          /\ Agent.errorCount a0 = 0 /\ Agent.taskCount a0 = 0
                          /\ Agent.lastActivity a0 = t0).
  { cbn in Hin.
    destruct Hin as [<- | [<- | [<- | [<- | [<- | []]]]]];
      eexists; (split; [reflexivity | repeat split]). }
  destruct Hg as (a0 & Hg & He0 & Ht0 & Hl0).
  destruct (run_counts env name ops _ _ Hg) as (a & Hga & He & Ht & Hl).
  exists a. rewrite He0 in He. rewrite Ht0 in Ht. rewrite Hl0 in Hl.
  repeat split; try assumption; lia.
Qed.

Lemma registry_counts_requests_witness :
  In "repo-scraper"%string agentNames
  /\ exists a,
      handleGetAgent "repo-scraper"
        (run Samples.someEnv
           [ (10, StatusUpdate "repo-scraper" Agent.error);
             (20, TriggerAgent "repo-scraper" (Forwarded []));
             (30, StatusUpdate "repo-scraper" Agent.error);
             (40, TriggerAgent "coordinator" (Forwarded [])) ]
           (initial 0)) = Some a
      /\ Agent.errorCount a = 2 /\ Agent.taskCount a = 1
      /\ Agent.lastActivity a = 30.
Proof.
  assert (Hin : In "repo-scraper"%string agentNames) by (cbn; auto).
  split; [exact Hin |].
  exact (registry_counts_requests Samples.someEnv _ 0 "repo-scraper" Hin).
Defined.

(** *** What decides the overall status *)

Lemma filter_none {A : Type} (f : A -> bool) (l : list A) :
  List.length (filter f l) = 0%nat <-> forall x, In x l -> f x = false.
Proof.
  induction l as [| x l IH]; cbn; [split; [intros _ ? [] | reflexivity] |].
  destruct (f x) eqn:E; cbn.
  - split; [discriminate | intros H; specialize (H x (or_introl eq_refl)); congruence].
  - rewrite IH. split.
    + intros H y [<- | Hy]; auto.
    + intros H y Hy. apply H. now right.
Qed.

Lemma overallOf_unhealthy (f w e : nat) :
  overallOf f w e = Health.unhealthy <-> (0 < f \/ 1 < e)%nat.
Proof.
  unfold overallOf.
  destruct (Nat.ltb_spec 0 f), (Nat.ltb_spec 1 e),
    (Nat.ltb_spec 0 w), (Nat.eqb_spec e 1); cbn [orb];
    (split; [intros H3; first [discriminate H3 | lia]
            | intros [H3 | H3]; first [reflexivity | exfalso; lia]]).
Qed.

Lemma overallOf_healthy (f w e : nat) :
  overallOf f w e = Health.healthy <-> (f = 0 /\ w = 0 /\ e = 0)%nat.
Proof.
  unfold overallOf.
  destruct (Nat.ltb_spec 0 f), (Nat.ltb_spec 1 e),
    (Nat.ltb_spec 0 w), (Nat.eqb_spec e 1); cbn [orb];
    (split; [intros H3; first [discriminate H3 | lia]
            | intros (H3 & H4 & H5); first [reflexivity | exfalso; lia]]).
Qed.

Lemma no_error_agents (m : Map Agent.AgentHealth) :
  countErrorAgents (values m) = 0%nat
  <-> forall k a, In (k, a) m -> Agent.status a <> Agent.error.
Proof.
  unfold countErrorAgents. rewrite filter_none. unfold values. split.
  - intros H k a Hin He.
    specialize (H a (in_map snd _ _ Hin)). rewrite He in H. discriminate.
  - intros H a Ha. apply in_map_iff in Ha as ([k a'] & <- & Hin). cbn.
    specialize (H k a' Hin). destruct (Agent.status a'); try reflexivity.
    now elim H.
Qed.

Lemma no_derived_warning (now : Timestamp) (m : Map Agent.AgentHealth) :
  countStatus Check.warn (map (agentCheck now) m) = 0%nat
  <-> forall k a, In (k, a) m ->
        Agent.status a = Agent.error \/ Agent.status a = Agent.idle
        \/ now - Agent.lastActivity a <= 300000.
Proof.
  unfold countStatus. rewrite filter_none. split.
  - intros H k a Hin.
    specialize (H _ (in_map (agentCheck now) _ _ Hin)).
    unfold agentCheck in H.
    destruct (Z.gtb_spec (now - Agent.lastActivity a) 300000);
      destruct (Agent.status a); cbn in H; auto; discriminate.
  - intros H c Hc. apply in_map_iff in Hc as ([k a] & <- & Hin).
    specialize (H k a Hin). unfold agentCheck.
    destruct (Z.gtb_spec (now - Agent.lastActivity a) 300000);
      destruct (Agent.status a); cbn; try reflexivity;
      destruct H as [H | [H | H]]; try discriminate; lia.
Qed.

Lemma probe_counts (p : Probes) :
  (countStatus Check.fail [kvCheck p; d1Check p; r2Check p] = 0%nat
   <-> (exists u, kv p = Returned u) /\ (exists u, d1 p = Returned u))
  /\ countStatus Check.warn [kvCheck p; d1Check p; r2Check p] = 0%nat.
Proof.
  unfold countStatus, kvCheck, d1Check, r2Check.
  destruct (kv p) as [u1 | e1], (d1 p) as [u2 | e2], (r2 p) as [u3 | e3]; cbn;
    (split; [| reflexivity]); split;
    try discriminate; try (intros _; split; eexists; reflexivity);
    intros [[? H1] [? H2]]; discriminate.
Qed.

(** X10.  The overall status of the report of [handleHealthCheck] is decided
    by the KV probe, the D1 probe and the registry alone: it is unhealthy
    exactly when one of the two probes threw or some agent is in error
    status, and healthy exactly when both probes returned and every agent
    is neither in error status nor both not idle and inactive for more
    than 300000 ms; what the R2 probe gives changes nothing.  The healer is
    called exactly when the status is unhealthy and self-healing is
    enabled. *)
Theorem overall_by_probes_and_registry
  (p : Probes) (now stamp : Timestamp) (st : CoordinatorState) :
  (Health.overall (healthOf p now stamp st) = Health.unhealthy
   <-> (exists e, kv p = Threw e) \/ (exists e, d1 p = Threw e)
       \/ exists k a, In (k, a) (agents st) /\ Agent.status a = Agent.error)
  /\ (Health.overall (healthOf p now stamp st) = Health.healthy
      <-> (exists u, kv p = Returned u) /\ (exists u, d1 p = Returned u)
          /\ forall k a, In (k, a) (agents st) ->
               Agent.status a <> Agent.error
               /\ (Agent.status a = Agent.idle
                   \/ now - Agent.lastActivity a <= 300000))
  /\ (forall p', kv p' = kv p -> d1 p' = d1 p ->
      Health.overall (healthOf p' now stamp st)
      = Health.overall (healthOf p now stamp st))
  /\ (forall env heal,
      snd (handleHealthCheck env p now stamp heal st) = true
      <-> Health.overall (healthOf p now stamp st) = Health.unhealthy
          /\ Env.SELF_HEAL_ENABLED env = "true"%string).
Proof.
  assert (Hfail : forall q,
    countStatus Check.fail (runHealthChecks q now st)
    = (countStatus Check.fail [kvCheck q; d1Check q; r2Check q]
       + countErrorAgents (values (agents st)))%nat).
  { intros q. unfold runHealthChecks.
    now rewrite CoordinatorSpec.countStatus_app, CoordinatorSpec.derived_fail_count. }
  assert (Hwarn : forall q,
    countStatus Check.warn (runHealthChecks q now st)
    = countStatus Check.warn (map (agentCheck now) (agents st))).
  { intros q. unfold runHealthChecks.
    rewrite CoordinatorSpec.countStatus_app.
    now rewrite (proj2 (probe_counts q)). }
  assert (Hun : Health.overall (healthOf p now stamp st) = Health.unhealthy
   <-> (exists e, kv p = Threw e) \/ (exists e, d1 p = Threw e)
       \/ exists k a, In (k, a) (agents st) /\ Agent.status a = Agent.error).
  { cbn [healthOf Health.overall]. rewrite overallOf_unhealthy, Hfail.
    pose proof (proj1 (probe_counts p)) as Hp.
    pose proof (no_error_agents (agents st)) as He.
    split.
    - intros H.
      destruct (kv p) as [u1 | e1]; [| left; eauto].
      destruct (d1 p) as [u2 | e2]; [| right; left; eauto].
      right. right.
      assert (Hp0 : countStatus Check.fail [kvCheck p; d1Check p; r2Check p]
                    = 0%nat) by (apply Hp; split; eauto).
      rewrite Hp0 in H.
      destruct (countErrorAgents (values (agents st))) as [| n] eqn:En; [lia |].
      clear - En. unfold countErrorAgents, values in En.
      induction (agents st) as [| [k a] m IH]; [discriminate |].
      cbn in En. destruct (Agent.status a) eqn:Hs; cbn in En;
        try (destruct (IH En) as (k' & a' & Hin & Ha');
             exists k', a'; split; [now right | exact Ha']).
      exists k, a. split; [now left | exact Hs].
    - intros [[e H] | [[e H] | (k & a & Hin & Ha)]].
      + left.
        destruct (Nat.eq_dec
                    (countStatus Check.fail [kvCheck p; d1Check p; r2Check p]) 0)
          as [E | E]; [| lia].
        apply Hp in E as [[u Hu] _]. congruence.
      + left.
        destruct (Nat.eq_dec
                    (countStatus Check.fail [kvCheck p; d1Check p; r2Check p]) 0)
          as [E | E]; [| lia].
        apply Hp in E as [_ [u Hu]]. congruence.
      + left.
        destruct (Nat.eq_dec (countErrorAgents (values (agents st))) 0)
          as [E | E]; [| lia].
        exfalso. exact (proj1 He E k a Hin Ha). }
  assert (Hhe : Health.overall (healthOf p now stamp st) = Health.healthy
      <-> (exists u, kv p = Returned u) /\ (exists u, d1 p = Returned u)
          /\ forall k a, In (k, a) (agents st) ->
               Agent.status a <> Agent.error
               /\ (Agent.status a = Agent.idle
                   \/ now - Agent.lastActivity a <= 300000)).
  { cbn [healthOf Health.overall]. rewrite overallOf_healthy, Hfail, Hwarn.
    pose proof (proj1 (probe_counts p)) as Hp.
    rewrite no_derived_warning, no_error_agents.
    split.
    - intros (Hf & Hw & He).
      assert (Hp0 : countStatus Check.fail [kvCheck p; d1Check p; r2Check p]
                    = 0%nat) by lia.
      apply Hp in Hp0 as [Hkv Hd1]. split; [exact Hkv |]. split; [exact Hd1 |].
      intros k a Hin. split; [exact (He k a Hin) |].
      destruct (Hw k a Hin) as [H | H]; [| exact H].
      now elim (He k a Hin).
    - intros (Hkv & Hd1 & Hall).
      assert (He : forall k a, In (k, a) (agents st) ->
                               Agent.status a <> Agent.error)
        by (intros k a Hin; apply (Hall k a Hin)).
      split; [| split; [| exact He]].
      + rewrite (proj2 Hp (conj Hkv Hd1)).
        now rewrite (proj2 (no_error_agents (agents st)) He).
      + intros k a Hin. right. apply (Hall k a Hin). }
  split; [exact Hun |]. split; [exact Hhe |]. split.
  - intros p' Hkv Hd1. cbn [healthOf Health.overall].
    rewrite !Hfail, !Hwarn.
    assert (countStatus Check.fail [kvCheck p'; d1Check p'; r2Check p']
            = countStatus Check.fail [kvCheck p; d1Check p; r2Check p]) as ->;
      [| reflexivity].
    unfold countStatus, kvCheck, d1Check, r2Check. rewrite Hkv, Hd1.
    destruct (kv p), (d1 p), (r2 p), (r2 p'); reflexivity.
  - intros env heal. unfold handleHealthCheck.
    destruct (Health.overall (healthOf p now stamp st)); cbn [snd];
      try (split; [discriminate | intros [H _]; discriminate]).
    destruct (String.eqb_spec (Env.SELF_HEAL_ENABLED env) "true") as [He | He].
    + destruct heal; cbn [snd]; split; auto.
    + cbn [snd]. split; [discriminate | intros [_ H]; contradiction].
Qed.

End CoordinatorMore.

(** ** The self-healer: history, periodic check and derived actions *)
Module SelfHealerMore.
Import Js SelfHealer SelfHealerRuns.

(** X11.  While the breaker is open, nothing but a status request or a
    reset request changes the healer: manual triggers, auto-heal requests
    and alarms leave the whole state as it is, however many arrive and
    however long after the breaker opened. *)
Theorem open_breaker_waits_for_status_or_reset
  (env : Env.Env) (evs : list Event) (s : HealerState) :
  circuitOpen s = true ->
  forallb neitherStatusNorReset evs = true ->
  runEvents env evs s = s.
Proof.
  intros Ho. induction evs as [| ev evs IH]; [reflexivity |].
  cbn [forallb runEvents]. intros H. apply andb_prop in H as [Hev Hrest].
  assert (handle env ev s = s) as ->; [| now apply IH].
  destruct ev as [now op | uuid now nowDone world health tAlarm]; cbn [handle].
  - destruct op as [| c | uuid nowDone world health |]; try discriminate;
      cbn [step].
    + unfold manualTrigger, handleManualTrigger. now rewrite Ho.
    + unfold handleAutoHeal. rewrite Ho. now destruct (negb _).
  - unfold handleAlarm. rewrite Ho. cbn [negb]. now rewrite andb_false_r.
Qed.

Lemma open_breaker_waits_for_status_or_reset_witness :
  circuitOpen Samples.trippedHealer = true
  /\ runEvents Samples.someEnv MoreSamples.lateEvents Samples.trippedHealer
     = Samples.trippedHealer.
Proof.
  split; [reflexivity |].
  exact (open_breaker_waits_for_status_or_reset Samples.someEnv
           MoreSamples.lateEvents Samples.trippedHealer eq_refl eq_refl).
Defined.

Lemma sort_newestFirst (l : list SelfHealAction) :
  Sorted.StronglySorted (fun a b => createdAt b <= createdAt a)
    (sort newestFirst l).
Proof.
  rewrite (JsMoreFacts.sort_ext newestFirst
             (fun a b => (fun x => - createdAt x) a - (fun x => - createdAt x) b))
    by (intros a b; unfold newestFirst; lia).
  eapply JsMoreFacts.sorted_weaken; [| apply (JsMoreFacts.sort_sorted (fun x => - createdAt x))].
  cbn. intros a b H. lia.
Qed.

(** X12.  [handleGetActions] answers with every recorded action, each as
    often as it is recorded, the newest first. *)
Theorem getActions_is_history_newest_first (s : HealerState) :
  Permutation.Permutation (handleGetActions s) (values (actions s))
  /\ Sorted.StronglySorted (fun a b => createdAt b <= createdAt a)
       (handleGetActions s).
Proof.
  split; [apply JsMoreFacts.sort_perm | apply sort_newestFirst].
Qed.

(** X13.  The status answer lists the ten newest recorded actions (all of
    them when there are at most ten), newest first: no action it leaves out
    is newer than one it lists, and its count is that of all recorded
    actions. *)
Theorem status_lists_ten_newest
  (env : Env.Env) (now : Timestamp) (s : HealerState) :
  exists r,
    fst (handleStatus env now s) = Status r
    /\ recentActions r = firstn 10 (handleGetActions s)
    /\ List.length (recentActions r) = Nat.min 10 (size (actions s))
    /\ actionsCount r = size (actions s)
    /\ (forall x y, In x (recentActions r) ->
                    In y (skipn 10 (handleGetActions s)) ->
                    createdAt y <= createdAt x).
Proof.
  assert (Hact : actions (snd (handleStatus env now s)) = actions s).
  { unfold handleStatus. cbn [snd].
    destruct (circuitOpen s); [| reflexivity].
    destruct (circuitOpenedAt s); [| reflexivity].
    now destruct (_ >? _). }
  unfold handleStatus in *. cbn [fst snd] in *.
  eexists. split; [reflexivity |].
  cbn [recentActions actionsCount]. rewrite Hact.
  split; [reflexivity |]. split; [| split; [reflexivity |]].
  - unfold slice0. rewrite length_firstn, JsMoreFacts.sort_length.
    unfold values, size. now rewrite length_map.
  - intros x y Hx Hy.
    exact (JsMoreFacts.sorted_split _ 10 _ (sort_newestFirst _) x y Hx Hy).
Qed.

(** X14.  With the breaker closed, the action of a manual trigger can be
    read back under its identifier right after: it is the action the
    trigger answered with, of the kind and target requested, executed at
    the time read on entry, with a result message, and completed or
    failed, never pending or executing; the actions under other
    identifiers are as they were. *)
Theorem manualTrigger_then_getAction (c : TriggerCall) (s : HealerState) :
  circuitOpen s = false ->
  exists r,
    fst (manualTrigger c s) = Executed r
    /\ handleGetAction (call_uuid c) (snd (manualTrigger c s)) = Some r
    /\ id r = call_uuid c
    /\ action r = body_action (call_body c)
    /\ target r = body_target (call_body c)
    /\ createdAt r = call_now c
    /\ executedAt r = Some (call_tExec c)
    /\ result r <> None
    /\ (status r = completed \/ status r = failed)
    /\ (forall other, other <> call_uuid c ->
        handleGetAction other (snd (manualTrigger c s))
        = handleGetAction other s).
Proof.
  intros Hc. unfold manualTrigger, handleManualTrigger, handleGetAction.
  rewrite Hc. unfold executeHealAction. cbn [id action].
  destruct (dispatch _ _) as [u | e].
  - eexists. split; [reflexivity |]. cbn [snd actions].
    split; [apply JsFacts.get_set_eq |]. cbn.
    repeat split; try discriminate; auto.
    intros other Hne. apply JsFacts.get_set_ne. congruence.
  - destruct (consecutiveFailures s + 1 >=? CIRCUIT_THRESHOLD);
      (eexists; split; [reflexivity |]; cbn [snd actions];
       split; [apply JsFacts.get_set_eq |]; cbn;
       repeat split; try discriminate; auto;
       intros other Hne; apply JsFacts.get_set_ne; congruence).
Qed.

Lemma manualTrigger_then_getAction_witness :
  exists r,
    handleGetAction "a1" (snd (manualTrigger (Samples.failingCall "a1" 100)
                                 SelfHealer.initial)) = Some r
    /\ status r = failed
    /\ result r = Some "queue unreachable"%string.
Proof.
  destruct (manualTrigger_then_getAction (Samples.failingCall "a1" 100)
              SelfHealer.initial eq_refl) as (r & _ & Hg & _).
  eexists. split; [reflexivity |]. split; reflexivity.
Defined.

(** *** The loop that executes the derived actions *)





(** *** The actions derived from a report of the coordinator *)

Lemma checkActions_app (uuid : nat -> string) (now : Timestamp)
  (l1 l2 : list Check.HealthCheck) : forall (n : nat),
  snd (checkActions uuid now n (l1 ++ l2))
  = snd (checkActions uuid now n l1)
    ++ snd (checkActions uuid now (fst (checkActions uuid now n l1)) l2)
  /\ fst (checkActions uuid now n (l1 ++ l2))
     = fst (checkActions uuid now (fst (checkActions uuid now n l1)) l2).
Proof.
  induction l1 as [| c l1 IH]; intros n; [now split |].
  cbn [app checkActions].
  destruct (Check.status c); try apply IH.
  specialize (IH (S n)).
  destruct (checkActions uuid now (S n) (l1 ++ l2)) as [n1 r1].
  destruct (checkActions uuid now (S n) l1) as [n2 r2].
  cbn [fst snd] in *. destruct IH as [-> ->].
  split; [| reflexivity].
  now destruct (determineHealAction (uuid n) now c).
Qed.

Lemma registered_name_rules (k : string) :
  In k Coordinator.agentNames ->
  includes ("agent-" ++ k) "kv" = false
  /\ includes ("agent-" ++ k) "d1" = false
  /\ includes ("agent-" ++ k) "agent" = true
  /\ replace ("agent-" ++ k) "agent-" "" = k.
Proof.
  cbn [Coordinator.agentNames In].
  intros [<- | [<- | [<- | [<- | [<- | []]]]]]; repeat split.
Qed.

Lemma derived_checks_plan (uuid : nat -> string) (t now : Timestamp)
  (m : Map Agent.AgentHealth) : forall (n : nat),
  Forall (fun e => In (fst e) Coordinator.agentNames
                   /\ Agent.name (snd e) = fst e) m ->
  map plan (snd (checkActions uuid t n (map (Coordinator.agentCheck now) m)))
  = map (fun a => (restart, Agent.name a))
        (filter (fun a => Agent.status_eqb (Agent.status a) Agent.error)
                (values m)).
Proof.
  unfold values.
  induction m as [| [k a] m IH]; intros n Hall; [reflexivity |].
  apply Forall_cons_iff in Hall as [[Hk Hname] Hall]. cbn [fst snd] in Hk, Hname.
  cbn [map filter snd]. unfold Coordinator.agentCheck at 1.
  destruct (Agent.status a) eqn:Hs; cbn [Agent.status_eqb negb andb];
    try (destruct (now - Agent.lastActivity a >? 300000);
         cbn [checkActions Check.status]; now apply IH).
  cbn [checkActions Check.status].
  specialize (IH (S n) Hall).
  destruct (checkActions uuid t (S n) (map (Coordinator.agentCheck now) m))
    as [n1 r1]. cbn [snd] in *.
  unfold determineHealAction. cbn [Check.name].
  destruct (registered_name_rules k Hk) as (-> & -> & -> & ->).
  cbn [map plan action target]. now rewrite IH, Hname.
Qed.

Lemma agentActions_plan (uuid : nat -> string) (t : Timestamp)
  (ags : list Agent.AgentHealth) : forall (n : nat),
  map plan (agentActions uuid t n ags)
  = map (fun a => (restart, Agent.name a))
        (filter (fun a => Agent.status_eqb (Agent.status a) Agent.error) ags).
Proof.
  induction ags as [| a ags IH]; intros n; [reflexivity |].
  cbn [agentActions filter].
  destruct (Agent.status a); cbn [Agent.status_eqb]; try apply IH.
  cbn [map plan action target]. now rewrite IH.
Qed.

(** X16.  From a report that the coordinator built of its own registry, the
    healer derives: a retry on kv-namespace when the KV probe threw, an
    alert on d1-database when the D1 probe threw, then one restart per
    agent in error status (from its failed check), then one more restart
    per agent in error status (from the agent list) -- so every agent in
    error status is restarted twice, and nothing else is derived. *)
Theorem plan_for_coordinator_report
  (uuid : nat -> string) (t : Timestamp)
  (p : Coordinator.Probes) (now stamp : Timestamp)
  (st : Coordinator.CoordinatorState) :
  keys (Coordinator.agents st) = Coordinator.agentNames ->
  Forall (fun e => Agent.name (snd e) = fst e) (Coordinator.agents st) ->
  let inError :=
    filter (fun a => Agent.status_eqb (Agent.status a) Agent.error)
           (values (Coordinator.agents st)) in
  map plan (actionsToTake uuid t (Coordinator.healthOf p now stamp st))
  = match Coordinator.kv p with
    | Threw _ => [(retry, "kv-namespace"%string)]
    | Returned _ => []
    end
    ++ match Coordinator.d1 p with
       | Threw _ => [(alert, "d1-database"%string)]
       | Returned _ => []
       end
    ++ map (fun a => (restart, Agent.name a)) inError
    ++ map (fun a => (restart, Agent.name a)) inError.
Proof.
  intros Hkeys Hnames inError.
  assert (Hall : Forall (fun e => In (fst e) Coordinator.agentNames
                                  /\ Agent.name (snd e) = fst e)
                        (Coordinator.agents st)).
  { rewrite Forall_forall in Hnames |- *. intros e He. split; [| now apply Hnames].
    rewrite <- Hkeys. unfold keys. now apply in_map. }
  unfold actionsToTake.
  cbn [Coordinator.healthOf Health.checks Health.agents].
  unfold Coordinator.runHealthChecks.
  pose proof (checkActions_app uuid t
                [Coordinator.kvCheck p; Coordinator.d1Check p; Coordinator.r2Check p]
                (map (Coordinator.agentCheck now) (Coordinator.agents st)) 0)
    as [Hsnd Hfst].
  destruct (checkActions uuid t 0
              ([Coordinator.kvCheck p; Coordinator.d1Check p; Coordinator.r2Check p]
               ++ map (Coordinator.agentCheck now) (Coordinator.agents st)))
    as [n fromChecks].
  cbn [fst snd] in Hsnd, Hfst. subst fromChecks.
  rewrite !map_app, agentActions_plan, (derived_checks_plan uuid t now _ _ Hall).
  fold inError.
  assert (map plan
            (snd (checkActions uuid t 0
                    [Coordinator.kvCheck p; Coordinator.d1Check p;
                     Coordinator.r2Check p]))
          = match Coordinator.kv p with
            | Threw _ => [(retry, "kv-namespace"%string)]
            | Returned _ => []
            end
            ++ match Coordinator.d1 p with
               | Threw _ => [(alert, "d1-database"%string)]
               | Returned _ => []
               end) as ->.
  { unfold Coordinator.kvCheck, Coordinator.d1Check, Coordinator.r2Check.
    destruct (Coordinator.kv p), (Coordinator.d1 p), (Coordinator.r2 p);
      reflexivity. }
  now rewrite <- !app_assoc.
Qed.

Lemma plan_for_coordinator_report_witness :
  map plan (actionsToTake MoreSamples.manyUuids 300 MoreSamples.sickSnapshot)
  = [ (retry, "kv-namespace"); (alert, "d1-database");
      (restart, "repo-scraper"); (restart, "repo-scraper") ]%string.
Proof.
  refine (plan_for_coordinator_report MoreSamples.manyUuids 300
            MoreSamples.failingProbes 100 101 Samples.erringRegistry eq_refl _).
  repeat constructor.
Defined.

End SelfHealerMore.

(** ** The repo scraper: the structure of a tree *)
Module RepoScraperMore.
Import Js RepoScraper.
Local Open Scope string_scope.

Example endsWith_examples :
  endsWith "apps/web/package.json" "package.json" = true
  /\ endsWith "mypackage.json" "package.json" = true
  /\ endsWith "package.json.bak" "package.json" = false
  /\ endsWith "a" "package.json" = false
  /\ endsWith "anything" "" = true.
Proof. repeat split. Qed.

Lemma analyzeTree_from (tree : list TreeItem) : forall (acc : RepoStructure),
  let blobs := map path (filter (fun i => String.eqb (type i) "blob") tree) in
  let r := fold_left visit tree acc in
  files r = (files acc ++ blobs)%list
  /\ directories r
     = (directories acc
        ++ map path (filter (fun i => negb (String.eqb (type i) "blob")
                                      && String.eqb (type i) "tree") tree))%list
  /\ configFiles r = (configFiles acc ++ filter isConfig blobs)%list
  /\ entryPoints r = (entryPoints acc ++ filter isEntry blobs)%list.
Proof.
  induction tree as [| item tree IH]; intros acc.
  - cbn. now rewrite !app_nil_r.
  - cbn [fold_left filter]. specialize (IH (visit acc item)). cbv zeta in IH.
    destruct IH as (H1 & H2 & H3 & H4). cbv zeta.
    rewrite H1, H2, H3, H4. unfold visit.
    destruct (String.eqb (type item) "blob") eqn:Eb; cbn [negb andb].
    + cbn [files directories configFiles entryPoints map filter].
      destruct (isConfig (path item)), (isEntry (path item));
        rewrite <- ?app_assoc; repeat split; reflexivity.
    + destruct (String.eqb (type item) "tree");
        cbn [files directories configFiles entryPoints map filter];
        rewrite <- ?app_assoc; repeat split; reflexivity.
Qed.

Lemma analyzeTree_lists (tree : list TreeItem) :
  files (analyzeTree tree)
  = map path (filter (fun i => String.eqb (type i) "blob") tree)
  /\ directories (analyzeTree tree)
     = map path (filter (fun i => String.eqb (type i) "tree") tree)
  /\ configFiles (analyzeTree tree) = filter isConfig (files (analyzeTree tree))
  /\ entryPoints (analyzeTree tree) = filter isEntry (files (analyzeTree tree)).
Proof.
  destruct (analyzeTree_from tree
              {| files := []; directories := []; configFiles := [];
                 entryPoints := [] |}) as (H1 & H2 & H3 & H4).
  cbv zeta in *. cbn [files directories configFiles entryPoints app] in *.
  unfold analyzeTree.
  assert (Hd : filter (fun i => negb (String.eqb (type i) "blob")
                                && String.eqb (type i) "tree") tree
               = filter (fun i => String.eqb (type i) "tree") tree).
  { apply filter_ext. intros i.
    destruct (String.eqb_spec (type i) "blob") as [E | E]; [| reflexivity].
    rewrite E. reflexivity. }
  rewrite H1, H2, H3, H4, Hd. repeat split.
Qed.

(** X17.  [analyzeTree] lists the paths of the blobs as files and the paths
    of the trees as directories, each in the order of the tree; its config
    files and entry points are the files that match a config pattern or an
    entry pattern, in the same order; an item that is neither a blob nor a
    tree contributes nothing. *)
Theorem analyzeTree_structure (tree : list TreeItem) :
  let s := analyzeTree tree in
  files s = map path (filter (fun i => String.eqb (type i) "blob") tree)
  /\ directories s
     = map path (filter (fun i => String.eqb (type i) "tree") tree)
  /\ configFiles s = filter isConfig (files s)
  /\ entryPoints s = filter isEntry (files s)
  /\ (List.length (files s) + List.length (directories s)
      <= List.length tree)%nat.
Proof.
  destruct (analyzeTree_lists tree) as (H1 & H2 & H3 & H4).
  cbv zeta. rewrite H3, H4, H1, H2.
  split; [reflexivity |]. split; [reflexivity |]. split; [reflexivity |].
  split; [reflexivity |].
  rewrite !length_map. clear.
  induction tree as [| i tree IH]; [cbn; lia |].
  cbn [filter List.length].
  destruct (String.eqb_spec (type i) "blob") as [E | E].
  - rewrite E. cbn [String.eqb List.length]. cbn. lia.
  - destruct (String.eqb (type i) "tree"); cbn [List.length]; lia.
Qed.

Lemma existsb_filter_implied {A : Type} (f g : A -> bool) (l : list A) :
  (forall x, f x = true -> g x = true) ->
  existsb f (filter g l) = existsb f l.
Proof.
  intros H. induction l as [| x l IH]; [reflexivity |].
  cbn. destruct (g x) eqn:Eg; cbn; rewrite IH; [reflexivity |].
  destruct (f x) eqn:Ef; [| reflexivity].
  rewrite (H x Ef) in Eg. discriminate.
Qed.

Lemma config_suffixes (p : string) :
  (endsWith p "package.json" = true -> isConfig p = true)
  /\ (endsWith p "wrangler.toml" = true -> isConfig p = true)
  /\ (endsWith p "Cargo.toml" = true -> isConfig p = true).
Proof.
  unfold isConfig, configPatterns. cbn [existsb].
  repeat split; intros ->; rewrite ?orb_true_r; reflexivity.
Qed.

(** X18.  The dependencies read off a tree: npm, cloudflare-workers and
    rust are listed exactly when some blob's path ends with package.json,
    wrangler.toml and Cargo.toml; the two internal packages exactly when
    the path of some tree contains agents and prism; the list has no other
    entry and none twice. *)
Theorem dependencies_of_tree (tree : list TreeItem) :
  let deps := analyzeDependencies (analyzeTree tree) in
  let blob suffix :=
    exists i, In i tree /\ type i = "blob" /\ endsWith (path i) suffix = true in
  let dir part :=
    exists i, In i tree /\ type i = "tree" /\ includes (path i) part = true in
  (In "npm" deps <-> blob "package.json")
  /\ (In "cloudflare-workers" deps <-> blob "wrangler.toml")
  /\ (In "rust" deps <-> blob "Cargo.toml")
  /\ (In "@blackroad-os/agents" deps <-> dir "agents")
  /\ (In "@blackroad-os/prism" deps <-> dir "prism")
  /\ incl deps ["npm"; "cloudflare-workers"; "rust"; "@blackroad-os/agents";
                "@blackroad-os/prism"]
  /\ NoDup deps.
Proof.
  destruct (analyzeTree_lists tree) as (Hf & Hd & Hc & _).
  cbv zeta. unfold analyzeDependencies. rewrite Hc, Hd.
  rewrite !(existsb_filter_implied _ isConfig)
    by (intros x; apply (config_suffixes x)).
  rewrite Hf.
  assert (Hblob : forall suffix,
    existsb (fun f => endsWith f suffix)
      (map path (filter (fun i => String.eqb (type i) "blob") tree)) = true
    <-> exists i, In i tree /\ type i = "blob"
                  /\ endsWith (path i) suffix = true).
  { intros suffix. rewrite existsb_exists. split.
    - intros (x & Hx & He). apply in_map_iff in Hx as (i & <- & Hi).
      apply filter_In in Hi as [Hi Ht]. apply String.eqb_eq in Ht. eauto.
    - intros (i & Hi & Ht & He). exists (path i). split; [| exact He].
      apply in_map, filter_In. split; [exact Hi |]. now apply String.eqb_eq. }
  assert (Hdir : forall part,
    existsb (fun d => includes d part)
      (map path (filter (fun i => String.eqb (type i) "tree") tree)) = true
    <-> exists i, In i tree /\ type i = "tree"
                  /\ includes (path i) part = true).
  { intros part. rewrite existsb_exists. split.
    - intros (x & Hx & He). apply in_map_iff in Hx as (i & <- & Hi).
      apply filter_In in Hi as [Hi Ht]. apply String.eqb_eq in Ht. eauto.
    - intros (i & Hi & Ht & He). exists (path i). split; [| exact He].
      apply in_map, filter_In. split; [exact Hi |]. now apply String.eqb_eq. }
  rewrite <- !Hblob, <- !Hdir.
  destruct (existsb (fun f => endsWith f "package.json") _),
    (existsb (fun f => endsWith f "wrangler.toml") _),
    (existsb (fun f => endsWith f "Cargo.toml") _),
    (existsb (fun d => includes d "agents") _),
    (existsb (fun d => includes d "prism") _);
    cbn [app];
    (split; [split; [intros H; first [reflexivity | cbn in H; intuition discriminate]
                    | intros H; first [discriminate H | cbn; auto 10]] |]);
    (split; [split; [intros H; first [reflexivity | cbn in H; intuition discriminate]
                    | intros H; first [discriminate H | cbn; auto 10]] |]);
    (split; [split; [intros H; first [reflexivity | cbn in H; intuition discriminate]
                    | intros H; first [discriminate H | cbn; auto 10]] |]);
    (split; [split; [intros H; first [reflexivity | cbn in H; intuition discriminate]
                    | intros H; first [discriminate H | cbn; auto 10]] |]);
    (split; [split; [intros H; first [reflexivity | cbn in H; intuition discriminate]
                    | intros H; first [discriminate H | cbn; auto 10]] |]);
    (split; [intros x Hx; cbn in Hx |- *; intuition auto |]);
    repeat constructor; cbn; intuition discriminate.
Qed.

End RepoScraperMore.

(** ** The sync manager: histories and pending events *)
Module SyncManagerMore.
Import Js SyncManager.

Lemma syncRepoInternal_frame (name : string) (s : Scrape) (st : SyncState) :
  events (snd (syncRepoInternal name s st)) = events st
  /\ syncHistory (snd (syncRepoInternal name s st)) = syncHistory st
  /\ lastFullSync (snd (syncRepoInternal name s st)) = lastFullSync st.
Proof.
  unfold syncRepoInternal. destruct s as [e | | c cohesion]; cbn; auto.
  destruct (differs _ c); [destruct cohesion |]; cbn; auto.
Qed.

Lemma entryOf_fields {A : Type} (u name : string) (t : HistoryType)
  (n : Timestamp) (r : Outcome A) :
  id (entryOf u name t n r) = u
  /\ repo (entryOf u name t n r) = name
  /\ type (entryOf u name t n r) = t
  /\ timestamp (entryOf u name t n r) = n.
Proof. destruct r; cbn; auto. Qed.

(** The loop of a full sync appends one entry per repository, in the order
    of the list, flagged as the outcome collected for it, and touches
    neither the events nor the time of the last full sync. *)
Lemma syncAll_appends (repos : list string) :
  forall (world : nat -> Round) (i : nat)
         (results : JsObject.Obj (Outcome SyncResult)) (st : SyncState),
  exists added outcomes,
    syncHistory (snd (syncAll world i repos results st))
    = (syncHistory st ++ added)%list
    /\ map repo added = repos
    /\ map id added = map (fun j => uuid (world j)) (seq i (List.length repos))
    /\ Forall (fun e => type e = manual) added
    /\ List.length outcomes = List.length repos
    /\ fst (syncAll world i repos results st)
       = fold_left (fun o e => set o (fst e) (snd e)) (combine repos outcomes)
           results
    /\ map success added
       = map (fun r => match r with Returned _ => true | Threw _ => false end)
           outcomes
    /\ events (snd (syncAll world i repos results st)) = events st
    /\ lastFullSync (snd (syncAll world i repos results st)) = lastFullSync st.
Proof.
  induction repos as [| name repos IH]; intros world i results st.
  - exists [], []. cbn. rewrite app_nil_r. repeat split; constructor.
  - cbn [syncAll].
    pose proof (syncRepoInternal_frame name (scrape (world i)) st)
      as (He & Hh & Hl).
    destruct (syncRepoInternal name (scrape (world i)) st) as [r st1].
    cbn [snd] in He, Hh, Hl.
    set (entry := entryOf (uuid (world i)) name manual (now (world i)) r).
    destruct (IH world (S i) (set results name r) (pushHistory entry st1))
      as (added & outcomes & H1 & H2 & H3 & H4 & H5 & H6 & H7 & H8 & H9).
    pose proof (entryOf_fields (uuid (world i)) name manual (now (world i)) r)
      as (Fi & Fr & Ft & _).
    assert (Fs : success entry
                 = match r with Returned _ => true | Threw _ => false end)
      by (unfold entry; destruct r; reflexivity).
    fold entry in Fi, Fr, Ft.
    exists (entry :: added), (r :: outcomes). rewrite H1, H6, H8, H9. cbn.
    rewrite Hh, He, Hl, <- app_assoc, Fi, Fr, Fs, H2, H3, H5, H7.
    repeat split. constructor; [exact Ft | exact H4].
Qed.

Lemma trim_skipn (h : list SyncHistoryEntry) :
  trim h = skipn (List.length h - 100) h.
Proof.
  unfold trim. destruct (Nat.ltb_spec 100 (List.length h)) as [H | H];
    [reflexivity |].
  replace (List.length h - 100)%nat with 0%nat by lia. reflexivity.
Qed.

(** X19.  A full sync appends one [manual] entry per tracked repository,
    in the order of the list and with the identifiers drawn in that order,
    then keeps the last hundred entries of the history; the answer collects
    one outcome per repository under its name, and each entry is flagged a
    success exactly when the outcome of its round is not an error; the sync
    records when it finished and leaves the events alone. *)
Theorem fullSync_logs_each_repo_then_trims (trackedRepos : list string)
  (world : nat -> Round) (nowDone : Timestamp) (st : SyncState) :
  exists added outcomes,
    map repo added = trackedRepos
    /\ map id added
       = map (fun j => uuid (world j)) (seq 0 (List.length trackedRepos))
    /\ Forall (fun e => type e = manual) added
    /\ List.length outcomes = List.length trackedRepos
    /\ fst (handleFullSync trackedRepos world nowDone st)
       = JsObject.fromEntries (combine trackedRepos outcomes)
    /\ map success added
       = map (fun r => match r with Returned _ => true | Threw _ => false end)
           outcomes
    /\ syncHistory (snd (handleFullSync trackedRepos world nowDone st))
       = skipn (List.length (syncHistory st ++ added) - 100)
           (syncHistory st ++ added)
    /\ List.length
         (syncHistory (snd (handleFullSync trackedRepos world nowDone st)))
       = Nat.min 100 (List.length (syncHistory st) + List.length trackedRepos)
    /\ lastFullSync (snd (handleFullSync trackedRepos world nowDone st))
       = Some nowDone
    /\ events (snd (handleFullSync trackedRepos world nowDone st)) = events st.
Proof.
  destruct (syncAll_appends trackedRepos world 0 [] st)
    as (added & outcomes & H1 & H2 & H3 & H4 & H5 & H6 & H7 & H8 & _).
  exists added, outcomes. unfold handleFullSync, JsObject.fromEntries.
  destruct (syncAll world 0 trackedRepos [] st) as [results st1].
  cbn [fst snd syncHistory lastFullSync events] in *.
  rewrite trim_skipn, H1.
  repeat split; try assumption.
  rewrite length_skipn, length_app, <- H2, length_map. lia.
Qed.

Lemma sort_history_newestFirst (l : list SyncHistoryEntry) :
  Sorted.StronglySorted (fun a b => timestamp b <= timestamp a)
    (sort newestFirst l).
Proof.
  rewrite (JsMoreFacts.sort_ext newestFirst
             (fun a b => (fun x => - timestamp x) a - (fun x => - timestamp x) b))
    by (intros a b; unfold newestFirst; lia).
  eapply JsMoreFacts.sorted_weaken;
    [| apply (JsMoreFacts.sort_sorted (fun x => - timestamp x))].
  cbn. intros a b H. lia.
Qed.

Lemma sort_history_newestFirst_id (l : list SyncHistoryEntry) :
  Sorted.StronglySorted (fun a b => timestamp b <= timestamp a) l ->
  sort newestFirst l = l.
Proof.
  intros H.
  rewrite (JsMoreFacts.sort_ext newestFirst
             (fun a b => (fun x => - timestamp x) a - (fun x => - timestamp x) b))
    by (intros a b; unfold newestFirst; lia).
  apply (JsMoreFacts.sort_sorted_id (fun x => - timestamp x)).
  eapply JsMoreFacts.sorted_weaken; [| exact H].
  cbn. intros a b Hab. lia.
Qed.

(** X20.  Asking for the history reorders the stored history itself: it
    keeps the same entries, newest first; the answer is its first fifty;
    asking again changes nothing more. *)
Theorem history_request_reorders_stored_history (st : SyncState) :
  Permutation.Permutation (syncHistory (snd (handleHistory st))) (syncHistory st)
  /\ Sorted.StronglySorted (fun a b => timestamp b <= timestamp a)
       (syncHistory (snd (handleHistory st)))
  /\ fst (handleHistory st) = firstn 50 (syncHistory (snd (handleHistory st)))
  /\ List.length (fst (handleHistory st))
     = Nat.min 50 (List.length (syncHistory st))
  /\ handleHistory (snd (handleHistory st)) = handleHistory st.
Proof.
  unfold handleHistory, slice0. cbn [fst snd syncHistory events lastFullSync
                                       watchedBranches].
  split; [apply JsMoreFacts.sort_perm |].
  split; [apply sort_history_newestFirst |].
  split; [reflexivity |].
  split; [rewrite length_firstn, JsMoreFacts.sort_length; reflexivity |].
  rewrite (sort_history_newestFirst_id _ (sort_history_newestFirst _)). reflexivity.
Qed.

(** X21.  A full sync trims by position, and a history request has put
    the newest entries first: after a history request, a full sync over at
    most a hundred repositories keeps all its own entries, and every stored
    entry it drops is at least as new as every stored entry it keeps. *)
Theorem fullSync_after_history_drops_newest (trackedRepos : list string)
  (world : nat -> Round) (nowDone : Timestamp) (st : SyncState) :
  (List.length trackedRepos <= 100)%nat ->
  exists dropped kept added,
    Permutation.Permutation (dropped ++ kept) (syncHistory st)
    /\ syncHistory
         (snd (handleFullSync trackedRepos world nowDone (snd (handleHistory st))))
       = (kept ++ added)%list
    /\ map repo added = trackedRepos
    /\ List.length dropped
       = (List.length (syncHistory st) + List.length trackedRepos - 100)%nat
    /\ forall x y, In x dropped -> In y kept -> timestamp y <= timestamp x.
Proof.
  intros Hlen.
  set (sorted := sort newestFirst (syncHistory st)).
  destruct (syncAll_appends trackedRepos world 0 [] (snd (handleHistory st)))
    as (added & outcomes & H1 & H2 & _).
  assert (Hadded : List.length added = List.length trackedRepos)
    by (rewrite <- H2; symmetry; apply length_map).
  assert (Hsorted : List.length sorted = List.length (syncHistory st))
    by apply JsMoreFacts.sort_length.
  set (d := (List.length (syncHistory st) + List.length trackedRepos - 100)%nat).
  exists (firstn d sorted), (skipn d sorted), added.
  split.
  { rewrite firstn_skipn. apply JsMoreFacts.sort_perm. }
  split.
  { unfold handleFullSync.
    destruct (syncAll world 0 trackedRepos [] (snd (handleHistory st)))
      as [results st1].
    cbn [snd syncHistory] in H1 |- *. rewrite trim_skipn, H1.
    change (syncHistory (snd (handleHistory st))) with sorted.
    rewrite length_app, Hsorted, Hadded. fold d.
    rewrite skipn_app.
    replace (d - List.length sorted)%nat with 0%nat by lia. reflexivity. }
  split; [exact H2 |].
  split; [rewrite length_firstn; lia |].
  intros x y Hx Hy.
  exact (JsMoreFacts.sorted_split _ d _ (sort_history_newestFirst _) x y Hx Hy).
Qed.

Lemma fullSync_after_history_drops_newest_witness :
  (List.length ["youtube"; "docs"]%string <= 100)%nat
  /\ exists dropped kept added,
       Permutation.Permutation (dropped ++ kept)
         (syncHistory MoreSamples.fullSyncState)
       /\ syncHistory
            (snd (handleFullSync ["youtube"; "docs"]%string
                    MoreSamples.failingRounds 900
                    (snd (handleHistory MoreSamples.fullSyncState))))
          = (kept ++ added)%list
       /\ map repo added = ["youtube"; "docs"]%string
       /\ List.length dropped
          = (List.length (syncHistory MoreSamples.fullSyncState)
             + List.length ["youtube"; "docs"]%string - 100)%nat
       /\ forall x y, In x dropped -> In y kept -> timestamp y <= timestamp x.
Proof.
  split; [cbn; lia |].
  apply (fullSync_after_history_drops_newest ["youtube"; "docs"]%string
           MoreSamples.failingRounds 900 MoreSamples.fullSyncState).
  cbn; lia.
Defined.

Lemma processEvent_effect (w : EventRound) (k : string) (e : SyncEvent)
  (st : SyncState) :
  events (processEvent w k e st) = set (events st) k (marked (markedAt w) e)
  /\ exists entry,
       syncHistory (processEvent w k e st) = (syncHistory st ++ [entry])%list
       /\ repo entry = eventRepo e
       /\ type entry = ofEvent (eventType e).
Proof.
  unfold processEvent.
  match goal with
  | |- context [syncRepoInternal ?n ?s ?s0] =>
      pose proof (syncRepoInternal_frame n s s0) as (He & Hh & _);
      destruct (syncRepoInternal n s s0) as [r st1]
  end.
  cbn [snd events syncHistory] in He, Hh.
  cbn [pushHistory events syncHistory]. rewrite He, Hh.
  split; [reflexivity |].
  eexists. split; [reflexivity |].
  match goal with
  | |- context [entryOf ?u ?n ?t ?m ?o] =>
      pose proof (entryOf_fields u n t m o) as (_ & Fr & Ft & _)
  end.
  split; assumption.
Qed.

Lemma NoDup_keys_filter {V : Type} (f : string * V -> bool) (m : Map V) :
  NoDup (keys m) -> NoDup (keys (filter f m)).
Proof.
  unfold keys. induction m as [| kv m IH]; cbn; intros H; [constructor |].
  inversion H as [| ? ? Hn Hnd]; subst.
  destruct (f kv); cbn; [constructor |]; auto.
  intros Hin. apply Hn. apply in_map_iff in Hin as (x & Hx & Hi).
  apply filter_In in Hi as [Hi _]. apply in_map_iff. now exists x.
Qed.

(** The loop over the pending events marks each of them where it is stored,
    leaves the other events as they are, and appends one entry per event. *)
Lemma processAll_effect (todo : list (string * SyncEvent)) :
  forall (world : nat -> EventRound) (i : nat) (st : SyncState),
  NoDup (keys todo) ->
  (forall k, In k (keys todo) -> get (events st) k <> None) ->
  keys (events (processAll world i todo st)) = keys (events st)
  /\ (forall k, ~ In k (keys todo) ->
        get (events (processAll world i todo st)) k = get (events st) k)
  /\ (forall k e, In (k, e) todo ->
        exists t, get (events (processAll world i todo st)) k
                  = Some (marked t e))
  /\ exists added,
       syncHistory (processAll world i todo st) = (syncHistory st ++ added)%list
       /\ map repo added = map (fun ke => eventRepo (snd ke)) todo
       /\ map type added = map (fun ke => ofEvent (eventType (snd ke))) todo.
Proof.
  unfold keys.
  induction todo as [| [k e] todo IH]; intros world i st Hnd Hin.
  - cbn. repeat split; try tauto.
    exists []. rewrite app_nil_r. repeat split.
  - cbn [processAll].
    destruct (processEvent_effect (world i) k e st)
      as (Hev & entry & Hh & Hr & Ht).
    set (st1 := processEvent (world i) k e st) in *.
    cbn [map fst] in Hnd, Hin. inversion Hnd as [| ? ? Hk Hnd']; subst.
    assert (Hkeys : keys (events st1) = keys (events st)).
    { rewrite Hev. destruct (get (events st) k) as [e0 |] eqn:Hg.
      - exact (JsFacts.keys_set_present _ k _ e0 Hg).
      - exfalso. apply (Hin k); [now left | exact Hg]. }
    destruct (IH world (S i) st1 Hnd') as (K & O & M & added & A1 & A2 & A3).
    { intros k' Hk'. rewrite Hev, JsFacts.get_set_ne.
      - apply Hin. now right.
      - intros ->. contradiction. }
    split; [unfold keys in *; congruence |].
    split.
    { intros k' Hk'. cbn [map fst] in Hk'.
      rewrite O by (intros Hi; apply Hk'; now right).
      rewrite Hev. apply JsFacts.get_set_ne. intros ->. apply Hk'. now left. }
    split.
    { intros k' e' [Heq | Hin'].
      - inversion Heq; subst k' e'. exists (markedAt (world i)).
        rewrite O by exact Hk. rewrite Hev. apply JsFacts.get_set_eq.
      - now apply M. }
    exists (entry :: added). rewrite A1, Hh, <- app_assoc. cbn.
    rewrite Hr, Ht, A2, A3. repeat split.
Qed.

(** X22.  When the stored events have distinct keys, processing the
    pending events marks every event that was waiting and changes no other
    field of any event; it appends one history entry per such event, with
    the event's repository and type, in the order the events are stored;
    and it leaves nothing for a second run to do. *)
Theorem processEvents_marks_every_pending_event (world : nat -> EventRound)
  (st : SyncState) :
  NoDup (keys (events st)) ->
  let pending := map snd (filter (fun ke => unprocessed (snd ke)) (events st)) in
  fst (handleProcessEvents world st) = List.length pending
  /\ keys (events (snd (handleProcessEvents world st))) = keys (events st)
  /\ (forall k e, get (events st) k = Some e ->
        exists e',
          get (events (snd (handleProcessEvents world st))) k = Some e'
          /\ unprocessed e' = false
          /\ (unprocessed e = false -> e' = e)
          /\ (unprocessed e = true -> exists t, e' = marked t e))
  /\ (exists added,
        syncHistory (snd (handleProcessEvents world st))
        = (syncHistory st ++ added)%list
        /\ map repo added = map eventRepo pending
        /\ map type added = map (fun e => ofEvent (eventType e)) pending)
  /\ forall world',
       handleProcessEvents world' (snd (handleProcessEvents world st))
       = (0%nat, snd (handleProcessEvents world st)).
Proof.
  intros Hnd pending. unfold handleProcessEvents. cbn [fst snd].
  set (todo := filter (fun ke => unprocessed (snd ke)) (events st)) in *.
  destruct (processAll_effect todo world 0 st) as (K & O & M & added & A1 & A2 & A3).
  { apply NoDup_keys_filter, Hnd. }
  { intros k Hk. unfold keys in Hk.
    apply in_map_iff in Hk as ([k' e] & Hf & Hi). cbn in Hf. subst k'.
    apply filter_In in Hi as [Hi _].
    rewrite (JsFacts.In_get _ _ _ Hnd Hi). discriminate. }
  set (st' := processAll world 0 todo st) in *.
  assert (C : forall k e, get (events st) k = Some e ->
            exists e', get (events st') k = Some e'
                       /\ unprocessed e' = false
                       /\ (unprocessed e = false -> e' = e)
                       /\ (unprocessed e = true -> exists t, e' = marked t e)).
  { intros k e Hg. destruct (unprocessed e) eqn:Hu.
    - destruct (M k e) as (t & Ht).
      { apply filter_In. split; [now apply JsFacts.get_In | exact Hu]. }
      exists (marked t e). repeat split; [exact Ht | discriminate |].
      intros _. now exists t.
    - exists e. rewrite O; [repeat split; auto; discriminate |].
      intros Hk. unfold keys in Hk.
      apply in_map_iff in Hk as ([k' e0] & Hf & Hi). cbn in Hf. subst k'.
      apply filter_In in Hi as [Hi Hu0]. cbn in Hu0.
      rewrite (JsFacts.In_get _ _ _ Hnd Hi) in Hg. congruence. }
  split; [unfold pending; now rewrite length_map |].
  split; [exact K |].
  split; [exact C |].
  split.
  { exists added. unfold pending. rewrite !map_map. auto. }
  intros world'.
  assert (Hnone : filter (fun ke => unprocessed (snd ke)) (events st') = []).
  { assert (Hall : forall ke, In ke (events st') -> unprocessed (snd ke) = false).
    { intros [k e'] Hi. cbn.
      assert (Hnd' : NoDup (keys (events st'))) by (rewrite K; exact Hnd).
      pose proof (JsFacts.In_get _ _ _ Hnd' Hi) as Hg'.
      assert (Hk : In k (keys (events st))).
      { rewrite <- K. unfold keys. apply in_map_iff. now exists (k, e'). }
      apply JsMoreFacts.keys_In_get in Hk.
      destruct (get (events st) k) as [e |] eqn:Hg; [| congruence].
      destruct (C k e Hg) as (e'' & Hg'' & Hu & _). congruence. }
    revert Hall. generalize (events st') as m.
    induction m as [| ke m IHm]; intros Hall; [reflexivity |].
    cbn. rewrite (Hall ke) by now left.
    apply IHm. intros x Hx. apply Hall. now right. }
  rewrite Hnone. reflexivity.
Qed.

Lemma processEvents_marks_every_pending_event_witness :
  NoDup (keys (events MoreSamples.oneWaiting))
  /\ fst (handleProcessEvents MoreSamples.calmRounds MoreSamples.oneWaiting)
     = 1%nat
  /\ handleProcessEvents MoreSamples.calmRounds
       (snd (handleProcessEvents MoreSamples.calmRounds MoreSamples.oneWaiting))
     = (0%nat,
        snd (handleProcessEvents MoreSamples.calmRounds MoreSamples.oneWaiting)).
Proof.
  assert (Hnd : NoDup (keys (events MoreSamples.oneWaiting))).
  { cbn. constructor; [intros [H | []]; discriminate H |].
    constructor; [intros [] | constructor]. }
  split; [exact Hnd |].
  pose proof (processEvents_marks_every_pending_event MoreSamples.calmRounds
                MoreSamples.oneWaiting Hnd) as (H1 & _ & _ & _ & H5).
  split; [exact H1 | apply H5].
Defined.

Lemma none_pending (m : Map SyncEvent) :
  NoDup (keys m) ->
  (forall k e, get m k = Some e -> unprocessed e = false) ->
  filter (fun ke => unprocessed (snd ke)) m = [].
Proof.
  unfold keys. induction m as [| [k e] m IH]; intros Hnd H; [reflexivity |].
  cbn [map fst] in Hnd. inversion Hnd as [| ? ? Hk Hnd']; subst.
  cbn [filter snd]. rewrite (H k e) by (cbn; now rewrite String.eqb_refl).
  apply IH; [exact Hnd' |]. intros k' e' Hg. apply (H k' e'). cbn.
  destruct (String.eqb_spec k k') as [<- | _]; [| exact Hg].
  exfalso. apply Hk. apply JsFacts.get_In in Hg.
  apply in_map_iff. now exists (k, e').
Qed.

(** X23.  An event that arrives by webhook under a fresh identifier, while
    no stored event is waiting, is processed exactly once: during the
    webhook when its repository is tracked and auto-sync is enabled, and
    otherwise by the next run over the pending events, which then counts
    one event instead of none.  Either way the event is stored under its
    identifier, marked, with the repository named in the body (unknown when
    there is none) and the type its event name maps to, and the history has
    grown by one entry of that repository and type. *)
Theorem webhook_event_processed_once (trackedRepos : list string)
  (autoSyncEnabled uuid : string) (w : EventRound) (event : string)
  (body : WebhookBody) (world : nat -> EventRound) (st : SyncState) :
  NoDup (keys (events st)) ->
  get (events st) uuid = None ->
  (forall k e, get (events st) k = Some e -> unprocessed e = false) ->
  let name := orString (repositoryName body) "unknown" in
  let answer := fst (handleWebhook trackedRepos autoSyncEnabled uuid w event
                       body st) in
  let st1 := snd (handleWebhook trackedRepos autoSyncEnabled uuid w event
                    body st) in
  let st2 := snd (handleProcessEvents world st1) in
  (autoSynced answer = true <-> In name trackedRepos /\ autoSyncEnabled = "true"%string)
  /\ fst (handleProcessEvents world st1)
     = (if autoSynced answer then 0%nat else 1%nat)
  /\ keys (events st2) = (keys (events st) ++ [uuid])%list
  /\ (exists t,
        get (events st2) uuid = Some (marked t (webhookEvent uuid event body)))
  /\ (forall k, k <> uuid -> get (events st2) k = get (events st) k)
  /\ exists entry,
       syncHistory st2 = (syncHistory st ++ [entry])%list
       /\ repo entry = name
       /\ type entry = ofEvent (mapEventType event).
Proof.
  intros Hnd Hfresh Hdone name answer st1 st2.
  set (ev := webhookEvent uuid event body).
  set (st0 := {| events := set (events st) uuid ev;
                 syncHistory := syncHistory st;
                 lastFullSync := lastFullSync st;
                 watchedBranches := watchedBranches st |}).
  assert (Hauto : autoSynced answer
                  = existsb (String.eqb name) trackedRepos
                    && String.eqb autoSyncEnabled "true") by reflexivity.
  assert (Hst1 : st1 = if autoSynced answer then processEvent w uuid ev st0
                       else st0) by reflexivity.
  assert (Hev0 : events st0 = (events st ++ [(uuid, ev)])%list)
    by (apply JsMoreFacts.set_absent_app; exact Hfresh).
  (* Whoever processes the event, the state after is that of one call of
     [processEvent] on the state with the event stored. *)
  assert (Hone : exists w', st2 = processEvent w' uuid ev st0
                   /\ fst (handleProcessEvents world st1)
                      = (if autoSynced answer then 0%nat else 1%nat)).
  { subst st2. rewrite Hst1. destruct (autoSynced answer).
    - exists w. unfold handleProcessEvents.
      rewrite none_pending; [split; reflexivity | |].
      + rewrite (proj1 (processEvent_effect w uuid ev st0)).
        repeat apply JsFacts.NoDup_keys_set. exact Hnd.
      + intros k e. rewrite (proj1 (processEvent_effect w uuid ev st0)).
        destruct (String.eqb_spec uuid k) as [<- | Hne].
        * rewrite JsFacts.get_set_eq. intros [= <-]. reflexivity.
        * rewrite JsFacts.get_set_ne by exact Hne.
          cbn [events st0]. rewrite JsFacts.get_set_ne by exact Hne.
          apply Hdone.
    - exists (world 0%nat). unfold handleProcessEvents.
      rewrite Hev0, filter_app, (none_pending _ Hnd Hdone).
      split; reflexivity. }
  destruct Hone as (w' & Hst2 & Hn).
  destruct (processEvent_effect w' uuid ev st0) as (He & entry & Hh & Hr & Ht).
  rewrite <- Hst2 in He, Hh.
  split.
  { rewrite Hauto, andb_true_iff, existsb_exists, String.eqb_eq. split.
    - intros [(x & Hx & Hxe) Ha]. apply String.eqb_eq in Hxe. subst x. auto.
    - intros [Hx Ha]. split; [| exact Ha]. exists name.
      split; [exact Hx | apply String.eqb_refl]. }
  split; [exact Hn |].
  split.
  { rewrite He, (JsFacts.keys_set_present _ uuid _ ev).
    - rewrite Hev0. unfold keys. now rewrite map_app.
    - apply JsFacts.get_set_eq. }
  split.
  { exists (markedAt w'). rewrite He. apply JsFacts.get_set_eq. }
  split.
  { intros k Hk. rewrite He.
    rewrite JsFacts.get_set_ne by (intros E; apply Hk; now symmetry).
    cbn [events st0].
    apply JsFacts.get_set_ne. intros E. apply Hk. now symmetry. }
  exists entry. repeat split; assumption.
Qed.

Lemma webhook_event_processed_once_witness :
  NoDup (keys (events MoreSamples.nothingWaiting))
  /\ get (events MoreSamples.nothingWaiting) "e2" = None
  /\ fst (handleProcessEvents MoreSamples.calmRounds
            (snd (handleWebhook ["docs"]%string "true" "e2"
                    (MoreSamples.calmRounds 0) "push" MoreSamples.pushBody
                    MoreSamples.nothingWaiting)))
     = 1%nat.
Proof.
  assert (Hnd : NoDup (keys (events MoreSamples.nothingWaiting)))
    by (cbn; constructor; [intros [] | constructor]).
  assert (Hdone : forall k e,
            get (events MoreSamples.nothingWaiting) k = Some e ->
            unprocessed e = false).
  { intros k e H. unfold MoreSamples.nothingWaiting in H.
    cbn [events get] in H.
    destruct (String.eqb "e1" k); [| discriminate H].
    injection H as <-. reflexivity. }
  split; [exact Hnd |]. split; [reflexivity |].
  exact (proj1 (proj2
    (webhook_event_processed_once ["docs"]%string "true" "e2"
       (MoreSamples.calmRounds 0) "push" MoreSamples.pushBody
       MoreSamples.calmRounds MoreSamples.nothingWaiting
       Hnd eq_refl Hdone))).
Defined.

End SyncManagerMore.
